(** * Credential validation of claude_rebalance/account_check

    A shallow embedding of the two probe implementations
    ([web-server.js] and [check-claude-cli-accounts.js]), of the
    account validator, of the batch runner, of the CSV report, of the
    DingTalk notification text and of the command-line parser, followed
    by the properties the specification states about them. *)

From Stdlib Require Import Ascii String DecimalString.
From Stdlib Require Import ZArith NArith Bool Arith Lia List Permutation.
Import ListNotations.

(* ================================================================== *)
(** * JavaScript values used by the program *)

Module JS.

(** A JavaScript string is a sequence of UTF-16 code units. *)
Definition jsstring := list N.

(** An ASCII literal of the source. *)
Definition lit (s : string) : jsstring :=
  map N_of_ascii (list_ascii_of_string s).
Arguments lit s%_string.

(** [a === b] on strings. *)
Fixpoint streq (a b : jsstring) : bool :=
  match a, b with
  | [], [] => true
  | x :: a', y :: b' => N.eqb x y && streq a' b'
  | _, _ => false
  end.

(** [s.startsWith(p)]. *)
Fixpoint startsWith (s p : jsstring) : bool :=
  match p, s with
  | [], _ => true
  | _ :: _, [] => false
  | y :: p', x :: s' => N.eqb x y && startsWith s' p'
  end.

(** [s.includes(needle)]: the needle starts at some position of [s]. *)
Fixpoint includes (s needle : jsstring) : bool :=
  startsWith s needle ||
  match s with
  | [] => false
  | _ :: s' => includes s' needle
  end.

(** [s.substring(a, b)] for [0 <= a <= b], the only way the program
    calls it (the bounds are literals). *)
Definition substring (a b : nat) (s : jsstring) : jsstring :=
  firstn (b - a) (skipn a s).

(** WhiteSpace and LineTerminator code units, as [String.prototype.trim]
    strips them. *)
Definition isWhiteSpace (c : N) : bool :=
  (N.leb 9 c && N.leb c 13) || N.eqb c 32 || N.eqb c 160 ||
  N.eqb c 5760 || (N.leb 8192 c && N.leb c 8202) ||
  N.eqb c 8232 || N.eqb c 8233 || N.eqb c 8239 || N.eqb c 8287 ||
  N.eqb c 12288 || N.eqb c 65279.

Fixpoint trimStart (s : jsstring) : jsstring :=
  match s with
  | [] => []
  | c :: s' => if isWhiteSpace c then trimStart s' else s
  end.

Definition trimEnd (s : jsstring) : jsstring := rev (trimStart (rev s)).

Definition trim (s : jsstring) : jsstring := trimEnd (trimStart s).

(** [s.toLowerCase()] on the letters A to Z.  The program only searches
    the lowered text for ['sonnet'] and ['claude-3']; no character
    outside A-Z lowers to a letter of these two needles, so for them
    this agrees with the full Unicode mapping. *)
Definition toLowerCase (s : jsstring) : jsstring :=
  map (fun c => if N.leb 65 c && N.leb c 90 then (c + 32)%N else c) s.

(** A string in a condition: the empty string is falsy. *)
Definition truthy (s : jsstring) : bool :=
  match s with [] => false | _ :: _ => true end.

(** [a || b] on strings. *)
Definition orElse (a b : jsstring) : jsstring := if truthy a then a else b.

(** A number that is an integer, or NaN (what [parseInt] returns). *)
Inductive jsnum : Type :=
| Num (z : Z)
| NaN.

(** An integer inside a template literal. *)
Definition Z_toString (z : Z) : jsstring :=
  lit (NilEmpty.string_of_int (Z.to_int z)).

Definition nat_toString (n : nat) : jsstring := Z_toString (Z.of_nat n).

(** An exit code inside a template literal: [null] prints as "null". *)
Definition code_toString (code : option Z) : jsstring :=
  match code with
  | Some z => Z_toString z
  | None => lit "null"
  end.

(** [arr.slice(b, e)] with the relative-index rules of the language:
    NaN counts as 0, a negative index counts from the end, and both
    ends are clamped to the length. *)
Definition relIndex (len : Z) (i : jsnum) : Z :=
  match i with
  | NaN => 0
  | Num z => if (z <? 0)%Z then Z.max (len + z) 0 else Z.min z len
  end.

Definition slice {A : Type} (b e : jsnum) (l : list A) : list A :=
  let len := Z.of_nat (length l) in
  let k := relIndex len b in
  let final := relIndex len e in
  firstn (Z.to_nat (final - k)) (skipn (Z.to_nat k) l).

(** [a + b] and [a < b] on numbers. *)
Definition add (a b : jsnum) : jsnum :=
  match a, b with
  | Num x, Num y => Num (x + y)
  | _, _ => NaN
  end.

Definition lt (a b : jsnum) : bool :=
  match a, b with
  | Num x, Num y => (x <? y)%Z
  | _, _ => false
  end.

(** The delay a Node.js timer really uses: a delay below 1, above
    2^31-1 or NaN is replaced by 1. *)
Definition timerDelay (d : jsnum) : Z :=
  match d with
  | Num z => if ((1 <=? z) && (z <=? 2147483647))%Z then z else 1%Z
  | NaN => 1%Z
  end.

End JS.
Import JS.

(* ================================================================== *)
(** * Data model *)

(** [account = { name, url, key }]. *)
Record Account : Type := mkAccount {
  name : jsstring;
  url : jsstring;
  key : jsstring
}.

(** The [status] strings 'testing', 'success', 'failed', 'skipped'. *)
Inductive Status : Type := testing | success | failed | skipped.

(** The [speed] labels: '极快' (below 3000 ms), '快速', '较慢', '很慢'. *)
Inductive Speed : Type := VeryFast | Fast | Slow | VerySlow.

(** The [errorType] strings of the source, under the names the
    specification gives them:
    '超时' Timeout, '认证失败' AuthFailed, '限流' RateLimited,
    '无权限' Forbidden, '连接错误' NetworkError, '模型不存在'
    ModelUnavailable, 'CLI错误' ProcessError, '未知错误' Unknown,
    'CLI启动失败' LaunchFailed, '跳过测试' PrimarySkipped. *)
Inductive ErrorType : Type :=
| Timeout | AuthFailed | RateLimited | Forbidden | NetworkError
| ModelUnavailable | ProcessError | Unknown | LaunchFailed | PrimarySkipped.

(** The [result] object of a probe.  [None] stands for [null] and for a
    property that was never assigned. *)
Record Result : Type := mkResult {
  model : jsstring;
  status : Status;
  responseTime : Z;
  error : option jsstring;
  response : option jsstring;
  speed : option Speed;
  actualModel : option jsstring;
  errorType : option ErrorType
}.

Definition Status_eqb (a b : Status) : bool :=
  match a, b with
  | testing, testing | success, success
  | failed, failed | skipped, skipped => true
  | _, _ => false
  end.

(** ** The child process, seen from the probe *)

(** What the spawned [claude] process emits: 'data' on stdout and on
    stderr, 'close' with the exit code ([null] when a signal ended it),
    'error' when it could not be launched, and 'error' on its stdin
    stream when a write that was issued fails afterwards (EPIPE: the
    child has closed its stdin). *)
Inductive ChildEvent : Type :=
| Stdout (data : jsstring)
| Stderr (data : jsstring)
| CloseEv (code : option Z)
| ErrorEv (message : jsstring)
| StdinErrorEv (message : jsstring).

(** What the event loop delivers to the callbacks of one probe: the
    child's events and the two timers.  [writeThrows] says whether
    [claude.stdin.write] throws at once when the prompt timer runs it;
    a write that fails later is reported by [StdinErrorEv]. *)
Inductive Event : Type :=
| FromChild (e : ChildEvent)
| TimeoutFired
| PromptTimerFired (writeThrows : bool).

(** How one spawned child behaves: the clock at the spawn, its events
    with the clock reading of each, and how the event loop orders a
    timer against a child event that is due at the same instant. *)
Record Behaviour : Type := mkBehaviour {
  spawnTime : Z;
  childEvents : list (Z * ChildEvent);
  timeoutFirst : bool;
  promptFirst : bool;
  promptWriteThrows : bool
}.

(** [spawn('claude', ['--model', modelName], { env })]: the arguments
    and the two variables the probe adds to the environment. *)
Record SpawnRequest : Type := mkSpawn {
  spawnArgs : list jsstring;
  ANTHROPIC_BASE_URL : jsstring;
  ANTHROPIC_API_KEY : jsstring
}.

(** A timer that is due at [due] enters the queue before the first
    event that is later (or, with [first], not earlier) than it. *)
Fixpoint insertTimer (first : bool) (due : Z) (ev : Event)
    (l : list (Z * Event)) : list (Z * Event) :=
  match l with
  | [] => [(due, ev)]
  | (t, e) :: l' =>
      if (if first then due <=? t else due <? t)%Z
      then (due, ev) :: l
      else (t, e) :: insertTimer first due ev l'
  end.

(** The events of one probe in the order the callbacks see them:
    [setTimeout(_, timeoutMs)] and [setTimeout(_, 1000)] are armed at
    the spawn. *)
Definition eventLoop (timeoutMs : jsnum) (b : Behaviour) : list (Z * Event) :=
  insertTimer (timeoutFirst b) (spawnTime b + timerDelay timeoutMs) TimeoutFired
    (insertTimer (promptFirst b) (spawnTime b + 1000)
       (PromptTimerFired (promptWriteThrows b))
       (map (fun te => (fst te, FromChild (snd te))) (childEvents b))).

(** The local variables of one [testSingleModel] call. *)
Record Proc : Type := mkProc {
  startTime : Z;
  result : Result;
  output : jsstring;
  errorOutput : jsstring;
  hasResponded : bool;
  timerCleared : bool;          (* clearTimeout(timeout) was called *)
  killed : bool;                (* claude.kill() was called *)
  stdinWrites : list jsstring;  (* what claude.stdin.write received *)
  stdinEnded : bool;            (* claude.stdin.end() was called *)
  uncaught : bool;              (* an exception left a callback *)
  resolved : list Result        (* the calls of resolve, oldest first *)
}.

(** The state right after [spawn] and the registration of the callbacks. *)
Definition initProc (modelName : jsstring) (start : Z) : Proc :=
  {| startTime := start;
     result := {| model := modelName; status := testing; responseTime := 0;
                  error := None; response := None; speed := None;
                  actualModel := None; errorType := None |};
     output := []; errorOutput := []; hasResponded := false;
     timerCleared := false; killed := false; stdinWrites := [];
     stdinEnded := false; uncaught := false; resolved := [] |}.

(** The value of the promise: the argument of the first [resolve]. *)
Definition promiseValue (p : Proc) : option Result := hd_error (resolved p).

(** [result.speed] from [result.responseTime]. *)
Definition speedOf (rt : Z) : Speed :=
  if (rt <? 3000)%Z then VeryFast
  else if (rt <? 8000)%Z then Fast
  else if (rt <? 15000)%Z then Slow
  else VerySlow.

(** [code === 0 && output.length > 0 && !output.includes('Error')
     && !output.includes('error')], the same in both programs. *)
Definition closeIsSuccess (code : option Z) (out : jsstring) : bool :=
  match code with Some 0%Z => true | _ => false end
  && (0 <? length out)%nat
  && negb (includes out (lit "Error"))
  && negb (includes out (lit "error")).

(** String literals of the source that are not ASCII. *)
Definition msgTimeout : jsstring :=            (* '响应超时' *)
  [21709; 24212; 36229; 26102]%N.
Definition msgAuth : jsstring :=               (* 'API Key 无效或过期' *)
  [65; 80; 73; 32; 75; 101; 121; 32; 26080; 25928; 25110; 36807; 26399]%N.
Definition msgRate : jsstring :=               (* '请求过于频繁' *)
  [35831; 27714; 36807; 20110; 39057; 32321]%N.
Definition msgForbidden : jsstring :=          (* '无权限访问该模型' *)
  [26080; 26435; 38480; 35775; 38382; 35813; 27169; 22411]%N.
Definition msgNetwork : jsstring :=            (* '网络连接失败' *)
  [32593; 32476; 36830; 25509; 22833; 36133]%N.
Definition msgModel : jsstring :=              (* '指定的模型不存在或不可用' *)
  [25351; 23450; 30340; 27169; 22411; 19981; 23384; 22312; 25110; 19981;
   21487; 29992]%N.
Definition msgExitCode : jsstring :=           (* 'Claude CLI 退出码: ' *)
  [67; 108; 97; 117; 100; 101; 32; 67; 76; 73; 32; 36864; 20986; 30721;
   58; 32]%N.
Definition msgNoResponse : jsstring :=         (* '没有收到有效响应' *)
  [27809; 26377; 25910; 21040; 26377; 25928; 21709; 24212]%N.
Definition msgUnknown : jsstring :=            (* '未知错误' *)
  [26410; 30693; 38169; 35823]%N.
Definition msgLaunch : jsstring :=             (* '无法启动 Claude CLI: ' *)
  [26080; 27861; 21551; 21160; 32; 67; 108; 97; 117; 100; 101; 32; 67; 76;
   73; 58; 32]%N.
Definition promptText : jsstring :=            (* '你是什么模型，有什么优势？\n' *)
  [20320; 26159; 20160; 20040; 27169; 22411; 65292; 26377; 20160; 20040;
   20248; 21183; 65311; 10]%N.
Definition msgSkipped : jsstring :=            (* 'Sonnet 4 测试失败，跳过此测试' *)
  [83; 111; 110; 110; 101; 116; 32; 52; 32; 27979; 35797; 22833; 36133;
   65292; 36339; 36807; 27492; 27979; 35797]%N.

Definition sonnetModel : jsstring := lit "claude-sonnet-4-20250514".
Definition opusModel : jsstring := lit "claude-opus-4-1-20250805".

(** Callbacks both programs share. *)
Definition onStdout (data : jsstring) (p : Proc) : Proc :=
  mkProc (startTime p) (result p) (output p ++ data) (errorOutput p)
    (hasResponded p) (timerCleared p) (killed p) (stdinWrites p)
    (stdinEnded p) (uncaught p) (resolved p).

Definition onStderr (data : jsstring) (p : Proc) : Proc :=
  mkProc (startTime p) (result p) (output p) (errorOutput p ++ data)
    (hasResponded p) (timerCleared p) (killed p) (stdinWrites p)
    (stdinEnded p) (uncaught p) (resolved p).

(** The timeout callback: kill the child and resolve with a failure,
    unless the probe has responded. *)
Definition onTimeout (now : Z) (p : Proc) : Proc :=
  if hasResponded p then p
  else
    let r := {| model := model (result p); status := failed;
                responseTime := now - startTime p;
                error := Some msgTimeout; response := response (result p);
                speed := speed (result p);
                actualModel := actualModel (result p);
                errorType := Some Timeout |} in
    mkProc (startTime p) r (output p) (errorOutput p) true (timerCleared p)
      true (stdinWrites p) (stdinEnded p) (uncaught p) (resolved p ++ [r]).

(** [claude.stdin.write(prompt); claude.stdin.end()]. *)
Definition writePrompt (p : Proc) : Proc :=
  mkProc (startTime p) (result p) (output p) (errorOutput p)
    (hasResponded p) (timerCleared p) (killed p)
    (stdinWrites p ++ [promptText]) true (uncaught p) (resolved p).

(** An exception that no handler catches: it ends the Node process,
    and no callback runs after it. *)
Definition throwUncaught (p : Proc) : Proc :=
  mkProc (startTime p) (result p) (output p) (errorOutput p)
    (hasResponded p) (timerCleared p) (killed p) (stdinWrites p)
    (stdinEnded p) true (resolved p).

(** 'error' on [claude.stdin].  The stream emits it only for a write
    that was issued; neither program registers a listener on
    [claude.stdin], so the emitter throws the error. *)
Definition onStdinError (p : Proc) : Proc :=
  match stdinWrites p with
  | [] => p
  | _ :: _ => throwUncaught p
  end.

(** [hasResponded = true; clearTimeout(timeout)] followed by the result
    [r] being stored and passed to [resolve]. *)
Definition respond (r : Result) (p : Proc) : Proc :=
  mkProc (startTime p) r (output p) (errorOutput p) true true (killed p)
    (stdinWrites p) (stdinEnded p) (uncaught p) (resolved p ++ [r]).

(** [options], as [parseArgs] builds it. *)
Record Options : Type := mkOptions {
  configFile : option jsstring;
  timeout : jsnum;
  parallel : jsnum;
  verbose : bool;
  dingTalkWebhook : jsstring;
  dingTalkSecret : option jsstring;
  dingTalkAtAll : bool;
  dingTalkAlways : bool
}.

(** The [overallStatus] strings. *)
Inductive OverallStatus : Type :=
| overall_testing | both_success | sonnet_only | both_failed.

Definition OverallStatus_eqb (a b : OverallStatus) : bool :=
  match a, b with
  | overall_testing, overall_testing | both_success, both_success
  | sonnet_only, sonnet_only | both_failed, both_failed => true
  | _, _ => false
  end.

(** [overallResult] of [testAccountDirect], as it is returned. *)
Record AccountResult : Type := mkAccountResult {
  r_name : jsstring;
  r_url : jsstring;
  r_key : jsstring;
  fullKey : jsstring;
  sonnet4 : Result;
  opus41 : Result;
  overallStatus : OverallStatus
}.

(** [stats] of [generateReport]. *)
Record Stats : Type := mkStats {
  total : nat;
  stat_both_success : nat;
  stat_sonnet_only : nat;
  stat_both_failed : nat
}.

(* ================================================================== *)
(** * web-server.js *)

Module WebServer.

(** The failure branch of the 'close' callback. *)
Definition failureKind (combinedError : jsstring) : ErrorType * jsstring :=
  if includes combinedError (lit "authentication")
     || includes combinedError (lit "unauthorized")
     || includes combinedError (lit "401")
  then (AuthFailed, msgAuth)
  else if includes combinedError (lit "rate limit")
          || includes combinedError (lit "429")
  then (RateLimited, msgRate)
  else if includes combinedError (lit "permission")
          || includes combinedError (lit "403")
  then (Forbidden, msgForbidden)
  else if includes combinedError (lit "connection")
          || includes combinedError (lit "network")
  then (NetworkError, msgNetwork)
  else (Unknown, orElse (substring 0 100 combinedError) msgUnknown).

(** [claude.on('close', code => ...)]. *)
Definition onClose (now : Z) (code : option Z) (p : Proc) : Proc :=
  if hasResponded p then p
  else
    let rt := (now - startTime p)%Z in
    let r0 := result p in
    if closeIsSuccess code (output p) then
      respond {| model := model r0; status := success; responseTime := rt;
                 error := error r0;
                 response := Some (substring 0 200 (trim (output p)));
                 speed := Some (speedOf rt);
                 actualModel := actualModel r0;
                 errorType := errorType r0 |} p
    else
      let k := failureKind (errorOutput p ++ output p) in
      respond {| model := model r0; status := failed; responseTime := rt;
                 error := Some (snd k); response := response r0;
                 speed := speed r0; actualModel := actualModel r0;
                 errorType := Some (fst k) |} p.

(** The prompt timer writes without looking at [hasResponded], outside
    any [try]. *)
Definition onPromptTimer (writeThrows : bool) (p : Proc) : Proc :=
  if writeThrows then throwUncaught p else writePrompt p.

(** One callback run.  The child has no 'error' listener here, and
    neither has its stdin, so an 'error' event is thrown by the emitter;
    nothing catches an exception, and the server process ends with it. *)
Definition step (te : Z * Event) (p : Proc) : Proc :=
  if uncaught p then p
  else
    match snd te with
    | FromChild (Stdout d) => onStdout d p
    | FromChild (Stderr d) => onStderr d p
    | FromChild (CloseEv code) => onClose (fst te) code p
    | FromChild (ErrorEv _) => throwUncaught p
    | FromChild (StdinErrorEv _) => onStdinError p
    | TimeoutFired => if timerCleared p then p else onTimeout (fst te) p
    | PromptTimerFired th => onPromptTimer th p
    end.

Definition run (p : Proc) (l : list (Z * Event)) : Proc :=
  fold_left (fun q te => step te q) l p.

(** [testSingleModel(account, modelName, timeout = 60000)] against a
    child that behaves as [b]. *)
Definition testSingleModel (modelName : jsstring) (timeoutMs : jsnum)
    (b : Behaviour) : Proc :=
  run (initProc modelName (spawnTime b)) (eventLoop timeoutMs b).

End WebServer.

(* ================================================================== *)
(** * check-claude-cli-accounts.js: the probe *)

Module CheckAccounts.

(** The failure branch of the 'close' callback. *)
Definition failureKind (code : option Z) (combinedError : jsstring)
    : ErrorType * jsstring :=
  if includes combinedError (lit "authentication")
     || includes combinedError (lit "unauthorized")
     || includes combinedError (lit "401")
  then (AuthFailed, msgAuth)
  else if includes combinedError (lit "rate limit")
          || includes combinedError (lit "429")
  then (RateLimited, msgRate)
  else if includes combinedError (lit "permission")
          || includes combinedError (lit "403")
  then (Forbidden, msgForbidden)
  else if includes combinedError (lit "connection")
          || includes combinedError (lit "network")
  then (NetworkError, msgNetwork)
  else if includes combinedError (lit "model")
          || includes combinedError (lit "not found")
  then (ModelUnavailable, msgModel)
  else if match code with Some 0%Z => false | _ => true end
  then (ProcessError, msgExitCode ++ code_toString code)
  else (Unknown, orElse (trim combinedError) msgNoResponse).

(** [claude.on('close', code => ...)]. *)
Definition onClose (now : Z) (code : option Z) (p : Proc) : Proc :=
  if hasResponded p then p
  else
    let rt := (now - startTime p)%Z in
    let r0 := result p in
    if closeIsSuccess code (output p) then
      respond {| model := model r0; status := success; responseTime := rt;
                 error := error r0;
                 response := Some (substring 0 200 (trim (output p)));
                 speed := Some (speedOf rt);
                 actualModel :=
                   if includes (toLowerCase (output p)) (lit "sonnet")
                      || includes (toLowerCase (output p)) (lit "claude-3")
                   then Some (lit "detected-from-response")
                   else actualModel r0;
                 errorType := errorType r0 |} p
    else
      let k := failureKind code (errorOutput p ++ output p) in
      respond {| model := model r0; status := failed; responseTime := rt;
                 error := Some (snd k); response := response r0;
                 speed := speed r0; actualModel := actualModel r0;
                 errorType := Some (fst k) |} p.

(** [claude.on('error', error => ...)]. *)
Definition onError (now : Z) (message : jsstring) (p : Proc) : Proc :=
  if hasResponded p then p
  else
    let r0 := result p in
    respond {| model := model r0; status := failed;
               responseTime := now - startTime p;
               error := Some (msgLaunch ++ message);
               response := response r0; speed := speed r0;
               actualModel := actualModel r0;
               errorType := Some LaunchFailed |} p.

(** The prompt timer: [if (!hasResponded) { try { write; end }
    catch (error) { } }].  The [try] catches what [write] throws at
    once; a write that fails later comes back as 'error' on
    [claude.stdin], outside the [try]. *)
Definition onPromptTimer (writeThrows : bool) (p : Proc) : Proc :=
  if negb (hasResponded p)
  then (if writeThrows then p else writePrompt p)
  else p.

(** One callback run; a cleared timer never runs its callback.  The
    child's stdin has no 'error' listener, so that event is thrown by
    the emitter, and after an uncaught exception the process is gone. *)
Definition step (te : Z * Event) (p : Proc) : Proc :=
  if uncaught p then p
  else
    match snd te with
    | FromChild (Stdout d) => onStdout d p
    | FromChild (Stderr d) => onStderr d p
    | FromChild (CloseEv code) => onClose (fst te) code p
    | FromChild (ErrorEv m) => onError (fst te) m p
    | FromChild (StdinErrorEv _) => onStdinError p
    | TimeoutFired => if timerCleared p then p else onTimeout (fst te) p
    | PromptTimerFired th => onPromptTimer th p
    end.

Definition run (p : Proc) (l : list (Z * Event)) : Proc :=
  fold_left (fun q te => step te q) l p.

(** The body of [testSingleModel] against a child that behaves as [b]. *)
Definition probe (modelName : jsstring) (options : Options)
    (b : Behaviour) : Proc :=
  run (initProc modelName (spawnTime b)) (eventLoop (timeout options) b).

(** ** The account validator *)

(** A computation that spawns children: it reads and extends the list
    of processes spawned so far, and has no value when an awaited
    promise never settles or an uncaught exception ends the process. *)
Definition M (A : Type) : Type :=
  list SpawnRequest -> option (A * list SpawnRequest).

Definition ret {A : Type} (a : A) : M A := fun log => Some (a, log).

Definition bind {A B : Type} (m : M A) (f : A -> M B) : M B :=
  fun log =>
    match m log with
    | Some (a, log') => f a log'
    | None => None
    end.

Notation "x <- m ;; k" := (bind m (fun x => k))
  (at level 61, m at next level, right associativity).

Section Validation.

(** How the child of each spawn behaves: by its request and by the
    number of children this validation spawned before it. *)
Variable world : SpawnRequest -> nat -> Behaviour.

(** What [await] gives for the promise of a probe: its value, unless
    an uncaught exception of the probe's callbacks ends the process;
    then the run has no result at all. *)
Definition awaited (p : Proc) : option Result :=
  if uncaught p then None else promiseValue p.

(** [await testSingleModel(account, modelName, options)]. *)
Definition testSingleModel (account : Account) (modelName : jsstring)
    (options : Options) : M Result :=
  fun log =>
    let req := mkSpawn [lit "--model"; modelName] (url account)
                 (key account) in
    match awaited (probe modelName options (world req (length log)))
    with
    | Some r => Some (r, log ++ [req])
    | None => None
    end.

(** The object the validator stores when it skips Opus. *)
Definition skippedResult : Result :=
  {| model := opusModel; status := skipped; responseTime := 0;
     error := Some msgSkipped; response := None; speed := None;
     actualModel := None; errorType := Some PrimarySkipped |}.

(** [testAccountDirect(account, options)]. *)
Definition testAccountDirect (account : Account) (options : Options)
    : M AccountResult :=
  let overall s o st :=
    {| r_name := name account; r_url := url account;
       r_key := substring 0 10 (key account) ++ lit "...";
       fullKey := key account;
       sonnet4 := s; opus41 := o; overallStatus := st |} in
  s <- testSingleModel account sonnetModel options ;;
  if Status_eqb (status s) success then
    o <- testSingleModel account opusModel options ;;
    if Status_eqb (status o) success
    then ret (overall s o both_success)
    else ret (overall s o sonnet_only)
  else ret (overall s skippedResult both_failed).

End Validation.

(** ** The batch runner *)

(** [Promise.all]: one slot per promise, filled when that promise
    settles; [order] is the order in which the event loop settles
    them.  The combined promise has a value once every slot is
    filled, and it lists the slots by position. *)
Fixpoint fillSlot {A : Type} (i : nat) (v : A) (slots : list (option A))
    {struct slots} : list (option A) :=
  match slots, i with
  | [], _ => []
  | _ :: rest, O => Some v :: rest
  | x :: rest, S i' => x :: fillSlot i' v rest
  end.

Definition settle {A : Type} (promises : list (option A))
    (slots : list (option A)) (i : nat) : list (option A) :=
  match nth_error promises i with
  | Some (Some v) => fillSlot i v slots
  | _ => slots
  end.

Fixpoint allFilled {A : Type} (slots : list (option A)) : option (list A) :=
  match slots with
  | [] => Some []
  | None :: _ => None
  | Some v :: rest =>
      match allFilled rest with
      | Some vs => Some (v :: vs)
      | None => None
      end
  end.

Definition Promise_all {A : Type} (promises : list (option A))
    (order : list nat) : option (list A) :=
  allFilled (fold_left (settle promises) order
               (repeat None (length promises))).

(** What an observer of the batch sees: the validation of the account
    at a position of the input list starts, or finishes. *)
Inductive BatchEvent : Type :=
| Started (position : nat)
| Finished (position : nat).

(** [for (let i = 0; i < accounts.length; i += options.parallel)
      chunks.push(accounts.slice(i, i + options.parallel))],
    with [fuel] bounding the number of iterations. *)
Fixpoint chunkLoop (fuel : nat) (accounts : list Account) (par : jsnum)
    (i : jsnum) (chunks : list (list Account))
    : option (list (list Account)) :=
  match fuel with
  | O => None
  | S fuel' =>
      if lt i (Num (Z.of_nat (length accounts)))
      then chunkLoop fuel' accounts par (add i par)
             (chunks ++ [slice i (add i par) accounts])
      else Some chunks
  end.

Section Batch.

(** The world of the validation of the account at each position. *)
Variable worlds : nat -> SpawnRequest -> nat -> Behaviour.

(** The order in which the validations of each chunk settle. *)
Variable completion : nat -> list nat.

(** The promise [testAccountDirect(account, options)] returns for
    the account at position [g]. *)
Definition validation (options : Options) (g : nat) (account : Account)
    : option AccountResult :=
  option_map fst (testAccountDirect (worlds g) account options []).

(** [for (const chunk of chunks) { chunkResults = await Promise.all(
      chunk.map(account => testAccountDirect(account, options)));
      results.push(...chunkResults) }]. *)
Fixpoint runChunks (options : Options) (chunks : list (list Account))
    (ci : nat) (results : list AccountResult) (trace : list BatchEvent)
    : option (list AccountResult * list BatchEvent) :=
  match chunks with
  | [] => Some (results, trace)
  | chunk :: rest =>
      let base := length results in
      let positions := seq base (length chunk) in
      let promises :=
        map (fun ga => validation options (fst ga) (snd ga))
            (combine positions chunk) in
      match Promise_all promises (completion ci) with
      | Some chunkResults =>
          runChunks options rest (S ci) (results ++ chunkResults)
            (trace ++ map Started positions
                   ++ map (fun j => Finished (base + j)) (completion ci))
      | None => None
      end
  end.

(** [batchTest(accounts, options)]: the results and what was
    observed; no value if the chunking loop does not end within
    [fuel] iterations, a chunk never settles, or an uncaught exception
    ends the process. *)
Definition batchTest (fuel : nat) (accounts : list Account)
    (options : Options)
    : option (list AccountResult * list BatchEvent) :=
  match chunkLoop fuel accounts (parallel options) (Num 0) [] with
  | Some chunks => runChunks options chunks 0 [] []
  | None => None
  end.

End Batch.

(** ** Text of the report and of the notification *)

(** The pieces of the template literals of [buildNotificationMessage]
    and [saveResults], in source order, cut at each interpolation:
    [okText0..3] is the all-passed text, [alertText0..5] the head of
    the alert, and the rest are the pieces of the two account lists
    and of the CSV file. *)
Definition okText0 : jsstring :=
  [35; 35; 32; 9989; 32; 67; 108; 97; 117; 100; 101; 36134; 21495;
   27979; 35797; 20840; 37096; 36890; 36807; 10; 10; 55357; 56517; 32;
   42; 42; 27979; 35797; 26102; 38388; 42; 42; 58; 32]%N.

Definition okText1 : jsstring :=
  [32; 32; 10; 55357; 56522; 32; 42; 42; 27979; 35797; 32467; 26524;
   42; 42; 58; 32; 10; 45; 32; 24635; 36134; 21495; 25968; 58; 32]%N.

Definition okText2 : jsstring :=
  [20010; 10; 45; 32; 21452; 27169; 22411; 36890; 36807; 58; 32]%N.

Definition okText3 : jsstring :=
  [20010; 32; 55356; 57225; 10; 10; 55356; 57263; 32; 25152; 26377;
   36134; 21495; 36816; 34892; 27491; 24120; 65281]%N.

Definition alertText0 : jsstring :=
  [35; 35; 32; 55357; 57000; 32; 67; 108; 97; 117; 100; 101; 36134;
   21495; 27979; 35797; 21578; 35686; 25253; 21578; 10; 10; 55357;
   56517; 32; 42; 42; 27979; 35797; 26102; 38388; 42; 42; 58; 32]%N.

Definition alertText1 : jsstring :=
  [32; 32; 10; 55357; 56522; 32; 42; 42; 27979; 35797; 27010; 20917;
   42; 42; 58; 32; 10; 45; 32; 24635; 36134; 21495; 25968; 58; 32]%N.

Definition alertText2 : jsstring :=
  [20010; 10; 45; 32; 21452; 27169; 22411; 36890; 36807; 58; 32]%N.

Definition alertText3 : jsstring :=
  [20010; 32; 9989; 10; 45; 32; 20165; 83; 111; 110; 110; 101; 116;
   52; 36890; 36807; 58; 32]%N.

Definition alertText4 : jsstring :=
  [20010; 32; 9888; 65039; 32; 32; 10; 45; 32; 23436; 20840; 22833;
   36133; 58; 32]%N.

Definition alertText5 : jsstring :=
  [20010; 32; 10060; 10; 10; 45; 45; 45]%N.

Definition okTitle : jsstring :=
  [67; 108; 97; 117; 100; 101; 36134; 21495; 27979; 35797; 20840;
   37096; 36890; 36807]%N.

Definition alertTitle : jsstring :=
  [67; 108; 97; 117; 100; 101; 36134; 21495; 27979; 35797; 21578;
   35686]%N.

Definition failedHead : jsstring :=
  [10; 10060; 32; 42; 42; 23436; 20840; 22833; 36133; 36134; 21495;
   42; 42; 32; 40]%N.

Definition countTail : jsstring :=
  [20010; 41; 58]%N.

Definition bullet : jsstring :=
  [10; 8226; 32; 42; 42]%N.

Definition afterName : jsstring :=
  [42; 42; 58; 32]%N.

Definition arrow : jsstring :=
  [32; 8594; 32]%N.

Definition moreHead : jsstring :=
  [10; 8226; 32; 36824; 26377; 32]%N.

Definition moreFailedTail : jsstring :=
  [32; 20010; 36134; 21495; 22833; 36133; 46; 46; 46]%N.

Definition partialHead : jsstring :=
  [10; 10; 9888; 65039; 32; 42; 42; 37096; 20998; 22833; 36133; 36134;
   21495; 42; 42; 32; 40]%N.

Definition afterNameOpus : jsstring :=
  [42; 42; 58; 32; 79; 112; 117; 115; 52; 46; 49; 32]%N.

Definition morePartialTail : jsstring :=
  [32; 20010; 36134; 21495; 37096; 20998; 22833; 36133; 46; 46; 46]%N.

Definition footer : jsstring :=
  [10; 10; 9200; 32; 35831; 21450; 26102; 22788; 29702; 22833; 36133;
   36134; 21495; 65281]%N.

Definition csvPass : jsstring :=
  [36890; 36807]%N.

Definition csvFail : jsstring :=
  [22833; 36133]%N.

Definition csvSkip : jsstring :=
  [36339; 36807]%N.

Definition csvStamp : jsstring :=
  [35; 32; 29983; 25104; 26102; 38388; 58; 32]%N.

Definition csvColumns : jsstring :=
  [10; 29992; 25143; 21517; 31216; 44; 117; 114; 108; 44; 107; 101;
   121; 44; 115; 111; 110; 110; 101; 116; 52; 36890; 36807; 24615; 44;
   111; 112; 117; 115; 52; 36890; 36807; 24615; 10]%N.

Definition comma : jsstring := lit ",".
Definition newline : jsstring := [10%N].
Definition dquote : jsstring := [34%N].

(** [arr.join(sep)]. *)
Fixpoint join (sep : jsstring) (l : list jsstring) : jsstring :=
  match l with
  | [] => []
  | x :: rest =>
      match rest with
      | [] => x
      | _ :: _ => x ++ sep ++ join sep rest
      end
  end.

(** ** generateReport: the statistics *)

Definition withStatus (st : OverallStatus) (results : list AccountResult)
    : list AccountResult :=
  filter (fun r => OverallStatus_eqb (overallStatus r) st) results.

Definition generateReport (results : list AccountResult) : Stats :=
  {| total := length results;
     stat_both_success := length (withStatus both_success results);
     stat_sonnet_only := length (withStatus sonnet_only results);
     stat_both_failed := length (withStatus both_failed results) |}.

(** ** saveResults: the CSV file *)

(** A field with a comma is put between double quotes. *)
Definition csvField (s : jsstring) : jsstring :=
  if includes s comma then dquote ++ s ++ dquote else s.

(** One element of [csvRows]. *)
Definition csvRow (r : AccountResult) : jsstring :=
  let sonnet4Status :=
    if Status_eqb (status (sonnet4 r)) success then csvPass else csvFail in
  let opus4Status :=
    if Status_eqb (status (opus41 r)) success then csvPass
    else if Status_eqb (status (opus41 r)) skipped then csvSkip
    else csvFail in
  csvField (r_name r) ++ comma ++ csvField (r_url r) ++ comma
    ++ csvField (fullKey r) ++ comma ++ sonnet4Status ++ comma
    ++ opus4Status.

(** [saveResults(results, stats)]: the content it writes to
    [claude-test-results-latest.csv]; [timestamp] is the local time. *)
Definition saveResults (timestamp : jsstring)
    (results : list AccountResult) : jsstring :=
  (csvStamp ++ timestamp ++ csvColumns)
    ++ join newline (map csvRow results).

(** ** buildNotificationMessage *)

(** The message object; [msgtype] is always "markdown". *)
Record Message : Type := mkMessage {
  title : jsstring;
  text : jsstring
}.

(** [e ? e.substring(0, 30) : '未知错误']. *)
Definition errorMsg (e : option jsstring) : jsstring :=
  match e with
  | Some m => if truthy m then substring 0 30 m else msgUnknown
  | None => msgUnknown
  end.

(** The bodies of the two [forEach] callbacks: each appends one line
    to [messageText]. *)
Definition failedLine (messageText : jsstring) (acc : AccountResult)
    : jsstring :=
  messageText ++ bullet ++ r_name acc ++ afterName ++ r_url acc ++ arrow
    ++ errorMsg (error (sonnet4 acc)).

Definition partialLine (messageText : jsstring) (acc : AccountResult)
    : jsstring :=
  messageText ++ bullet ++ r_name acc ++ afterNameOpus
    ++ errorMsg (error (opus41 acc)).

(** [buildNotificationMessage(results, stats)]. *)
Definition buildNotificationMessage (timestamp : jsstring)
    (results : list AccountResult) (stats : Stats) : Message :=
  let bothFailedAccounts := withStatus both_failed results in
  let sonnetOnlyAccounts := withStatus sonnet_only results in
  if (length bothFailedAccounts =? 0)%nat
     && (length sonnetOnlyAccounts =? 0)%nat
  then
    {| title := okTitle;
       text := okText0 ++ timestamp ++ okText1 ++ nat_toString (total stats)
                 ++ okText2 ++ nat_toString (stat_both_success stats)
                 ++ okText3 |}
  else
    let messageText :=
      alertText0 ++ timestamp ++ alertText1 ++ nat_toString (total stats)
        ++ alertText2 ++ nat_toString (stat_both_success stats)
        ++ alertText3 ++ nat_toString (stat_sonnet_only stats)
        ++ alertText4 ++ nat_toString (stat_both_failed stats)
        ++ alertText5 in
    let messageText :=
      if (0 <? length bothFailedAccounts)%nat then
        let m := messageText ++ failedHead
                   ++ nat_toString (length bothFailedAccounts)
                   ++ countTail in
        let m := fold_left failedLine
                   (slice (Num 0) (Num 10) bothFailedAccounts) m in
        if (10 <? length bothFailedAccounts)%nat
        then m ++ moreHead
               ++ nat_toString (length bothFailedAccounts - 10)
               ++ moreFailedTail
        else m
      else messageText in
    let messageText :=
      if (0 <? length sonnetOnlyAccounts)%nat then
        let m := messageText ++ partialHead
                   ++ nat_toString (length sonnetOnlyAccounts)
                   ++ countTail in
        let m := fold_left partialLine
                   (slice (Num 0) (Num 10) sonnetOnlyAccounts) m in
        if (10 <? length sonnetOnlyAccounts)%nat
        then m ++ moreHead
               ++ nat_toString (length sonnetOnlyAccounts - 10)
               ++ morePartialTail
        else m
      else messageText in
    {| title := alertTitle; text := messageText ++ footer |}.

(** ** parseArgs *)

(** The webhook address written into the source. *)
Definition defaultWebhook : jsstring :=
  lit "https://oapi.dingtalk.com/robot/send?access_token=6f26248ec006cdd90c2886d956b7570cb9b06a24ef5065497658472ca43942b5".

(** The object [options] starts as. *)
Definition defaultOptions : Options :=
  {| configFile := None; timeout := Num 45000; parallel := Num 1;
     verbose := false; dingTalkWebhook := defaultWebhook;
     dingTalkSecret := None; dingTalkAtAll := false;
     dingTalkAlways := false |}.

Definition setConfigFile (v : jsstring) (o : Options) : Options :=
  mkOptions (Some v) (timeout o) (parallel o) (verbose o)
    (dingTalkWebhook o) (dingTalkSecret o) (dingTalkAtAll o)
    (dingTalkAlways o).
Definition setTimeout (v : jsnum) (o : Options) : Options :=
  mkOptions (configFile o) v (parallel o) (verbose o)
    (dingTalkWebhook o) (dingTalkSecret o) (dingTalkAtAll o)
    (dingTalkAlways o).
Definition setParallel (v : jsnum) (o : Options) : Options :=
  mkOptions (configFile o) (timeout o) v (verbose o)
    (dingTalkWebhook o) (dingTalkSecret o) (dingTalkAtAll o)
    (dingTalkAlways o).
Definition setVerbose (o : Options) : Options :=
  mkOptions (configFile o) (timeout o) (parallel o) true
    (dingTalkWebhook o) (dingTalkSecret o) (dingTalkAtAll o)
    (dingTalkAlways o).
Definition setWebhook (v : jsstring) (o : Options) : Options :=
  mkOptions (configFile o) (timeout o) (parallel o) (verbose o)
    v (dingTalkSecret o) (dingTalkAtAll o) (dingTalkAlways o).
Definition setSecret (v : jsstring) (o : Options) : Options :=
  mkOptions (configFile o) (timeout o) (parallel o) (verbose o)
    (dingTalkWebhook o) (Some v) (dingTalkAtAll o) (dingTalkAlways o).
Definition setAtAll (o : Options) : Options :=
  mkOptions (configFile o) (timeout o) (parallel o) (verbose o)
    (dingTalkWebhook o) (dingTalkSecret o) true (dingTalkAlways o).
Definition setAlways (o : Options) : Options :=
  mkOptions (configFile o) (timeout o) (parallel o) (verbose o)
    (dingTalkWebhook o) (dingTalkSecret o) (dingTalkAtAll o) true.

(** A string-or-null in a condition. *)
Definition truthyOpt (v : option jsstring) : bool :=
  match v with
  | Some x => truthy x
  | None => false
  end.

Section ParseArgs.

(** The built-in [parseInt]. *)
Variable parseInt : jsstring -> jsnum.

(** [process.env]. *)
Variable env : jsstring -> option jsstring.

(** The flags that stand alone, and the positional argument: the
    arms of the chain that do not look at [args[i + 1]]. *)
Definition loneArg (a : jsstring) (o : Options) : Options :=
  if streq a (lit "--verbose") then setVerbose o
  else if streq a (lit "--dingtalk-at-all") then setAtAll o
  else if streq a (lit "--dingtalk-always") then setAlways o
  else if negb (startsWith a (lit "--")) then setConfigFile a o
  else o.

(** The [for] loop over [args]; an option that takes a value
    consumes the next argument ([i++]) when that one is truthy. *)
Fixpoint argLoop (args : list jsstring) (o : Options) : Options :=
  match args with
  | [] => o
  | a :: rest =>
      match rest with
      | [] => loneArg a o   (* args[i + 1] is undefined *)
      | v :: rest' =>
          if streq a (lit "--timeout") && truthy v
          then argLoop rest' (setTimeout (parseInt v) o)
          else if streq a (lit "--parallel") && truthy v
          then argLoop rest' (setParallel (parseInt v) o)
          else if streq a (lit "--verbose")
          then argLoop rest (setVerbose o)
          else if streq a (lit "--dingtalk-webhook") && truthy v
          then argLoop rest' (setWebhook v o)
          else if streq a (lit "--dingtalk-secret") && truthy v
          then argLoop rest' (setSecret v o)
          else argLoop rest (loneArg a o)
      end
  end.

(** [parseArgs()] on the arguments [process.argv.slice(2)]; [None]
    is [process.exit(1)]. *)
Definition parseArgs (args : list jsstring) : option Options :=
  let options := argLoop args defaultOptions in
  if negb (truthyOpt (configFile options)) then None
  else
    let options :=
      if negb (truthy (dingTalkWebhook options))
         && truthyOpt (env (lit "DINGTALK_WEBHOOK"))
      then match env (lit "DINGTALK_WEBHOOK") with
           | Some w => setWebhook w options
           | None => options
           end
      else options in
    let options :=
      if negb (truthyOpt (dingTalkSecret options))
         && truthyOpt (env (lit "DINGTALK_SECRET"))
      then match env (lit "DINGTALK_SECRET") with
           | Some w => setSecret w options
           | None => options
           end
      else options in
    Some options.

End ParseArgs.

End CheckAccounts.

(* ================================================================== *)
(** * check-claude-cli-accounts.js: notification, accounts file, main *)

Module Notification.

Import CheckAccounts.

(** [shouldAlertForSonnetOnly(results, stats)]; the function does not
    look at [results]. *)
Definition shouldAlertForSonnetOnly (stats : Stats) : bool :=
  if (stat_sonnet_only stats =? 0)%nat then false
  else if (0 <? stat_both_failed stats)%nat then true
  else true.

(** The call [sendDingTalkMessage(webhook, secret, message)] the
    notification ends in; [atAll] says whether [message.at] was set to
    [{ isAtAll: true }]. *)
Record Delivery : Type := mkDelivery {
  toWebhook : jsstring;
  withSecret : option jsstring;
  message : Message;
  atAll : bool
}.

(** [sendDingTalkNotification(results, stats, options)]: the message it
    hands to [sendDingTalkMessage], or [None] when it returns without
    sending. *)
Definition sendDingTalkNotification (timestamp : jsstring)
    (results : list AccountResult) (stats : Stats) (options : Options)
    : option Delivery :=
  if negb (truthy (dingTalkWebhook options)) then None
  else
    let hasFailures :=
      (0 <? stat_both_failed stats)%nat || shouldAlertForSonnetOnly stats in
    let shouldSend := dingTalkAlways options || hasFailures in
    if negb shouldSend then None
    else
      Some {| toWebhook := dingTalkWebhook options;
              withSecret := dingTalkSecret options;
              message := buildNotificationMessage timestamp results stats;
              atAll := dingTalkAtAll options
                       && (0 <? stat_both_failed stats)%nat |}.

End Notification.

Module AccountsFile.

(** [s.split(sep)] for a separator of one code unit, the only kind the
    program uses ('\n' and ','). *)
Fixpoint split (sep : N) (s : jsstring) : list jsstring :=
  match s with
  | [] => [[]]
  | c :: s' =>
      if N.eqb c sep then [] :: split sep s'
      else match split sep s' with
           | p :: ps => (c :: p) :: ps
           | [] => [[c]]
           end
  end.

(** One turn of the loop of [parseCSV]: the accounts the line adds. *)
Definition parseLine (rawLine : jsstring) : list Account :=
  let line := trim rawLine in
  if negb (truthy line) then []
  else
    let parts := split 44 line in
    if (3 <=? length parts)%nat
    then [ {| name := trim (nth 0 parts []);
              url := trim (nth 1 parts []);
              key := trim (nth 2 parts []) |} ]
    else [].

(** [parseCSV(content)]: the loop starts at [lines[1]]. *)
Definition parseCSV (content : jsstring) : list Account :=
  let lines := split 10 (trim content) in
  flat_map parseLine (tl lines).

End AccountsFile.

Module Main.

Import CheckAccounts Notification AccountsFile.

(** [!account.name || !account.url || !account.key] is false. *)
Definition accountOk (a : Account) : bool :=
  truthy (name a) && truthy (url a) && truthy (key a).

(** [stats.both_failed > 0 ? 1 : 0]. *)
Definition exitCode (stats : Stats) : Z :=
  if (0 <? stat_both_failed stats)%nat then 1%Z else 0%Z.

(** What one run of [main] did before [process.exit]: the status, the
    batch it ran (results and what was observed), the CSV it saved and
    the notification it sent. *)
Record Outcome : Type := mkOutcome {
  exitStatus : Z;
  batch : option (list AccountResult * list BatchEvent);
  report : option jsstring;
  notification : option Delivery
}.

(** [process.exit(1)] before anything was probed. *)
Definition fatal : Outcome :=
  {| exitStatus := 1; batch := None; report := None; notification := None |}.

Section Run.

(** The built-ins and the surroundings of a run: [parseInt],
    [process.env], the file system ([None]: the file does not exist),
    [path.extname], and [JSON.parse] ([None]: it throws; [Some None]:
    the value is not an array; otherwise an array of records whose
    three fields are strings, a missing field being the empty string). *)
Variable parseInt : jsstring -> jsnum.
Variable env : jsstring -> option jsstring.
Variable readFile : jsstring -> option jsstring.
Variable extname : jsstring -> jsstring.
Variable JSON_parse : jsstring -> option (option (list Account)).

(** The children, and the order in which validations settle. *)
Variable worlds : nat -> SpawnRequest -> nat -> Behaviour.
Variable completion : nat -> list nat.

(** The local time when the report is saved, and when the message is
    built. *)
Variable savedAt : jsstring.
Variable notifiedAt : jsstring.

(** The accounts [main] reads from the configuration file; [None] is
    [process.exit(1)]. *)
Definition loadAccounts (path : jsstring) : option (list Account) :=
  match readFile path with
  | None => None
  | Some configContent =>
      let fileExt := toLowerCase (extname path) in
      if streq fileExt (lit ".csv") then
        let accounts := parseCSV configContent in
        if (length accounts =? 0)%nat then None else Some accounts
      else
        match JSON_parse configContent with
        | Some (Some accounts) => Some accounts
        | _ => None
        end
  end.

(** [main()] on the arguments [args]; [fuel] bounds the chunking loop,
    and there is no outcome when the batch never returns or an uncaught
    exception ends the process before [main] gets to [process.exit]. *)
Definition main (fuel : nat) (args : list jsstring) : option Outcome :=
  match parseArgs parseInt env args with
  | None => Some fatal
  | Some options =>
      match configFile options with
      | None => Some fatal
      | Some path =>
          match loadAccounts path with
          | None => Some fatal
          | Some accounts =>
              if (length accounts =? 0)%nat then Some fatal
              else if negb (forallb accountOk accounts) then Some fatal
              else
                match batchTest worlds completion fuel accounts options with
                | None => None
                | Some (results, observed) =>
                    let stats := generateReport results in
                    Some {| exitStatus := exitCode stats;
                            batch := Some (results, observed);
                            report := Some (saveResults savedAt results);
                            notification :=
                              sendDingTalkNotification notifiedAt results
                                stats options |}
                end
          end
      end
  end.

End Run.

End Main.

(* ================================================================== *)
(** * Definitions used by the statements *)

Import CheckAccounts.

(** Before the probe has responded: nothing was resolved and the
    timeout is still armed. *)
Definition pending (p : Proc) : Prop :=
  hasResponded p = false /\ resolved p = [] /\ timerCleared p = false.

(** After it has responded: exactly one call of [resolve], with a
    result that is a success or a failure. *)
Definition settled (p : Proc) : Prop :=
  hasResponded p = true /\
  exists r, resolved p = [r] /\ result p = r /\
            (status r = success \/ status r = failed).

(** The request a probe of [modelName] for [account] spawns. *)
Definition requestFor (account : Account) (modelName : jsstring)
    : SpawnRequest :=
  mkSpawn [lit "--model"; modelName] (url account) (key account).

(** The table of section 4.2 of the specification: the overall status
    as a function of the two probe statuses. *)
Definition overallOf (primary secondary : Status) : OverallStatus :=
  match primary, secondary with
  | success, success => both_success
  | success, failed => sonnet_only
  | failed, _ => both_failed
  | _, _ => overall_testing
  end.

(** An event that leaves the probe pending: output of the child, or the
    prompt timer.  With [allowThrow = false] a prompt write that throws
    is excluded (the web server does not catch it). *)
Definition isData (allowThrow : bool) (te : Z * Event) : bool :=
  match snd te with
  | FromChild (Stdout _) | FromChild (Stderr _) => true
  | PromptTimerFired th => allowThrow || negb th
  | _ => false
  end.

(** What the child wrote to stdout, and to stderr, during a run of
    events. *)
Fixpoint stdoutOf (l : list (Z * Event)) : jsstring :=
  match l with
  | [] => []
  | (_, FromChild (Stdout d)) :: l' => d ++ stdoutOf l'
  | _ :: l' => stdoutOf l'
  end.

(** The same for stderr. *)
Fixpoint stderrOf (l : list (Z * Event)) : jsstring :=
  match l with
  | [] => []
  | (_, FromChild (Stderr d)) :: l' => d ++ stderrOf l'
  | _ :: l' => stderrOf l'
  end.

(** The state data events lead to. *)
Definition sameButOutput (p q : Proc) (out err : jsstring) : Prop :=
  hasResponded q = hasResponded p /\ resolved q = resolved p /\
  timerCleared q = timerCleared p /\ startTime q = startTime p /\
  result q = result p /\ uncaught q = uncaught p /\
  output q = output p ++ out /\ errorOutput q = errorOutput p ++ err.

(** What the specification means by "case-insensitively contains". *)
Definition includesIgnoreCase (s needle : jsstring) : bool :=
  includes (toLowerCase s) (toLowerCase needle).

(** A child that prints an upper-case error report and exits with 0. *)
Definition shoutingChild : Behaviour :=
  mkBehaviour 0 [(500%Z, Stdout (lit "ERROR: quota exceeded"));
                 (600%Z, CloseEv (Some 0%Z))] false false false.

(** A child that answers on stdout, warns on stderr and exits with 0. *)
Definition warningChild : Behaviour :=
  mkBehaviour 0 [(400%Z, Stderr (lit "error: config file not found"));
                 (500%Z, Stdout (lit "I am Sonnet"));
                 (600%Z, CloseEv (Some 0%Z))] false false false.

(** The priority list of section 4.1 of the specification: the needles
    of each rule and the kind it gives. *)
Definition priorityTable : list (list jsstring * ErrorType) :=
  [ ([lit "authentication"; lit "unauthorized"; lit "401"], AuthFailed);
    ([lit "rate limit"; lit "429"], RateLimited);
    ([lit "permission"; lit "403"], Forbidden);
    ([lit "connection"; lit "network"], NetworkError);
    ([lit "model"; lit "not found"], ModelUnavailable) ].

(** First match wins. *)
Fixpoint firstMatch (table : list (list jsstring * ErrorType))
    (scanned : jsstring) : option ErrorType :=
  match table with
  | [] => None
  | (needles, kind) :: rest =>
      if existsb (includes scanned) needles then Some kind
      else firstMatch rest scanned
  end.

(** The kind the specification's rule gives: the table, then a
    non-zero exit code, then Unknown. *)
Definition kindByPriority (code : option Z) (scanned : jsstring) : ErrorType :=
  match firstMatch priorityTable scanned with
  | Some kind => kind
  | None =>
      match code with
      | Some 0%Z => Unknown
      | _ => ProcessError
      end
  end.

(** The shorter rule of the web server: the first four rows of the
    table, then Unknown. *)
Definition kindByPriorityWeb (scanned : jsstring) : ErrorType :=
  match firstMatch (firstn 4 priorityTable) scanned with
  | Some kind => kind
  | None => Unknown
  end.

(** Case analysis on every substring test of the goal. *)
Ltac split_includes :=
  repeat match goal with
         | |- context [includes ?t ?n] =>
             let b := fresh "b" in
             generalize (includes t n); intro b; destruct b; cbn
         end.

(** A child that reports a missing model on stderr and exits with 1. *)
Definition missingModelChild : Behaviour :=
  mkBehaviour 0 [(300%Z, Stderr (lit "model not found"));
                 (400%Z, CloseEv (Some 1%Z))] false false false.

(** A child that exits with 1 and prints nothing. *)
Definition silentFailingChild : Behaviour :=
  mkBehaviour 0 [(400%Z, CloseEv (Some 1%Z))] false false false.

(** The child is gone: it closed, or it could not be launched. *)
Definition isExit (ev : ChildEvent) : bool :=
  match ev with
  | CloseEv _ | ErrorEv _ => true
  | _ => false
  end.

(** Any event but the prompt timer. *)
Definition notPrompt (te : Z * Event) : bool :=
  match snd te with
  | PromptTimerFired _ => false
  | _ => true
  end.

(** Ordered chunks of size [P]: every chunk but the last has exactly
    [P] elements, and the last has between 1 and [P]. *)
Fixpoint fullButLast {A : Type} (P : nat) (chunks : list (list A)) : Prop :=
  match chunks with
  | [] => True
  | c :: rest =>
      match rest with
      | [] => (1 <= length c <= P)%nat
      | _ :: _ => length c = P /\ fullButLast P rest
      end
  end.

(** The slots hold the values of the promises in [D], by position. *)
Definition slotsHold {A : Type} (vals : list A) (D : nat -> bool)
    (slots : list (option A)) : Prop :=
  forall j, nth_error slots j
            = option_map (fun v => if D j then Some v else None)
                         (nth_error vals j).

(** One account. *)
Definition demoAccount : Account :=
  mkAccount (lit "acct-1") (lit "https://relay.example/a")
    (lit "cr_0123456789abcdef").

(** Three accounts, a bound of 2, and a first chunk whose second
    validation completes before its first. *)
Definition threeAccounts : list Account :=
  [ mkAccount (lit "acct-1") (lit "https://relay.example/a") (lit "cr_0123456789abcdef");
    mkAccount (lit "acct-2") (lit "https://relay.example/b") (lit "cr_fedcba9876543210");
    mkAccount (lit "acct-3") (lit "https://relay.example/c") (lit "cr_00112233445566") ].

(** The default options with [--parallel 2]. *)
Definition twoAtATime : Options := setParallel (Num 2) defaultOptions.

(** Every child answers and exits with 0. *)
Definition sameWorld : nat -> SpawnRequest -> nat -> Behaviour :=
  fun _ _ _ => warningChild.

(** In the first chunk the second validation settles first. *)
Definition secondFirst : nat -> list nat :=
  fun ci => match ci with O => [1; 0]%nat | S _ => [0]%nat end.

(** An environment that sets both DingTalk variables. *)
Definition dingTalkEnv (k : jsstring) : option jsstring :=
  if streq k (lit "DINGTALK_WEBHOOK")
  then Some (lit "https://oapi.dingtalk.com/robot/send?access_token=fromenv")
  else if streq k (lit "DINGTALK_SECRET") then Some (lit "SECfromenv")
  else None.

(** A fully failed result with a given name. *)
Definition timedOut (n : jsstring) : AccountResult :=
  {| r_name := n; r_url := lit "https://relay.example";
     r_key := lit "cr_0123456..."; fullKey := lit "cr_0123456789abcdef";
     sonnet4 := {| model := sonnetModel; status := failed;
                   responseTime := 45000; error := Some msgTimeout;
                   response := None; speed := None; actualModel := None;
                   errorType := Some Timeout |};
     opus41 := skippedResult; overallStatus := both_failed |}.

Section BatchObservations.

Variable worlds : nat -> SpawnRequest -> nat -> Behaviour.
Variable completion : nat -> list nat.
Variable options : Options.

(** The promises of the accounts of [l], the first of which is at
    position [base] of the input. *)
Fixpoint validations (base : nat) (l : list Account)
    : list (option AccountResult) :=
  match l with
  | [] => []
  | a :: l' => validation worlds options base a :: validations (S base) l'
  end.

(** What is observed while the chunks run: each chunk starts all its
    validations, which then finish in the order of [completion]. *)
Fixpoint traceOf (chunks : list (list Account)) (ci base : nat)
    : list BatchEvent :=
  match chunks with
  | [] => []
  | c :: rest =>
      (map Started (seq base (length c))
         ++ map (fun j => Finished (base + j)) (completion ci))
        ++ traceOf rest (S ci) (base + length c)
  end.

End BatchObservations.

(** The shape of a resolved probe result for the model [m]: a success
    has a preview of at most 200 code units and a speed, and no error;
    a failure has an error kind and an error text, and neither preview
    nor speed. *)
Definition wellFormed (m : jsstring) (r : Result) : Prop :=
  model r = m /\
  ((status r = success /\ errorType r = None /\ error r = None /\
    speed r <> None /\
    exists p, response r = Some p /\ (length p <= 200)%nat) \/
   (status r = failed /\ errorType r <> None /\ error r <> None /\
    response r = None /\ speed r = None)).

(** A pending probe whose result object no callback has touched. *)
Definition fresh (m : jsstring) (p : Proc) : Prop :=
  hasResponded p = false /\ resolved p = [] /\ timerCleared p = false /\
  result p = result (initProc m 0).

(** An event the web server survives: no 'error' from the child or
    from its stdin, and no prompt write that throws. *)
Definition webSafe (te : Z * Event) : bool :=
  match snd te with
  | FromChild (ErrorEv _) => false
  | FromChild (StdinErrorEv _) => false
  | PromptTimerFired th => negb th
  | _ => true
  end.

(** The child never emits 'error'. *)
Definition launches (b : Behaviour) : bool :=
  forallb (fun te => match snd te with ErrorEv _ => false | _ => true end)
          (childEvents b).

(** The child's stdin never emits 'error': no write to it fails. *)
Definition stdinQuiet (b : Behaviour) : bool :=
  forallb (fun te => match snd te with StdinErrorEv _ => false | _ => true end)
          (childEvents b).

(** A child that closes its stdin and goes on running: the prompt
    written one second after the spawn fails with EPIPE, which the
    stream reports right after. *)
Definition brokenPipeChild : Behaviour :=
  mkBehaviour 0 [(1001%Z, StdinErrorEv (lit "write EPIPE"));
                 (2000%Z, Stdout (lit "I am Sonnet"));
                 (2100%Z, CloseEv (Some 0%Z))] false false false.

(** A child that cannot be launched: 'error' right after the spawn. *)
Definition missingBinary : Behaviour :=
  mkBehaviour 0 [(1%Z, ErrorEv (lit "spawn claude ENOENT"))] false false false.

(** A child that never exits and never writes. *)
Definition hangingChild : Behaviour :=
  mkBehaviour 0 [] false false false.

(** The three shapes an account result returned by the validator has. *)
Definition validated (r : AccountResult) : Prop :=
  (status (sonnet4 r) = success /\ status (opus41 r) = success /\
   overallStatus r = both_success) \/
  (status (sonnet4 r) = success /\ status (opus41 r) = failed /\
   overallStatus r = sonnet_only) \/
  (status (sonnet4 r) = failed /\ status (opus41 r) = skipped /\
   overallStatus r = both_failed).

(** [results.filter(r => r.sonnet4.status === 'success').length] and the
    same for Opus, as [generateReport] and [saveResults] compute them. *)
Definition sonnet4Success (results : list AccountResult) : nat :=
  length (filter (fun r => Status_eqb (status (sonnet4 r)) success) results).

Definition opus41Success (results : list AccountResult) : nat :=
  length (filter (fun r => Status_eqb (status (opus41 r)) success) results).

(** A world in which the account at position 1 fails on Sonnet, the
    account at position 2 passes Sonnet and fails on Opus, and every
    other account passes both. *)
Definition mixedWorld : nat -> SpawnRequest -> nat -> Behaviour :=
  fun position _ spawned =>
    match position, spawned with
    | 1%nat, _ => missingModelChild
    | 2%nat, S _ => missingModelChild
    | _, _ => warningChild
    end.

(** The accounts file of [threeAccounts], in the documented format. *)
Definition threeAccountsCsv : jsstring :=
  join newline
    [ lit "name,url,token";
      lit "acct-1,https://relay.example/a,cr_0123456789abcdef";
      lit "acct-2,https://relay.example/b,cr_fedcba9876543210";
      lit "acct-3,https://relay.example/c,cr_00112233445566" ].

(** One run of [main] on that file with [--parallel 2]. *)
Definition demoRun : option Main.Outcome :=
  Main.main (fun _ => Num 2) (fun _ => None)
    (fun _ => Some threeAccountsCsv) (fun _ => lit ".csv") (fun _ => None)
    mixedWorld secondFirst (lit "2025/9/1 08:00:00") (lit "2025/9/1 08:00:01")
    4 [lit "accounts.csv"; lit "--parallel"; lit "2"].

Definition demoOutcome : Main.Outcome :=
  Eval vm_compute in
    match demoRun with
    | Some out => out
    | None => Main.fatal
    end.

Definition demoResults : list AccountResult :=
  match Main.batch demoOutcome with
  | Some (results, _) => results
  | None => []
  end.

Definition demoObserved : list BatchEvent :=
  match Main.batch demoOutcome with
  | Some (_, observed) => observed
  | None => []
  end.

(** A line of the accounts file in the format the program documents:
    name, url and token separated by commas. *)
Definition csvLine (a : Account) : jsstring :=
  name a ++ comma ++ url a ++ comma ++ key a.

(** A field that survives a trip through the file: trimming leaves it
    as it is, and it holds neither a comma nor a line feed. *)
Definition plainField (f : jsstring) : Prop :=
  trim f = f /\ ~ In 44%N f /\ ~ In 10%N f.

Definition plainAccount (a : Account) : Prop :=
  plainField (name a) /\ plainField (url a) /\ plainField (key a).

(** The account a row of the saved report stands for. *)
Definition accountOf (r : AccountResult) : Account :=
  {| name := r_name r; url := r_url r; key := fullKey r |}.

Definition plainResult (r : AccountResult) : Prop :=
  plainField (r_name r) /\ plainField (r_url r) /\ plainField (fullKey r).

(** What [parseCSV] makes of the column titles of the saved report:
    an account called '用户名称' with the url "url" and the key "key". *)
Definition headerAccount : Account :=
  {| name := [29992; 25143; 21517; 31216]%N;
     url := lit "url"; key := lit "key" |}.

(** The string does not start with white space. *)
Definition headOk (s : jsstring) : Prop :=
  match s with
  | [] => True
  | c :: _ => isWhiteSpace c = false
  end.

(** The line of column titles [saveResults] writes, without the line
    feeds around it. *)
Definition columnTitles : jsstring :=
  Eval vm_compute in removelast (tl csvColumns).

(** The number of validations that have started, and that have
    finished, in what was observed so far. *)
Definition startedCount (l : list BatchEvent) : nat :=
  length (filter (fun e => match e with Started _ => true | Finished _ => false end) l).

Definition finishedCount (l : list BatchEvent) : nat :=
  length (filter (fun e => match e with Finished _ => true | Started _ => false end) l).

(** A run of [main] in which the value of [--parallel] is not a number. *)
Definition unreadableParallelRun : option Main.Outcome :=
  Main.main (fun _ => NaN) (fun _ => None)
    (fun _ => Some threeAccountsCsv) (fun _ => lit ".csv") (fun _ => None)
    mixedWorld secondFirst (lit "2025/9/1 08:00:00") (lit "2025/9/1 08:00:01")
    4 [lit "accounts.csv"; lit "--parallel"; lit "two"].

(** What a result of the web server's probe and a result of the batch
    checker's probe have in common when both met the same child: all
    but the detected model, and the error kind and text where the web
    server's table, which is shorter, says "unknown". *)
Definition agree (web cli : Result) : Prop :=
  model web = model cli /\ status web = status cli /\
  responseTime web = responseTime cli /\ response web = response cli /\
  speed web = speed cli /\
  ((errorType web = errorType cli /\ error web = error cli) \/
   (errorType web = Some Unknown /\
    (errorType cli = Some ModelUnavailable \/
     errorType cli = Some ProcessError \/
     errorType cli = Some Unknown))).

(** The two probes after the same events, the web server's not having
    thrown: the batch checker's has not thrown either, it has written
    to stdin only if the web server's has, and the variables the
    callbacks read are the same. *)
Definition inStep (w c : Proc) : Prop :=
  startTime w = startTime c /\ output w = output c /\
  errorOutput w = errorOutput c /\ hasResponded w = hasResponded c /\
  timerCleared w = timerCleared c /\ uncaught c = false /\
  (stdinWrites w = [] -> stdinWrites c = []) /\
  (hasResponded w = false ->
   result w = result c /\ resolved w = [] /\ resolved c = []).

(** The batch checker's probe follows the web server's: in step until
    the web server throws, and resolved with an agreeing result once the
    web server's has resolved. *)
Definition follows (w c : Proc) : Prop :=
  (uncaught w = false -> inStep w c) /\
  (forall rw, promiseValue w = Some rw ->
              exists rc, promiseValue c = Some rc /\ agree rw rc).

(** A child that fails with a message the batch checker alone has a
    kind for. *)
Definition unknownModelChild : Behaviour :=
  mkBehaviour 0 [(40%Z, Stderr (lit "model not found")); (50%Z, CloseEv (Some 1%Z))]
    false false false.

(** The probe kills the child on a timeout and never otherwise: while
    it is pending the child is not killed, and once it has resolved the
    child was killed exactly when the result is a timeout. *)
Definition killsOnTimeoutOnly (p : Proc) : Prop :=
  (hasResponded p = false /\ resolved p = [] /\ timerCleared p = false /\
   killed p = false /\ errorType (result p) = None) \/
  (hasResponded p = true /\
   exists r, resolved p = [r] /\
             (killed p = true <-> errorType r = Some Timeout)).

(** The number of times the prompt timer is in a queue. *)
Definition promptTimers (l : list (Z * Event)) : nat :=
  length (filter (fun te => negb (notPrompt te)) l).

(** What the child's stdin has seen: nothing, or the prompt once and
    then the end of the stream. *)
Definition promptedAtMostOnce (p : Proc) : Prop :=
  (stdinWrites p = [] /\ stdinEnded p = false) \/
  (stdinWrites p = [promptText] /\ stdinEnded p = true).

(* ================================================================== *)
(** * Properties *)

(** ** The single-resolution guard *)

Lemma pending_init : forall m t0, pending (initProc m t0).
Proof. intros; repeat split. Qed.

Lemma onStdinError_cases :
  forall p, onStdinError p = p \/ onStdinError p = throwUncaught p.
Proof. intros p. unfold onStdinError. destruct (stdinWrites p); auto. Qed.

(** After an uncaught exception no callback runs. *)
Lemma step_dead : forall te p, uncaught p = true -> step te p = p.
Proof. intros te p H. unfold step. now rewrite H. Qed.

Lemma run_cons : forall te l p, run p (te :: l) = run (step te p) l.
Proof. reflexivity. Qed.

Lemma run_app : forall l1 l2 p, run p (l1 ++ l2) = run (run p l1) l2.
Proof. intros; unfold run; now rewrite fold_left_app. Qed.

Lemma run_dead : forall l p, uncaught p = true -> run p l = p.
Proof.
  induction l as [|te l IH]; intros p H; [reflexivity|].
  rewrite run_cons, step_dead by exact H. now apply IH.
Qed.

Lemma step_alive :
  forall te p, uncaught (step te p) = false -> uncaught p = false.
Proof.
  intros te p H. destruct (uncaught p) eqn:E; [|reflexivity].
  rewrite step_dead in H by exact E. congruence.
Qed.

Lemma run_alive :
  forall l p, uncaught (run p l) = false -> uncaught p = false.
Proof.
  induction l as [|te l IH]; intros p H; [exact H|].
  rewrite run_cons in H. eapply step_alive. apply IH. exact H.
Qed.

(** Only 'error' on the child's stdin makes a callback of the batch
    checker throw. *)
Lemma step_stays_alive :
  forall te p,
    uncaught p = false ->
    (forall m, snd te <> FromChild (StdinErrorEv m)) ->
    uncaught (step te p) = false.
Proof.
  intros [t ev] p Hu Hne. unfold step; cbn [fst snd] in *. rewrite Hu.
  destruct ev as [[d|d|code|m|m]| |th].
  - exact Hu.
  - exact Hu.
  - unfold onClose. destruct (hasResponded p); [exact Hu|].
    destruct (closeIsSuccess code (output p)); exact Hu.
  - unfold onError. destruct (hasResponded p); exact Hu.
  - now elim (Hne m).
  - destruct (timerCleared p); [exact Hu|]. unfold onTimeout.
    destruct (hasResponded p); exact Hu.
  - unfold onPromptTimer. destruct (negb (hasResponded p)); [|exact Hu].
    destruct th; exact Hu.
Qed.

Lemma run_stays_alive :
  forall l p,
    uncaught p = false ->
    (forall te m, In te l -> snd te <> FromChild (StdinErrorEv m)) ->
    uncaught (run p l) = false.
Proof.
  induction l as [|te l IH]; intros p Hu Hne; [exact Hu|].
  rewrite run_cons. apply IH.
  - apply step_stays_alive; [exact Hu|]. intros m. apply Hne. now left.
  - intros te' m Hin. apply Hne. now right.
Qed.

Lemma respond_settles :
  forall r p, pending p -> (status r = success \/ status r = failed) ->
              settled (respond r p).
Proof.
  intros r p (_ & Hres & _) Hst. split; [reflexivity|].
  exists r. cbn. rewrite Hres. auto.
Qed.

Lemma onTimeout_settles : forall now p, pending p -> settled (onTimeout now p).
Proof.
  intros now p (Hresp & Hres & _). unfold onTimeout. rewrite Hresp.
  split; [reflexivity|]. eexists. cbn. rewrite Hres.
  split; [reflexivity|]. split; [reflexivity|]. right; reflexivity.
Qed.

Lemma onClose_settles :
  forall now code p, pending p -> settled (onClose now code p).
Proof.
  intros now code p Hp. unfold onClose.
  destruct Hp as (Hresp & Hrest). rewrite Hresp.
  destruct (closeIsSuccess code (output p));
    apply respond_settles; cbn; auto; split; auto.
Qed.

Lemma onError_settles :
  forall now m p, pending p -> settled (onError now m p).
Proof.
  intros now m p Hp. unfold onError.
  destruct Hp as (Hresp & Hrest). rewrite Hresp.
  apply respond_settles; cbn; auto; split; auto.
Qed.

(** A callback run keeps a pending probe pending or settles it. *)
Lemma step_pending :
  forall te p, pending p -> pending (step te p) \/ settled (step te p).
Proof.
  intros [t ev] p Hp. unfold step; cbn [fst snd].
  destruct (uncaught p); [now left|].
  destruct ev as [[d|d|code|m|m]| |th].
  - left. destruct Hp as (? & ? & ?). repeat split; assumption.
  - left. destruct Hp as (? & ? & ?). repeat split; assumption.
  - right. now apply onClose_settles.
  - right. now apply onError_settles.
  - left. unfold onStdinError. destruct Hp as (? & ? & ?).
    destruct (stdinWrites p); repeat split; assumption.
  - right. destruct Hp as (H1 & H2 & H3). rewrite H3.
    apply onTimeout_settles. repeat split; assumption.
  - left. unfold onPromptTimer. destruct Hp as (H1 & H2 & H3). rewrite H1.
    cbn. destruct th; repeat split; assumption.
Qed.

(** Once settled, no callback resolves again or touches the result. *)
Lemma step_settled :
  forall te p, settled p ->
    settled (step te p) /\ resolved (step te p) = resolved p.
Proof.
  intros [t ev] p Hs. pose proof Hs as (Hresp & r & Hres & Hr & Hst).
  unfold step; cbn [fst snd].
  destruct (uncaught p); [auto|].
  destruct ev as [[d|d|code|m|m]| |th].
  - split; [|reflexivity]. split; [assumption|]. exists r. auto.
  - split; [|reflexivity]. split; [assumption|]. exists r. auto.
  - unfold onClose. rewrite Hresp. auto.
  - unfold onError. rewrite Hresp. auto.
  - unfold onStdinError. destruct (stdinWrites p); [auto|].
    split; [|reflexivity]. split; [assumption|]. exists r. auto.
  - unfold onTimeout. rewrite Hresp. destruct (timerCleared p); auto.
  - unfold onPromptTimer. rewrite Hresp. cbn. auto.
Qed.

Lemma run_settled :
  forall l p, settled p -> settled (run p l) /\ resolved (run p l) = resolved p.
Proof.
  induction l as [|te l IH]; intros p Hs; [auto|].
  rewrite run_cons. destruct (step_settled te p Hs) as (Hs' & He).
  destruct (IH _ Hs') as (Hs'' & He'). split; [assumption|congruence].
Qed.

Lemma run_pending :
  forall l p, pending p -> pending (run p l) \/ settled (run p l).
Proof.
  induction l as [|te l IH]; intros p Hp; [auto|].
  rewrite run_cons. destruct (step_pending te p Hp) as [Hp'|Hs'].
  - now apply IH.
  - right. now apply run_settled.
Qed.

(** If the timeout fires and no uncaught exception ends the process,
    the probe ends up settled. *)
Lemma run_timeout_settles :
  forall l p t,
    pending p -> In (t, TimeoutFired) l -> uncaught (run p l) = false ->
    settled (run p l).
Proof.
  induction l as [|te l IH]; intros p t Hp Hin Hal; [contradiction|].
  rewrite run_cons in *.
  assert (Hu : uncaught p = false)
    by (eapply step_alive, run_alive; exact Hal).
  destruct (step_pending te p Hp) as [Hp'|Hs'].
  - destruct Hin as [->|Hin].
    + exfalso. unfold step in Hp'. rewrite Hu in Hp'. cbn [fst snd] in Hp'.
      destruct Hp as (H1 & H2 & H3). rewrite H3 in Hp'.
      unfold onTimeout in Hp'. rewrite H1 in Hp'.
      destruct Hp' as (Hc & _). discriminate Hc.
    + now apply (IH _ t).
  - now apply run_settled.
Qed.

Lemma insertTimer_In :
  forall first due ev l, In (due, ev) (insertTimer first due ev l).
Proof.
  induction l as [|[t e] l IH]; cbn; [auto|].
  destruct (if first then (due <=? t)%Z else (due <? t)%Z); cbn; auto.
Qed.

Lemma insertTimer_incl :
  forall first due ev l x, In x l -> In x (insertTimer first due ev l).
Proof.
  induction l as [|[t e] l IH]; cbn; intros x Hx; [contradiction|].
  destruct (if first then (due <=? t)%Z else (due <? t)%Z); cbn.
  - right. exact Hx.
  - destruct Hx; auto.
Qed.

Lemma insertTimer_In_inv :
  forall first due ev l x,
    In x (insertTimer first due ev l) -> x = (due, ev) \/ In x l.
Proof.
  intros first due ev. induction l as [|[t e] l IH]; intros x H; cbn in H.
  - destruct H as [<-|[]]. now left.
  - destruct (if first then (due <=? t)%Z else (due <? t)%Z).
    + destruct H as [<-|H]; [now left|now right].
    + destruct H as [<-|H]; [right; now left|].
      destruct (IH x H) as [->|Hin]; [now left|right; now right].
Qed.

(** The timeout timer is always in the queue of a probe. *)
Lemma eventLoop_timeout :
  forall tm b, In ((spawnTime b + timerDelay tm)%Z, TimeoutFired) (eventLoop tm b).
Proof. intros; unfold eventLoop; apply insertTimer_In. Qed.

(** A child whose stdin never reports an error has no such event in
    the queue of its probe. *)
Lemma eventLoop_stdinQuiet :
  forall tm b te m,
    stdinQuiet b = true -> In te (eventLoop tm b) ->
    snd te <> FromChild (StdinErrorEv m).
Proof.
  intros tm b te m Hq Hin. unfold eventLoop in Hin.
  apply insertTimer_In_inv in Hin as [->|Hin]; [discriminate|].
  apply insertTimer_In_inv in Hin as [->|Hin]; [discriminate|].
  apply in_map_iff in Hin as ([t e] & <- & Hin). cbn.
  unfold stdinQuiet in Hq. rewrite forallb_forall in Hq.
  specialize (Hq _ Hin). cbn in Hq.
  destruct e; discriminate.
Qed.

Lemma probe_alive :
  forall m options b,
    stdinQuiet b = true -> uncaught (probe m options b) = false.
Proof.
  intros m options b Hq. unfold probe.
  apply run_stays_alive; [reflexivity|].
  intros te msg Hin. now apply (eventLoop_stdinQuiet (timeout options) b).
Qed.

Lemma probe_settled :
  forall m options b,
    uncaught (probe m options b) = false -> settled (probe m options b).
Proof.
  intros m options b Hal. unfold probe in *.
  eapply run_timeout_settles;
    [apply pending_init | apply eventLoop_timeout | exact Hal].
Qed.

(** A value of the promise of a probe is a success or a failure. *)
Lemma probe_value_status :
  forall m options b r,
    promiseValue (probe m options b) = Some r ->
    status r = success \/ status r = failed.
Proof.
  intros m options b r H. unfold probe, promiseValue in H.
  destruct (run_pending (eventLoop (timeout options) b) _
              (pending_init m (spawnTime b)))
    as [(_ & Hnil & _)|(_ & r' & Hr & _ & Hst)].
  - rewrite Hnil in H. discriminate H.
  - rewrite Hr in H. cbn in H. injection H as <-. exact Hst.
Qed.

(** ** The account validator *)

Lemma awaited_Some :
  forall p r,
    awaited p = Some r -> uncaught p = false /\ promiseValue p = Some r.
Proof.
  intros p r H. unfold awaited in H.
  destruct (uncaught p); [discriminate H|auto].
Qed.

(** An awaited probe that returns has a success or a failure, and it
    has spawned exactly its own child. *)
Lemma testSingleModel_returned :
  forall world account m options log r log',
    testSingleModel world account m options log = Some (r, log') ->
    log' = log ++ [requestFor account m] /\
    (status r = success \/ status r = failed).
Proof.
  intros world account m options log r log' H. unfold testSingleModel in H.
  destruct (awaited (probe m options
                       (world (mkSpawn [lit "--model"; m] (url account)
                                 (key account)) (length log))))
    as [r0|] eqn:E; [|discriminate H].
  injection H as <- <-. split; [reflexivity|].
  apply awaited_Some in E as (_ & E). eapply probe_value_status. exact E.
Qed.

(** It returns when the stdin of the child reports no error. *)
Lemma testSingleModel_returns :
  forall world account m options log,
    (forall req n, stdinQuiet (world req n) = true) ->
    exists r,
      testSingleModel world account m options log
        = Some (r, log ++ [requestFor account m]).
Proof.
  intros world account m options log Hq. unfold testSingleModel, awaited.
  set (b := world (mkSpawn [lit "--model"; m] (url account) (key account))
              (length log)).
  pose proof (probe_alive m options b (Hq _ _)) as Hal.
  destruct (probe_settled m options b Hal) as (_ & r & Hr & _).
  rewrite Hal. unfold promiseValue. rewrite Hr. cbn.
  exists r. reflexivity.
Qed.

Lemma Status_eqb_eq : forall a b, Status_eqb a b = true <-> a = b.
Proof. destruct a, b; cbn; split; congruence. Qed.

(** The three shapes a returned account result can have. *)
Lemma testAccountDirect_cases :
  forall world account options log r log',
    testAccountDirect world account options log = Some (r, log') ->
    r_name r = name account /\ r_url r = url account /\
    r_key r = substring 0 10 (key account) ++ lit "..." /\
    fullKey r = key account /\
    ((status (sonnet4 r) = success /\ status (opus41 r) = success /\
      overallStatus r = both_success /\
      log' = log ++ [requestFor account sonnetModel;
                     requestFor account opusModel]) \/
     (status (sonnet4 r) = success /\ status (opus41 r) = failed /\
      overallStatus r = sonnet_only /\
      log' = log ++ [requestFor account sonnetModel;
                     requestFor account opusModel]) \/
     (status (sonnet4 r) = failed /\ opus41 r = skippedResult /\
      overallStatus r = both_failed /\
      log' = log ++ [requestFor account sonnetModel])).
Proof.
  intros world account options log r log' H.
  unfold testAccountDirect, bind in H.
  destruct (testSingleModel world account sonnetModel options log)
    as [[s l1]|] eqn:Es; [|discriminate H].
  apply testSingleModel_returned in Es as (-> & Hss).
  destruct Hss as [Hss|Hss]; rewrite Hss in H; cbn [Status_eqb] in H.
  - destruct (testSingleModel world account opusModel options
                (log ++ [requestFor account sonnetModel]))
      as [[o l2]|] eqn:Eo; [|discriminate H].
    apply testSingleModel_returned in Eo as (-> & Hos).
    rewrite <- app_assoc in H. cbn [app] in H.
    destruct Hos as [Hos|Hos]; rewrite Hos in H; cbn [Status_eqb] in H;
      unfold ret in H; injection H as <- <-; cbn;
      repeat (split; [reflexivity|]); auto 10.
  - unfold ret in H. injection H as <- <-. cbn.
    repeat (split; [reflexivity|]). auto 10.
Qed.

(** The validation of an account returns when no child's stdin reports
    an error. *)
Lemma testAccountDirect_returns :
  forall world account options log,
    (forall req n, stdinQuiet (world req n) = true) ->
    exists r log', testAccountDirect world account options log = Some (r, log').
Proof.
  intros world account options log Hq. unfold testAccountDirect, bind.
  destruct (testSingleModel_returns world account sonnetModel options log Hq)
    as (s & Hs).
  rewrite Hs. destruct (Status_eqb (status s) success).
  - destruct (testSingleModel_returns world account opusModel options
                (log ++ [requestFor account sonnetModel]) Hq) as (o & Ho).
    rewrite Ho. destruct (Status_eqb (status o) success);
      eexists; eexists; reflexivity.
  - eexists; eexists; reflexivity.
Qed.

(** C3.  For every account whose validation returns, the Opus result is
    the skipped one exactly when the Sonnet probe did not succeed, and
    in that case the validation has spawned the Sonnet child only: no
    process for the Opus model.  The validation returns whenever no
    child's stdin reports an error. *)
Theorem opus_skipped_iff_sonnet_not_success :
  forall (world : SpawnRequest -> nat -> Behaviour) (account : Account)
         (options : Options) (log : list SpawnRequest),
    (forall r log',
        testAccountDirect world account options log = Some (r, log') ->
        (status (opus41 r) = skipped <-> status (sonnet4 r) <> success) /\
        (status (sonnet4 r) <> success ->
           log' = log ++ [requestFor account sonnetModel] /\
           ~ In (requestFor account opusModel)
                [requestFor account sonnetModel]) /\
        (status (sonnet4 r) = success ->
           log' = log ++ [requestFor account sonnetModel;
                          requestFor account opusModel])) /\
    ((forall req n, stdinQuiet (world req n) = true) ->
     exists r log',
       testAccountDirect world account options log = Some (r, log')).
Proof.
  intros world account options log.
  split; [|apply testAccountDirect_returns].
  intros r log' Hrun.
  destruct (testAccountDirect_cases world account options log r log' Hrun)
    as (_ & _ & _ & _ & Hc).
  assert (Hne : ~ In (requestFor account opusModel)
                     [requestFor account sonnetModel]).
  { intros [H|[]]. unfold requestFor in H. inversion H. }
  destruct Hc as [(Hs & Ho & _ & Hl)|[(Hs & Ho & _ & Hl)|(Hs & Ho & _ & Hl)]].
  - rewrite Hs, Ho. split; [split; intros; congruence|].
    split; [intros; congruence | intros; exact Hl].
  - rewrite Hs, Ho. split; [split; intros; congruence|].
    split; [intros; congruence | intros; exact Hl].
  - rewrite Hs, Ho. cbn. split; [split; intros; congruence|].
    split; [intros; split; [exact Hl | exact Hne] | intros; congruence].
Qed.

Lemma opus_skipped_iff_sonnet_not_success_witness :
  exists r log',
    testAccountDirect (fun _ _ => missingModelChild) demoAccount
      defaultOptions [] = Some (r, log') /\
    status (sonnet4 r) <> success /\
    status (opus41 r) = skipped /\
    log' = [] ++ [requestFor demoAccount sonnetModel].
Proof.
  destruct (proj2 (opus_skipped_iff_sonnet_not_success
                     (fun _ _ => missingModelChild) demoAccount
                     defaultOptions []) (fun _ _ => eq_refl))
    as (r & log' & Hrun).
  exists r, log'. split; [exact Hrun|].
  destruct (proj1 (opus_skipped_iff_sonnet_not_success
                     (fun _ _ => missingModelChild) demoAccount
                     defaultOptions []) r log' Hrun)
    as (Hiff & Hfail & _).
  assert (Hs : status (sonnet4 r) <> success).
  { vm_compute in Hrun. injection Hrun as <- _. cbn. discriminate. }
  split; [exact Hs|]. split; [now apply Hiff|]. now apply Hfail.
Defined.

(** C4.  For every account whose validation returns, the overall status
    is the value of the table [overallOf] at the two probe statuses,
    and the only combinations a returned result can have are (success,
    success, both_success), (success, failed, sonnet_only) and (failed,
    skipped, both_failed).  The validation returns whenever no child's
    stdin reports an error. *)
Theorem overall_status_is_function_of_probe_statuses :
  forall (world : SpawnRequest -> nat -> Behaviour) (account : Account)
         (options : Options) (log : list SpawnRequest),
    (forall r log',
        testAccountDirect world account options log = Some (r, log') ->
        overallStatus r = overallOf (status (sonnet4 r)) (status (opus41 r)) /\
        ((status (sonnet4 r), status (opus41 r), overallStatus r)
           = (success, success, both_success) \/
         (status (sonnet4 r), status (opus41 r), overallStatus r)
           = (success, failed, sonnet_only) \/
         (status (sonnet4 r), status (opus41 r), overallStatus r)
           = (failed, skipped, both_failed))) /\
    ((forall req n, stdinQuiet (world req n) = true) ->
     exists r log',
       testAccountDirect world account options log = Some (r, log')).
Proof.
  intros world account options log.
  split; [|apply testAccountDirect_returns].
  intros r log' Hrun.
  destruct (testAccountDirect_cases world account options log r log' Hrun)
    as (_ & _ & _ & _ & Hc).
  destruct Hc as [(Hs & Ho & Hov & _)|[(Hs & Ho & Hov & _)|(Hs & Ho & Hov & _)]];
    rewrite Hs, Ho, Hov; cbn; auto.
Qed.

Lemma overall_status_is_function_of_probe_statuses_witness :
  exists r log',
    testAccountDirect (fun _ _ => warningChild) demoAccount
      defaultOptions [] = Some (r, log') /\
    overallStatus r = overallOf (status (sonnet4 r)) (status (opus41 r)) /\
    overallStatus r = both_success.
Proof.
  destruct (proj2 (overall_status_is_function_of_probe_statuses
                     (fun _ _ => warningChild) demoAccount
                     defaultOptions []) (fun _ _ => eq_refl))
    as (r & log' & Hrun).
  exists r, log'. split; [exact Hrun|].
  destruct (proj1 (overall_status_is_function_of_probe_statuses
                     (fun _ _ => warningChild) demoAccount
                     defaultOptions []) r log' Hrun)
    as (Htable & _).
  split; [exact Htable|].
  vm_compute in Hrun. injection Hrun as <- _. reflexivity.
Defined.

(** ** Classification of an exited child *)

Lemma sameButOutput_refl : forall p, sameButOutput p p [] [].
Proof. intros; unfold sameButOutput; now rewrite !app_nil_r. Qed.

Lemma sameButOutput_trans :
  forall p q r o1 e1 o2 e2,
    sameButOutput p q o1 e1 -> sameButOutput q r o2 e2 ->
    sameButOutput p r (o1 ++ o2) (e1 ++ e2).
Proof.
  unfold sameButOutput. intros p q r o1 e1 o2 e2 H1 H2.
  destruct H1 as (A1 & A2 & A3 & A4 & A5 & A6 & A7 & A8).
  destruct H2 as (B1 & B2 & B3 & B4 & B5 & B6 & B7 & B8).
  rewrite !app_assoc, <- A7, <- A8. repeat split; congruence.
Qed.

Lemma step_data :
  forall te p, hasResponded p = false -> uncaught p = false ->
    isData true te = true ->
    sameButOutput p (step te p) (stdoutOf [te]) (stderrOf [te]).
Proof.
  intros [t ev] p Hp Hu Hd. unfold isData in Hd; cbn [snd] in Hd.
  unfold step; cbn [fst snd]. rewrite Hu.
  destruct ev as [[d|d|code|m|m']| |th]; try discriminate; cbn.
  - unfold sameButOutput; cbn. now rewrite !app_nil_r.
  - unfold sameButOutput; cbn. now rewrite !app_nil_r.
  - unfold onPromptTimer. rewrite Hp. cbn.
    destruct th; unfold sameButOutput; cbn; now rewrite !app_nil_r.
Qed.

Lemma stdoutOf_cons : forall te l, stdoutOf (te :: l) = stdoutOf [te] ++ stdoutOf l.
Proof.
  intros [t ev] l. destruct ev as [[d|d|code|m|m']| |th]; cbn;
    now rewrite ?app_nil_r.
Qed.

Lemma stderrOf_cons : forall te l, stderrOf (te :: l) = stderrOf [te] ++ stderrOf l.
Proof.
  intros [t ev] l. destruct ev as [[d|d|code|m|m']| |th]; cbn;
    now rewrite ?app_nil_r.
Qed.

Lemma run_data :
  forall pre p, hasResponded p = false -> uncaught p = false ->
    forallb (isData true) pre = true ->
    sameButOutput p (run p pre) (stdoutOf pre) (stderrOf pre).
Proof.
  induction pre as [|te pre IH]; intros p Hp Hu Hd.
  - apply sameButOutput_refl.
  - cbn [forallb] in Hd. apply andb_prop in Hd as (Hd1 & Hd2).
    rewrite run_cons, stdoutOf_cons, stderrOf_cons.
    pose proof (step_data te p Hp Hu Hd1) as Hstep.
    eapply sameButOutput_trans; [exact Hstep|].
    destruct Hstep as (H1 & _ & _ & _ & _ & H6 & _).
    apply IH; [congruence|congruence|exact Hd2].
Qed.

(** The same for the callbacks of the web server. *)
Lemma web_step_data :
  forall te p, hasResponded p = false -> uncaught p = false ->
    isData false te = true ->
    sameButOutput p (WebServer.step te p) (stdoutOf [te]) (stderrOf [te]).
Proof.
  intros [t ev] p Hp Hu Hd. unfold isData in Hd; cbn [snd] in Hd.
  unfold WebServer.step; cbn [fst snd]. rewrite Hu.
  destruct ev as [[d|d|code|m|m']| |th]; try discriminate; cbn.
  - unfold sameButOutput; cbn. now rewrite !app_nil_r.
  - unfold sameButOutput; cbn. now rewrite !app_nil_r.
  - destruct th; [discriminate|]. unfold WebServer.onPromptTimer.
    unfold sameButOutput; cbn; now rewrite !app_nil_r.
Qed.

Lemma web_run_cons :
  forall te l p, WebServer.run p (te :: l) = WebServer.run (WebServer.step te p) l.
Proof. reflexivity. Qed.

Lemma web_run_app :
  forall l1 l2 p,
    WebServer.run p (l1 ++ l2) = WebServer.run (WebServer.run p l1) l2.
Proof. intros; unfold WebServer.run; now rewrite fold_left_app. Qed.

Lemma web_run_data :
  forall pre p, hasResponded p = false -> uncaught p = false ->
    forallb (isData false) pre = true ->
    sameButOutput p (WebServer.run p pre) (stdoutOf pre) (stderrOf pre).
Proof.
  induction pre as [|te pre IH]; intros p Hp Hu Hd.
  - apply sameButOutput_refl.
  - cbn [forallb] in Hd. apply andb_prop in Hd as (Hd1 & Hd2).
    rewrite web_run_cons, stdoutOf_cons, stderrOf_cons.
    pose proof (web_step_data te p Hp Hu Hd1) as Hstep.
    eapply sameButOutput_trans; [exact Hstep|].
    destruct Hstep as (H1 & _ & _ & _ & _ & H6 & _).
    apply IH; [congruence|congruence|exact Hd2].
Qed.

(** Once the web server's probe has responded or crashed, no callback
    resolves again. *)
Lemma web_step_done :
  forall te p, hasResponded p = true ->
    hasResponded (WebServer.step te p) = true /\
    resolved (WebServer.step te p) = resolved p.
Proof.
  intros [t ev] p Hp. unfold WebServer.step; cbn [fst snd].
  destruct (uncaught p); [auto|].
  destruct ev as [[d|d|code|m|m']| |th]; cbn; auto.
  - unfold WebServer.onClose. rewrite Hp. auto.
  - unfold onStdinError. destruct (stdinWrites p); auto.
  - unfold onTimeout. rewrite Hp. destruct (timerCleared p); auto.
  - unfold WebServer.onPromptTimer. destruct th; cbn; auto.
Qed.

Lemma web_run_done :
  forall l p, hasResponded p = true ->
    resolved (WebServer.run p l) = resolved p.
Proof.
  induction l as [|te l IH]; intros p Hp; [reflexivity|].
  rewrite web_run_cons. destruct (web_step_done te p Hp) as (H1 & H2).
  rewrite IH; assumption.
Qed.

Lemma run_done :
  forall l p, hasResponded p = true -> length (resolved p) = 1%nat ->
    resolved (run p l) = resolved p.
Proof.
  intros l p Hp Hl.
  assert (Hs : forall te q, hasResponded q = true ->
             hasResponded (step te q) = true /\ resolved (step te q) = resolved q).
  { intros [t ev] q Hq. unfold step; cbn [fst snd].
    destruct (uncaught q); [auto|].
    destruct ev as [[d|d|code|m|m']| |th]; cbn; auto.
    - unfold onClose. rewrite Hq. auto.
    - unfold onError. rewrite Hq. auto.
    - unfold onStdinError. destruct (stdinWrites q); auto.
    - unfold onTimeout. rewrite Hq. destruct (timerCleared q); auto.
    - unfold onPromptTimer. rewrite Hq. cbn. auto. }
  clear Hl. revert p Hp. induction l as [|te l IH]; intros p Hp; [reflexivity|].
  rewrite run_cons. destruct (Hs te p Hp) as (H1 & H2). rewrite IH; assumption.
Qed.

(** The result of a probe whose child closes while the probe is still
    pending. *)
Lemma close_first :
  forall m t0 pre t code rest,
    forallb (isData true) pre = true ->
    let out := stdoutOf pre in
    let err := stderrOf pre in
    exists r,
      promiseValue (run (initProc m t0)
                      (pre ++ (t, FromChild (CloseEv code)) :: rest)) = Some r /\
      responseTime r = (t - t0)%Z /\
      (closeIsSuccess code out = true ->
         status r = success /\ errorType r = None /\
         response r = Some (substring 0 200 (trim out)) /\
         speed r = Some (speedOf (t - t0))) /\
      (closeIsSuccess code out = false ->
         status r = failed /\
         errorType r = Some (fst (failureKind code (err ++ out))) /\
         error r = Some (snd (failureKind code (err ++ out)))).
Proof.
  intros m t0 pre t code rest Hd out err.
  pose proof (run_data pre (initProc m t0) eq_refl eq_refl Hd)
    as (H1 & H2 & H3 & H4 & H5 & H6 & H7 & H8).
  cbn in H1, H2, H3, H4, H5, H6, H7, H8.
  rewrite run_app, run_cons.
  set (q := run (initProc m t0) pre) in *.
  unfold step; cbn [fst snd]. rewrite H6.
  unfold onClose. rewrite H1, H4, H7, H8, H5.
  fold out err.
  destruct (closeIsSuccess code out) eqn:Hc.
  - eexists. split.
    + unfold promiseValue. rewrite run_done.
      * cbn. rewrite H2. reflexivity.
      * reflexivity.
      * cbn. rewrite H2. reflexivity.
    + cbn. split; [reflexivity|]. split; [auto|]. intros; discriminate.
  - eexists. split.
    + unfold promiseValue. rewrite run_done.
      * cbn. rewrite H2. reflexivity.
      * reflexivity.
      * cbn. rewrite H2. reflexivity.
    + cbn. split; [reflexivity|]. split; [intros; discriminate|]. auto.
Qed.

Lemma web_close_first :
  forall m t0 pre t code rest,
    forallb (isData false) pre = true ->
    let out := stdoutOf pre in
    let err := stderrOf pre in
    exists r,
      promiseValue (WebServer.run (initProc m t0)
                      (pre ++ (t, FromChild (CloseEv code)) :: rest)) = Some r /\
      responseTime r = (t - t0)%Z /\
      (closeIsSuccess code out = true ->
         status r = success /\ errorType r = None /\
         response r = Some (substring 0 200 (trim out)) /\
         speed r = Some (speedOf (t - t0))) /\
      (closeIsSuccess code out = false ->
         status r = failed /\
         errorType r = Some (fst (WebServer.failureKind (err ++ out))) /\
         error r = Some (snd (WebServer.failureKind (err ++ out)))).
Proof.
  intros m t0 pre t code rest Hd out err.
  pose proof (web_run_data pre (initProc m t0) eq_refl eq_refl Hd)
    as (H1 & H2 & H3 & H4 & H5 & H6 & H7 & H8).
  cbn in H1, H2, H3, H4, H5, H6, H7, H8.
  rewrite web_run_app, web_run_cons.
  set (q := WebServer.run (initProc m t0) pre) in *.
  unfold WebServer.step; cbn [fst snd]. rewrite H6.
  unfold WebServer.onClose. rewrite H1, H4, H7, H8, H5.
  fold out err.
  destruct (closeIsSuccess code out) eqn:Hc.
  - eexists. split.
    + unfold promiseValue. rewrite web_run_done.
      * cbn. rewrite H2. reflexivity.
      * reflexivity.
    + cbn. split; [reflexivity|]. split; [auto|]. intros; discriminate.
  - eexists. split.
    + unfold promiseValue. rewrite web_run_done.
      * cbn. rewrite H2. reflexivity.
      * reflexivity.
    + cbn. split; [reflexivity|]. split; [intros; discriminate|]. auto.
Qed.

(** [closeIsSuccess] spelled out. *)
Lemma closeIsSuccess_spec :
  forall code out,
    closeIsSuccess code out = true <->
    code = Some 0%Z /\ out <> [] /\
    includes out (lit "Error") = false /\
    includes out (lit "error") = false.
Proof.
  intros code out. unfold closeIsSuccess.
  rewrite !andb_true_iff, !negb_true_iff, Nat.ltb_lt.
  split.
  - intros (((Hc & Hl) & He1) & He2). repeat split; try assumption.
    + destruct code as [[| |]|]; try discriminate; reflexivity.
    + intros ->. cbn in Hl. lia.
  - intros (Hc & Hl & He1 & He2). subst code. repeat split; try assumption.
    destruct out; [congruence | cbn; lia].
Qed.

(** C1, as amended.  For every probe call, of the batch checker and of
    the web server, whose child closes before the timeout fires, the
    result is a success exactly when the exit code is 0, stdout is not
    empty and stdout contains neither "Error" nor "error"; other
    spellings and the content of stderr play no part. *)
Theorem success_iff_exit_zero_and_stdout_without_error :
  forall (modelName : jsstring) (options : Options) (b : Behaviour)
         (pre rest : list (Z * Event)) (t : Z) (code : option Z),
    eventLoop (timeout options) b
      = pre ++ (t, FromChild (CloseEv code)) :: rest ->
    forallb (isData true) pre = true ->
    (exists r,
        promiseValue (probe modelName options b) = Some r /\
        (status r = success <->
         code = Some 0%Z /\ stdoutOf pre <> [] /\
         includes (stdoutOf pre) (lit "Error") = false /\
         includes (stdoutOf pre) (lit "error") = false)) /\
    (forallb (isData false) pre = true ->
     exists r,
        promiseValue (WebServer.testSingleModel modelName (timeout options) b)
          = Some r /\
        (status r = success <->
         code = Some 0%Z /\ stdoutOf pre <> [] /\
         includes (stdoutOf pre) (lit "Error") = false /\
         includes (stdoutOf pre) (lit "error") = false)).
Proof.
  intros m options b pre rest t code Hloop Hd. split.
  - unfold probe. rewrite Hloop.
    destruct (close_first m (spawnTime b) pre t code rest Hd)
      as (r & Hr & _ & Hok & Hko).
    exists r. split; [exact Hr|]. rewrite <- closeIsSuccess_spec.
    destruct (closeIsSuccess code (stdoutOf pre)).
    + destruct (Hok eq_refl) as (-> & _). split; reflexivity.
    + destruct (Hko eq_refl) as (-> & _). split; discriminate.
  - intros Hd'. unfold WebServer.testSingleModel. rewrite Hloop.
    destruct (web_close_first m (spawnTime b) pre t code rest Hd')
      as (r & Hr & _ & Hok & Hko).
    exists r. split; [exact Hr|]. rewrite <- closeIsSuccess_spec.
    destruct (closeIsSuccess code (stdoutOf pre)).
    + destruct (Hok eq_refl) as (-> & _). split; reflexivity.
    + destruct (Hko eq_refl) as (-> & _). split; discriminate.
Qed.

Lemma success_iff_exit_zero_and_stdout_without_error_witness :
  eventLoop (timeout defaultOptions) warningChild
    = [(400%Z, FromChild (Stderr (lit "error: config file not found")));
       (500%Z, FromChild (Stdout (lit "I am Sonnet")))]
      ++ (600%Z, FromChild (CloseEv (Some 0%Z)))
      :: [(1000%Z, PromptTimerFired false); (45000%Z, TimeoutFired)] /\
  exists r,
    promiseValue (probe sonnetModel defaultOptions warningChild) = Some r /\
    (status r = success <->
     Some 0%Z = Some 0%Z /\ lit "I am Sonnet" <> [] /\
     includes (lit "I am Sonnet") (lit "Error") = false /\
     includes (lit "I am Sonnet") (lit "error") = false).
Proof.
  split; [reflexivity|].
  exact (proj1 (success_iff_exit_zero_and_stdout_without_error
                  sonnetModel defaultOptions warningChild
                  [(400%Z, FromChild (Stderr (lit "error: config file not found")));
                   (500%Z, FromChild (Stdout (lit "I am Sonnet")))]
                  [(1000%Z, PromptTimerFired false); (45000%Z, TimeoutFired)]
                  600%Z (Some 0%Z) eq_refl eq_refl)).
Defined.

(** C1 as the specification states it fails: the probe reports a
    success for a child whose stdout contains "ERROR", and for a child
    whose stderr contains "error", although the stated rule (no
    case-insensitive "error" in either buffer) excludes both. *)
Lemma success_rule_counterexample :
  (option_map status
     (promiseValue (probe sonnetModel defaultOptions shoutingChild))
     = Some success /\
   ~ (Some 0%Z = Some 0%Z /\
      lit "ERROR: quota exceeded" <> [] /\
      includesIgnoreCase (lit "ERROR: quota exceeded") (lit "error") = false /\
      includesIgnoreCase [] (lit "error") = false)) /\
  (option_map status
     (promiseValue (probe sonnetModel defaultOptions warningChild))
     = Some success /\
   ~ (Some 0%Z = Some 0%Z /\
      lit "I am Sonnet" <> [] /\
      includesIgnoreCase (lit "I am Sonnet") (lit "error") = false /\
      includesIgnoreCase (lit "error: config file not found") (lit "error")
        = false)).
Proof.
  split; (split; [vm_compute; reflexivity|]).
  - intros (_ & _ & H & _). vm_compute in H. discriminate H.
  - intros (_ & _ & _ & H). vm_compute in H. discriminate H.
Qed.

(** ** The probe and an error on the child's stdin *)

(** Once the prompt was written it stays written while the probe is
    pending. *)
Lemma run_data_writes :
  forall pre p t',
    hasResponded p = false -> uncaught p = false ->
    forallb (isData true) pre = true ->
    In (t', PromptTimerFired false) pre \/ stdinWrites p <> [] ->
    stdinWrites (run p pre) <> [].
Proof.
  induction pre as [|te pre IH]; intros p t' Hp Hu Hd Hin.
  - destruct Hin as [[]|H]; exact H.
  - cbn [forallb] in Hd. apply andb_prop in Hd as (Hd1 & Hd2).
    rewrite run_cons.
    destruct (step_data te p Hp Hu Hd1) as (H1 & _ & _ & _ & _ & H6 & _).
    apply (IH _ t'); [congruence|congruence|exact Hd2|].
    destruct Hin as [[->|Hin]|Hw].
    + right. unfold step; cbn [fst snd]. rewrite Hu.
      unfold onPromptTimer. rewrite Hp. cbn.
      destruct (stdinWrites p); discriminate.
    + now left.
    + right. destruct te as [t ev].
      unfold isData in Hd1; cbn [snd] in Hd1.
      unfold step; cbn [fst snd]. rewrite Hu.
      destruct ev as [[d|d|code|m|m']| |th];
        try discriminate Hd1; cbn; try exact Hw.
      unfold onPromptTimer. rewrite Hp. cbn. destruct th; cbn; [exact Hw|].
      destruct (stdinWrites p); [now elim Hw|discriminate].
Qed.

(** C2, as it holds of the code.  The callbacks of a probe call
    [resolve] at most once, whatever the child does and in whatever
    order the events are delivered, and exactly once when no uncaught
    exception ends the process: the timeout timer is always in the
    queue.  That is the case whenever the child's stdin reports no
    error.  But when the prompt was written while the probe was pending
    and the child's stdin reports an error before the child has closed,
    the error is thrown, the process ends, and the probe never
    resolves. *)
Theorem probe_resolves_once_unless_stdin_fails :
  forall (modelName : jsstring) (options : Options) (b : Behaviour),
    (length (resolved (probe modelName options b)) <= 1)%nat /\
    (uncaught (probe modelName options b) = false ->
     length (resolved (probe modelName options b)) = 1%nat /\
     exists r, promiseValue (probe modelName options b) = Some r) /\
    (stdinQuiet b = true -> uncaught (probe modelName options b) = false) /\
    (forall (pre rest : list (Z * Event)) (t t' : Z) (message : jsstring),
        eventLoop (timeout options) b
          = pre ++ (t, FromChild (StdinErrorEv message)) :: rest ->
        forallb (isData true) pre = true ->
        In (t', PromptTimerFired false) pre ->
        uncaught (probe modelName options b) = true /\
        resolved (probe modelName options b) = [] /\
        promiseValue (probe modelName options b) = None) /\
    (forall (t0 : Z) (delivered : list (Z * Event)),
        (length (resolved (run (initProc modelName t0) delivered)) <= 1)%nat) /\
    (forall (t0 t : Z) (delivered : list (Z * Event)),
        In (t, TimeoutFired) delivered ->
        uncaught (run (initProc modelName t0) delivered) = false ->
        length (resolved (run (initProc modelName t0) delivered)) = 1%nat).
Proof.
  intros m options b.
  assert (Hmost : forall t0 l,
             (length (resolved (run (initProc m t0) l)) <= 1)%nat).
  { intros t0 l.
    destruct (run_pending l _ (pending_init m t0))
      as [(_ & H & _)|(_ & r' & H & _)]; rewrite H; cbn; lia. }
  split; [apply Hmost|]. split; [|split; [|split; [|split]]].
  - intros Hal. destruct (probe_settled m options b Hal) as (_ & r & Hr & _).
    rewrite Hr. split; [reflexivity|].
    exists r. unfold promiseValue. now rewrite Hr.
  - apply probe_alive.
  - intros pre rest t t' msg Hloop Hd Hin.
    pose proof (run_data pre (initProc m (spawnTime b)) eq_refl eq_refl Hd)
      as (H1 & H2 & H3 & H4 & H5 & H6 & H7 & H8).
    cbn in H1, H2, H6.
    pose proof (run_data_writes pre (initProc m (spawnTime b)) t'
                  eq_refl eq_refl Hd (or_introl Hin)) as Hw.
    unfold probe, promiseValue. rewrite Hloop, run_app, run_cons.
    set (q := run (initProc m (spawnTime b)) pre) in *.
    assert (Hs : step (t, FromChild (StdinErrorEv msg)) q = throwUncaught q).
    { unfold step; cbn [fst snd]. rewrite H6. unfold onStdinError.
      destruct (stdinWrites q); [now elim Hw|reflexivity]. }
    rewrite Hs, run_dead by reflexivity. cbn. rewrite H2. auto.
  - apply Hmost.
  - intros t0 t l Hin Hal.
    destruct (run_timeout_settles l _ t (pending_init m t0) Hin Hal)
      as (_ & r' & H & _).
    now rewrite H.
Qed.

Lemma probe_resolves_once_unless_stdin_fails_witness :
  eventLoop (timeout defaultOptions) brokenPipeChild
    = [(1000%Z, PromptTimerFired false)]
      ++ (1001%Z, FromChild (StdinErrorEv (lit "write EPIPE")))
      :: [(2000%Z, FromChild (Stdout (lit "I am Sonnet")));
          (2100%Z, FromChild (CloseEv (Some 0%Z)));
          (45000%Z, TimeoutFired)] /\
  uncaught (probe sonnetModel defaultOptions brokenPipeChild) = true /\
  resolved (probe sonnetModel defaultOptions brokenPipeChild) = [] /\
  promiseValue (probe sonnetModel defaultOptions brokenPipeChild) = None.
Proof.
  split; [reflexivity|].
  destruct (probe_resolves_once_unless_stdin_fails sonnetModel defaultOptions
              brokenPipeChild) as (_ & _ & _ & Hbug & _).
  exact (Hbug [(1000%Z, PromptTimerFired false)]
           [(2000%Z, FromChild (Stdout (lit "I am Sonnet")));
            (2100%Z, FromChild (CloseEv (Some 0%Z)));
            (45000%Z, TimeoutFired)]
           1001%Z 1000%Z (lit "write EPIPE") eq_refl eq_refl
           (or_introl eq_refl)).
Defined.

(** ** The failure table *)

Lemma failureKind_table :
  forall code scanned,
    fst (failureKind code scanned) = kindByPriority code scanned.
Proof.
  intros code scanned.
  unfold failureKind, kindByPriority, priorityTable.
  cbn [firstMatch existsb firstn].
  split_includes; try reflexivity.
  destruct code as [[| |]|]; reflexivity.
Qed.

Lemma web_failureKind_table :
  forall scanned,
    fst (WebServer.failureKind scanned) = kindByPriorityWeb scanned.
Proof.
  intros scanned.
  unfold WebServer.failureKind, kindByPriorityWeb, priorityTable.
  cbn [firstMatch existsb firstn].
  split_includes; reflexivity.
Qed.

(** C5, as amended.  For every probe of the batch checker whose child
    closes before the timeout with a classification that is not a
    success, the result is a failure whose kind is the first match of
    the priority table in stderr followed by stdout, then ProcessError
    for an exit code that is not 0, then Unknown.  The probe of the web
    server follows the first four rows of the table only, and gives
    Unknown otherwise. *)
Theorem failure_kind_by_priority :
  forall (modelName : jsstring) (options : Options) (b : Behaviour)
         (pre rest : list (Z * Event)) (t : Z) (code : option Z),
    eventLoop (timeout options) b
      = pre ++ (t, FromChild (CloseEv code)) :: rest ->
    forallb (isData true) pre = true ->
    closeIsSuccess code (stdoutOf pre) = false ->
    (exists r,
        promiseValue (probe modelName options b) = Some r /\
        status r = failed /\
        errorType r
          = Some (kindByPriority code (stderrOf pre ++ stdoutOf pre))) /\
    (forallb (isData false) pre = true ->
     exists r,
        promiseValue (WebServer.testSingleModel modelName (timeout options) b)
          = Some r /\
        status r = failed /\
        errorType r
          = Some (kindByPriorityWeb (stderrOf pre ++ stdoutOf pre))).
Proof.
  intros m options b pre rest t code Hloop Hd Hfail. split.
  - unfold probe. rewrite Hloop.
    destruct (close_first m (spawnTime b) pre t code rest Hd)
      as (r & Hr & _ & _ & Hko).
    destruct (Hko Hfail) as (Hst & Hty & _).
    exists r. rewrite <- failureKind_table. auto.
  - intros Hd'. unfold WebServer.testSingleModel. rewrite Hloop.
    destruct (web_close_first m (spawnTime b) pre t code rest Hd')
      as (r & Hr & _ & _ & Hko).
    destruct (Hko Hfail) as (Hst & Hty & _).
    exists r. rewrite <- web_failureKind_table. auto.
Qed.

Lemma failure_kind_by_priority_witness :
  eventLoop (timeout defaultOptions) missingModelChild
    = [(300%Z, FromChild (Stderr (lit "model not found")))]
      ++ (400%Z, FromChild (CloseEv (Some 1%Z)))
      :: [(1000%Z, PromptTimerFired false); (45000%Z, TimeoutFired)] /\
  closeIsSuccess (Some 1%Z) [] = false /\
  exists r,
    promiseValue (probe opusModel defaultOptions missingModelChild) = Some r /\
    status r = failed /\
    errorType r
      = Some (kindByPriority (Some 1%Z) (lit "model not found" ++ [])).
Proof.
  split; [reflexivity|]. split; [reflexivity|].
  exact (proj1 (failure_kind_by_priority
                  opusModel defaultOptions missingModelChild
                  [(300%Z, FromChild (Stderr (lit "model not found")))]
                  [(1000%Z, PromptTimerFired false); (45000%Z, TimeoutFired)]
                  400%Z (Some 1%Z) eq_refl eq_refl eq_refl)).
Defined.

(** C5 as the specification states it fails on the probe of the web
    server: with "model not found" on stderr it gives Unknown where the
    stated order gives ModelUnavailable, and for a silent exit with
    code 1 it gives Unknown where the stated order gives ProcessError. *)
Lemma failure_kind_counterexample :
  (option_map errorType
     (promiseValue
        (WebServer.testSingleModel opusModel (Num 60000) missingModelChild))
     = Some (Some Unknown) /\
   kindByPriority (Some 1%Z) (lit "model not found" ++ []) = ModelUnavailable) /\
  (option_map errorType
     (promiseValue
        (WebServer.testSingleModel opusModel (Num 60000) silentFailingChild))
     = Some (Some Unknown) /\
   kindByPriority (Some 1%Z) ([] ++ []) = ProcessError).
Proof. repeat split; vm_compute; reflexivity. Qed.

(** ** The prompt timer *)

(** The callbacks other than the prompt timer never write to stdin,
    and a probe that has responded stays so. *)
Lemma step_keeps_stdin :
  forall te p, notPrompt te = true \/ hasResponded p = true ->
    stdinWrites (step te p) = stdinWrites p /\
    stdinEnded (step te p) = stdinEnded p /\
    (hasResponded p = true -> hasResponded (step te p) = true).
Proof.
  intros [t ev] p H. unfold step; cbn [fst snd].
  destruct (uncaught p); [auto|].
  destruct ev as [[d|d|code|m|m']| |th].
  - cbn; repeat split; auto.
  - cbn; repeat split; auto.
  - unfold onClose. destruct (hasResponded p) eqn:E; [auto|].
    destruct (closeIsSuccess code (output p)); cbn; repeat split; auto.
  - unfold onError. destruct (hasResponded p) eqn:E; cbn; repeat split; auto.
  - destruct (onStdinError_cases p) as [->| ->]; cbn; repeat split; auto.
  - destruct (timerCleared p); [auto|]. unfold onTimeout.
    destruct (hasResponded p) eqn:E; cbn; repeat split; auto.
  - destruct H as [H|H]; [discriminate H|].
    unfold onPromptTimer. rewrite H. cbn. auto.
Qed.

(** As long as nothing was written, they do not throw either. *)
Lemma step_keeps_stdin_untouched :
  forall te p, notPrompt te = true \/ hasResponded p = true ->
    stdinWrites p = [] -> uncaught p = false ->
    uncaught (step te p) = false.
Proof.
  intros [t ev] p H Hw Hu. unfold step; cbn [fst snd]. rewrite Hu.
  destruct ev as [[d|d|code|m|m']| |th].
  - exact Hu.
  - exact Hu.
  - unfold onClose. destruct (hasResponded p); [exact Hu|].
    destruct (closeIsSuccess code (output p)); exact Hu.
  - unfold onError. destruct (hasResponded p); exact Hu.
  - unfold onStdinError. rewrite Hw. exact Hu.
  - destruct (timerCleared p); [exact Hu|]. unfold onTimeout.
    destruct (hasResponded p); exact Hu.
  - destruct H as [H|H]; [discriminate H|].
    unfold onPromptTimer. rewrite H. exact Hu.
Qed.

Lemma run_keeps_stdin_before_prompt :
  forall l p, forallb notPrompt l = true ->
    stdinWrites p = [] -> uncaught p = false ->
    stdinWrites (run p l) = [] /\
    stdinEnded (run p l) = stdinEnded p /\
    uncaught (run p l) = false.
Proof.
  induction l as [|te l IH]; intros p Hl Hw Hu; [auto|].
  cbn [forallb] in Hl. apply andb_prop in Hl as (H1 & H2).
  rewrite run_cons.
  destruct (step_keeps_stdin te p (or_introl H1)) as (A & B & _).
  pose proof (step_keeps_stdin_untouched te p (or_introl H1) Hw Hu) as C.
  destruct (IH (step te p) H2 ltac:(congruence) C) as (A' & B' & C').
  repeat split; congruence.
Qed.

Lemma run_keeps_stdin_after_response :
  forall l p, hasResponded p = true ->
    stdinWrites p = [] -> uncaught p = false ->
    stdinWrites (run p l) = [] /\
    stdinEnded (run p l) = stdinEnded p /\
    uncaught (run p l) = false.
Proof.
  induction l as [|te l IH]; intros p Hp Hw Hu; [auto|].
  rewrite run_cons.
  destruct (step_keeps_stdin te p (or_intror Hp)) as (A & B & D).
  pose proof (step_keeps_stdin_untouched te p (or_intror Hp) Hw Hu) as C.
  destruct (IH (step te p) (D Hp) ltac:(congruence) C) as (A' & B' & C').
  repeat split; congruence.
Qed.

Lemma exit_responds :
  forall t ev p, isExit ev = true -> uncaught p = false ->
    hasResponded (step (t, FromChild ev) p) = true.
Proof.
  intros t ev p H Hu. unfold step; cbn [fst snd]. rewrite Hu.
  destruct ev as [d|d|code|m|m']; try discriminate H.
  - unfold onClose. destruct (hasResponded p) eqn:E; [exact E|].
    destruct (closeIsSuccess code (output p)); reflexivity.
  - unfold onError. destruct (hasResponded p) eqn:E; [exact E|reflexivity].
Qed.

(** Once the probe has responded, the prompt timer changes nothing:
    the queue without it leads to the same state. *)
Lemma run_skip_prompts :
  forall l p, hasResponded p = true ->
    run p l = run p (filter notPrompt l).
Proof.
  induction l as [|[t ev] l IH]; intros p Hp; [reflexivity|].
  cbn [filter]. destruct (notPrompt (t, ev)) eqn:E.
  - rewrite !run_cons. apply IH.
    now apply (step_keeps_stdin (t, ev) p (or_intror Hp)).
  - destruct ev as [e| |th]; try discriminate E.
    rewrite run_cons.
    assert (Hs : step (t, PromptTimerFired th) p = p).
    { unfold step; cbn [fst snd]. destruct (uncaught p); [reflexivity|].
      unfold onPromptTimer. now rewrite Hp. }
    rewrite Hs. now apply IH.
Qed.

Lemma filter_all :
  forall (A : Type) (f : A -> bool) (l : list A),
    forallb f l = true -> filter f l = l.
Proof.
  intros A f. induction l as [|x l IH]; intros H; [reflexivity|].
  cbn in *. apply andb_prop in H as (H1 & H2). rewrite H1. f_equal. auto.
Qed.

(** C9, as amended.  In the probe of the batch checker, when the child
    has closed or has failed to launch before the prompt timer runs,
    the timer writes nothing to the child's stdin and does not end it,
    no exception leaves a callback, and the probe resolves with the
    result it has without the timer. *)
Theorem prompt_write_skipped_after_exit :
  forall (modelName : jsstring) (options : Options) (b : Behaviour)
         (pre rest : list (Z * Event)) (t : Z) (ev : ChildEvent),
    eventLoop (timeout options) b = pre ++ (t, FromChild ev) :: rest ->
    isExit ev = true ->
    forallb notPrompt pre = true ->
    stdinWrites (probe modelName options b) = [] /\
    stdinEnded (probe modelName options b) = false /\
    uncaught (probe modelName options b) = false /\
    promiseValue (probe modelName options b)
      = promiseValue (run (initProc modelName (spawnTime b))
                        (filter notPrompt (eventLoop (timeout options) b))).
Proof.
  intros m options b pre rest t ev Hloop Hexit Hpre.
  destruct (run_keeps_stdin_before_prompt pre (initProc m (spawnTime b))
              Hpre eq_refl eq_refl) as (A & B & C).
  cbn in B.
  set (q := run (initProc m (spawnTime b)) pre) in *.
  destruct (step_keeps_stdin (t, FromChild ev) q (or_introl eq_refl))
    as (A1 & B1 & _).
  pose proof (step_keeps_stdin_untouched (t, FromChild ev) q
                (or_introl eq_refl) A C) as C1.
  pose proof (exit_responds t ev q Hexit C) as R1.
  destruct (run_keeps_stdin_after_response rest (step (t, FromChild ev) q)
              R1 ltac:(congruence) C1) as (A2 & B2 & C2).
  unfold probe. rewrite Hloop, run_app, run_cons. fold q.
  split; [exact A2|]. split; [congruence|]. split; [exact C2|].
  rewrite filter_app, (filter_all _ _ _ Hpre). cbn [filter notPrompt snd].
  rewrite run_app, run_cons. fold q.
  now rewrite (run_skip_prompts rest _ R1).
Qed.

Lemma prompt_write_skipped_after_exit_witness :
  eventLoop (timeout defaultOptions) warningChild
    = [(400%Z, FromChild (Stderr (lit "error: config file not found")));
       (500%Z, FromChild (Stdout (lit "I am Sonnet")))]
      ++ (600%Z, FromChild (CloseEv (Some 0%Z)))
      :: [(1000%Z, PromptTimerFired false); (45000%Z, TimeoutFired)] /\
  stdinWrites (probe sonnetModel defaultOptions warningChild) = [] /\
  stdinEnded (probe sonnetModel defaultOptions warningChild) = false /\
  uncaught (probe sonnetModel defaultOptions warningChild) = false /\
  promiseValue (probe sonnetModel defaultOptions warningChild)
    = promiseValue
        (run (initProc sonnetModel (spawnTime warningChild))
           (filter notPrompt (eventLoop (timeout defaultOptions) warningChild))).
Proof.
  split; [reflexivity|].
  exact (prompt_write_skipped_after_exit
           sonnetModel defaultOptions warningChild
           [(400%Z, FromChild (Stderr (lit "error: config file not found")));
            (500%Z, FromChild (Stdout (lit "I am Sonnet")))]
           [(1000%Z, PromptTimerFired false); (45000%Z, TimeoutFired)]
           600%Z (CloseEv (Some 0%Z)) eq_refl eq_refl eq_refl).
Defined.

(** C9 as the specification states it fails on the probe of the web
    server: the child closes 600 ms after the spawn, the probe resolves,
    and at 1000 ms the timer still writes the prompt to its stdin. *)
Lemma prompt_write_counterexample :
  option_map status
    (promiseValue
       (WebServer.testSingleModel sonnetModel (Num 60000) warningChild))
    = Some success /\
  stdinWrites (WebServer.testSingleModel sonnetModel (Num 60000) warningChild)
    = [promptText] /\
  stdinWrites (WebServer.testSingleModel sonnetModel (Num 60000) warningChild)
    <> [].
Proof. repeat split; vm_compute; [reflexivity..|discriminate]. Qed.

(** ** The batch runner *)

Lemma slice_window :
  forall (A : Type) (l : list A) (a p : nat),
    (a <= length l)%nat ->
    slice (Num (Z.of_nat a)) (add (Num (Z.of_nat a)) (Num (Z.of_nat p))) l
      = firstn p (skipn a l).
Proof.
  intros A l a p Ha. unfold slice, add, relIndex.
  assert (H1 : (Z.of_nat a <? 0)%Z = false) by (apply Z.ltb_ge; lia).
  assert (H2 : (Z.of_nat a + Z.of_nat p <? 0)%Z = false) by (apply Z.ltb_ge; lia).
  rewrite H1, H2.
  replace (Z.to_nat (Z.min (Z.of_nat a) (Z.of_nat (length l)))) with a by lia.
  replace (Z.to_nat (Z.min (Z.of_nat a + Z.of_nat p) (Z.of_nat (length l))
                     - Z.min (Z.of_nat a) (Z.of_nat (length l))))
    with (Nat.min p (length (skipn a l)))
    by (rewrite length_skipn; lia).
  destruct (Nat.le_ge_cases p (length (skipn a l))) as [H|H].
  - now rewrite Nat.min_l.
  - rewrite Nat.min_r by exact H. now rewrite !firstn_all2.
Qed.

(** With a bound of at least 1 the chunking loop ends and cuts the
    rest of the list into ordered chunks of that size. *)
Lemma chunkLoop_from :
  forall (accounts : list Account) (p : nat),
    (1 <= p)%nat ->
    forall (fuel a : nat) (chunks : list (list Account)),
      (length accounts - a < fuel)%nat ->
      exists cs,
        chunkLoop fuel accounts (Num (Z.of_nat p)) (Num (Z.of_nat a)) chunks
          = Some (chunks ++ cs) /\
        concat cs = skipn a accounts /\ fullButLast p cs.
Proof.
  intros accounts p Hp. induction fuel as [|fuel IH]; intros a chunks Hf; [lia|].
  cbn [chunkLoop]. unfold lt.
  destruct (Z.ltb_spec (Z.of_nat a) (Z.of_nat (length accounts))) as [Hlt|Hge].
  - rewrite slice_window by lia.
    replace (add (Num (Z.of_nat a)) (Num (Z.of_nat p)))
      with (Num (Z.of_nat (a + p))) by (cbn; f_equal; lia).
    destruct (IH (a + p)%nat (chunks ++ [firstn p (skipn a accounts)]))
      as (cs & Hrun & Hcat & Hfull); [lia|].
    exists (firstn p (skipn a accounts) :: cs).
    split; [rewrite Hrun, <- app_assoc; reflexivity|].
    split.
    + cbn [concat]. rewrite Hcat.
      replace (a + p)%nat with (p + a)%nat by lia.
      rewrite <- skipn_skipn. apply firstn_skipn.
    + cbn [fullButLast].
      assert (Hlen : length (firstn p (skipn a accounts))
                     = Nat.min p (length accounts - a))
        by (rewrite length_firstn, length_skipn; reflexivity).
      destruct cs as [|c cs'].
      * lia.
      * split; [|exact Hfull].
        destruct (Nat.le_gt_cases (length accounts) (a + p)) as [Hend|Hmore];
          [|lia].
        rewrite skipn_all2 in Hcat by lia.
        cbn [concat] in Hcat. apply app_eq_nil in Hcat as (Hc & _).
        subst c. cbn [fullButLast] in Hfull.
        destruct cs'; cbn in Hfull; lia.
  - exists []. rewrite app_nil_r. split; [reflexivity|].
    split; [|exact I]. cbn [concat]. symmetry. apply skipn_all2. lia.
Qed.

(** A bound of 0 never advances the loop: on a list that is not empty
    it has no result, whatever the number of iterations allowed. *)
Lemma chunkLoop_zero_diverges :
  forall (fuel : nat) (a : Account) (accounts : list Account)
         (chunks : list (list Account)),
    chunkLoop fuel (a :: accounts) (Num 0) (Num 0) chunks = None.
Proof.
  induction fuel as [|fuel IH]; intros a accounts chunks; [reflexivity|].
  cbn [chunkLoop]. unfold lt.
  destruct (Z.ltb_spec 0 (Z.of_nat (length (a :: accounts)))) as [H|H].
  - cbn [add Z.add]. apply IH.
  - cbn [length] in H. lia.
Qed.

(** *** Promise.all collects by position *)

Lemma fillSlot_nth_error :
  forall (A : Type) (slots : list (option A)) (i : nat) (v : A) (j : nat),
    nth_error (fillSlot i v slots) j
    = if Nat.eqb j i
      then option_map (fun _ => Some v) (nth_error slots j)
      else nth_error slots j.
Proof.
  induction slots as [|x slots IH]; intros i v j.
  - cbn [fillSlot]. destruct j as [|j]; cbn [nth_error option_map];
      destruct (Nat.eqb _ i); reflexivity.
  - destruct i as [|i]; destruct j as [|j]; cbn; try reflexivity.
    apply IH.
Qed.

Lemma fillSlot_length :
  forall (A : Type) (slots : list (option A)) (i : nat) (v : A),
    length (fillSlot i v slots) = length slots.
Proof.
  induction slots as [|x slots IH]; intros i v; [reflexivity|].
  destruct i as [|i]; cbn; [reflexivity|]. now rewrite IH.
Qed.

Lemma settle_slotsHold :
  forall (A : Type) (vals : list A) (D : nat -> bool)
         (slots : list (option A)) (i : nat),
    slotsHold vals D slots ->
    slotsHold vals (fun j => Nat.eqb j i || D j)
      (settle (map Some vals) slots i).
Proof.
  intros A vals D slots i H j. unfold settle.
  rewrite nth_error_map.
  destruct (nth_error vals i) as [v|] eqn:Hi; cbn [option_map].
  - rewrite fillSlot_nth_error.
    destruct (Nat.eqb_spec j i) as [->|Hne]; cbn [orb]; rewrite (H _);
      [|reflexivity].
    rewrite Hi. reflexivity.
  - rewrite (H j). destruct (Nat.eqb_spec j i) as [->|Hne]; cbn [orb];
      [|reflexivity].
    rewrite Hi. reflexivity.
Qed.

Lemma fold_settle_slotsHold :
  forall (A : Type) (vals : list A) (order : list nat) (D : nat -> bool)
         (slots : list (option A)),
    slotsHold vals D slots ->
    slotsHold vals (fun j => existsb (Nat.eqb j) order || D j)
      (fold_left (settle (map Some vals)) order slots).
Proof.
  intros A vals. induction order as [|i order IH]; intros D slots H.
  - exact H.
  - cbn [fold_left]. intros j.
    rewrite (IH _ _ (settle_slotsHold A vals D slots i H) j).
    cbn [existsb]. now rewrite orb_assoc, (orb_comm (existsb _ order)).
Qed.

Lemma allFilled_map_Some :
  forall (A : Type) (vals : list A), allFilled (map Some vals) = Some vals.
Proof.
  induction vals as [|v vals IH]; [reflexivity|]. cbn. now rewrite IH.
Qed.

Lemma allFilled_inv :
  forall (A : Type) (slots : list (option A)) (vals : list A),
    allFilled slots = Some vals -> slots = map Some vals.
Proof.
  induction slots as [|[v|] slots IH]; intros vals H; cbn in H.
  - injection H as <-. reflexivity.
  - destruct (allFilled slots) as [vs|] eqn:E; [|discriminate].
    injection H as <-. cbn. now rewrite (IH vs eq_refl).
  - discriminate.
Qed.

(** When every promise has a value and every one of them settles,
    [Promise.all] yields the values in the order of the promises,
    whatever the order in which they settled. *)
Lemma Promise_all_positional :
  forall (A : Type) (vals : list A) (order : list nat),
    (forall j, (j < length vals)%nat -> In j order) ->
    Promise_all (map Some vals) order = Some vals.
Proof.
  intros A vals order Hall. unfold Promise_all.
  rewrite <- (allFilled_map_Some A vals). f_equal.
  apply nth_error_ext. intros j.
  assert (H0 : slotsHold vals (fun _ => false)
                 (repeat None (length (map Some vals)))).
  { intros k. rewrite length_map.
    destruct (Nat.lt_ge_cases k (length vals)) as [Hk|Hk].
    - rewrite nth_error_repeat by exact Hk.
      destruct (nth_error vals k) eqn:E; [reflexivity|].
      apply nth_error_None in E. lia.
    - replace (nth_error vals k) with (@None A)
        by (symmetry; apply nth_error_None; exact Hk).
      apply nth_error_None. rewrite repeat_length. exact Hk. }
  rewrite (fold_settle_slotsHold A vals order _ _ H0 j), nth_error_map.
  destruct (nth_error vals j) as [v|] eqn:E; [|reflexivity].
  cbn [option_map]. rewrite orb_false_r.
  assert (Hj : (j < length vals)%nat)
    by (apply nth_error_Some; congruence).
  replace (existsb (Nat.eqb j) order) with true; [reflexivity|].
  symmetry. apply existsb_exists. exists j.
  split; [now apply Hall | apply Nat.eqb_refl].
Qed.

(** A slot is only ever filled with the value of the promise at its
    position. *)
Lemma fold_settle_sound :
  forall (A : Type) (promises : list (option A)) (order : list nat)
         (slots : list (option A)),
    length slots = length promises ->
    (forall j v, nth_error slots j = Some (Some v) ->
                 nth_error promises j = Some (Some v)) ->
    length (fold_left (settle promises) order slots) = length promises /\
    (forall j v,
        nth_error (fold_left (settle promises) order slots) j = Some (Some v) ->
        nth_error promises j = Some (Some v)).
Proof.
  intros A promises. induction order as [|i order IH]; intros slots Hlen Hs.
  - split; assumption.
  - cbn [fold_left]. apply IH.
    + unfold settle. destruct (nth_error promises i) as [[v|]|];
        [apply eq_trans with (2 := Hlen); apply fillSlot_length | | ];
        exact Hlen.
    + intros j v Hj. unfold settle in Hj.
      destruct (nth_error promises i) as [[v0|]|] eqn:Ei; try (now apply Hs).
      rewrite fillSlot_nth_error in Hj.
      destruct (Nat.eqb_spec j i) as [->|Hne]; [|now apply Hs].
      destruct (nth_error slots i); cbn in Hj; [|discriminate Hj].
      injection Hj as <-. exact Ei.
Qed.

(** Whatever the order of settlement, a value [Promise.all] yields is
    the list of the values of its promises: every one of them has
    one. *)
Lemma Promise_all_values :
  forall (A : Type) (promises : list (option A)) (vals : list A)
         (order : list nat),
    Promise_all promises order = Some vals -> promises = map Some vals.
Proof.
  intros A promises vals order H. unfold Promise_all in H.
  apply allFilled_inv in H.
  destruct (fold_settle_sound A promises order
              (repeat None (length promises))) as (Hlen & Hs).
  - apply repeat_length.
  - intros j v Hj. apply nth_error_In, repeat_spec in Hj. discriminate Hj.
  - rewrite H in Hlen, Hs. rewrite length_map in Hlen.
    apply nth_error_ext. intros j. rewrite nth_error_map.
    destruct (nth_error vals j) as [v|] eqn:E; cbn [option_map].
    + apply Hs. rewrite nth_error_map, E. reflexivity.
    + apply nth_error_None. apply nth_error_None in E. lia.
Qed.

(** *** The chunks run one after the other *)

Section BatchFacts.

Variable worlds : nat -> SpawnRequest -> nat -> Behaviour.
Variable completion : nat -> list nat.
Variable options : Options.

Lemma validations_combine :
  forall l base,
    map (fun ga => validation worlds options (fst ga) (snd ga))
        (combine (seq base (length l)) l)
    = validations worlds options base l.
Proof.
  induction l as [|a l IH]; intros base; [reflexivity|].
  cbn. now rewrite IH.
Qed.

Lemma validations_app :
  forall l1 l2 base,
    validations worlds options base (l1 ++ l2)
    = validations worlds options base l1 ++ validations worlds options (base + length l1) l2.
Proof.
  induction l1 as [|a l1 IH]; intros l2 base.
  - cbn. now rewrite Nat.add_0_r.
  - cbn. rewrite IH. now rewrite Nat.add_succ_r.
Qed.

Lemma validations_length :
  forall l base, length (validations worlds options base l) = length l.
Proof.
  induction l as [|a l IH]; intros base; [reflexivity|].
  cbn. now rewrite IH.
Qed.

(** Every validation returns when no child's stdin reports an error. *)
Lemma validations_total :
  (forall g req n, stdinQuiet (worlds g req n) = true) ->
  forall l base,
  exists vals, validations worlds options base l = map Some vals /\ length vals = length l.
Proof.
  intros Hq. induction l as [|a l IH]; intros base.
  - exists []. split; reflexivity.
  - destruct (IH (S base)) as (vals & Hv & Hl).
    destruct (testAccountDirect_returns (worlds base) a options [] (Hq base))
      as (r & log' & Hrun).
    exists (r :: vals). cbn. unfold validation at 1. rewrite Hrun, Hv.
    cbn. split; [reflexivity|now rewrite Hl].
Qed.

(** What a run of the chunks returns, if it returns. *)
Lemma runChunks_returned :
  forall chunks ci results trace R T,
    runChunks worlds completion options chunks ci results trace = Some (R, T) ->
    exists rs,
      R = results ++ rs /\
      T = trace ++ traceOf completion chunks ci (length results) /\
      map Some rs = validations worlds options (length results) (concat chunks).
Proof.
  induction chunks as [|c rest IH]; intros ci results trace R T H.
  - cbn in H. injection H as <- <-. exists []. cbn.
    now rewrite !app_nil_r.
  - cbn [runChunks] in H. rewrite validations_combine in H.
    destruct (Promise_all (validations worlds options (length results) c)
                (completion ci)) as [vals|] eqn:E; [|discriminate H].
    apply Promise_all_values in E.
    assert (Hl : length vals = length c).
    { apply (f_equal (@length _)) in E.
      rewrite validations_length, length_map in E. congruence. }
    apply IH in H as (rs & -> & -> & Hrs).
    rewrite length_app, Hl in Hrs.
    exists (vals ++ rs). split; [now rewrite app_assoc|]. split.
    + cbn [traceOf]. rewrite length_app, Hl. now rewrite <- !app_assoc.
    + cbn [concat]. rewrite map_app, validations_app, <- E, Hrs.
      reflexivity.
Qed.

(** It returns when no child's stdin reports an error and every
    validation of every chunk settles. *)
Lemma runChunks_returns :
  (forall g req n, stdinQuiet (worlds g req n) = true) ->
  forall chunks ci results trace,
    (forall k, (k < length chunks)%nat ->
               Permutation (completion (ci + k))
                           (seq 0 (length (nth k chunks [])))) ->
    exists R T,
      runChunks worlds completion options chunks ci results trace = Some (R, T).
Proof.
  intros Hq. induction chunks as [|c rest IH]; intros ci results trace Hperm.
  - eexists; eexists; reflexivity.
  - cbn [runChunks]. rewrite validations_combine.
    destruct (validations_total Hq c (length results)) as (vals & Hv & Hl).
    rewrite Hv, Promise_all_positional.
    + apply IH. intros k Hk. specialize (Hperm (S k)).
      rewrite Nat.add_succ_r in Hperm. cbn in Hperm. apply Hperm.
      cbn. lia.
    + intros j Hj. specialize (Hperm 0%nat). cbn in Hperm.
      rewrite Nat.add_0_r in Hperm.
      eapply Permutation_in; [apply Permutation_sym, Hperm; lia|].
      apply in_seq. lia.
Qed.

Lemma traceOf_started_ge :
  forall chunks ci base g,
    In (Started g) (traceOf completion chunks ci base) -> (base <= g)%nat.
Proof.
  induction chunks as [|c rest IH]; intros ci base g H; [contradiction|].
  cbn [traceOf] in H. rewrite !in_app_iff in H.
  destruct H as [[H|H]|H].
  - apply in_map_iff in H as (x & Hx & Hin). apply in_seq in Hin.
    inversion Hx. lia.
  - apply in_map_iff in H as (x & Hx & _). discriminate Hx.
  - apply IH in H. lia.
Qed.

(** At every moment of the run: once a validation at or beyond a
    chunk boundary has started, every validation before that
    boundary has finished. *)
Lemma traceOf_ordered :
  forall chunks ci base,
    (forall k, (k < length chunks)%nat ->
               Permutation (completion (ci + k))
                           (seq 0 (length (nth k chunks [])))) ->
    forall l1 l2 g g' k,
      traceOf completion chunks ci base = l1 ++ l2 ->
      In (Started g) l1 ->
      (base <= g')%nat ->
      (g' < base + length (concat (firstn k chunks)))%nat ->
      (base + length (concat (firstn k chunks)) <= g)%nat ->
      In (Finished g') l1.
Proof.
  induction chunks as [|c rest IH];
    intros ci base Hperm l1 l2 g g' k Heq Hin Hlo Hhi Hg.
  - cbn in Heq. symmetry in Heq. apply app_eq_nil in Heq as (-> & _).
    contradiction.
  - destruct k as [|k]; [cbn in Hhi; lia|].
    cbn [firstn concat] in Hhi, Hg. rewrite length_app in Hhi, Hg.
    cbn [traceOf] in Heq.
    apply app_eq_app in Heq as (l & [(H1 & H2)|(H1 & H2)]).
    + (* l1 stops inside this chunk: nothing beyond it has started *)
      exfalso.
      assert (Hin' : In (Started g)
                       (map Started (seq base (length c))
                          ++ map (fun j => Finished (base + j)) (completion ci)))
        by (rewrite H1; apply in_or_app; now left).
      apply in_app_iff in Hin' as [H|H].
      * apply in_map_iff in H as (x & Hx & Hs). apply in_seq in Hs.
        inversion Hx. lia.
      * apply in_map_iff in H as (x & Hx & _). discriminate Hx.
    + (* l1 covers this chunk and a part [l] of the following ones *)
      subst l1.
      destruct (Nat.lt_ge_cases g' (base + length c)) as [Hthis|Hlater].
      * apply in_or_app. left. apply in_or_app. right.
        apply in_map_iff. exists (g' - base)%nat. split; [f_equal; lia|].
        specialize (Hperm 0%nat). rewrite Nat.add_0_r in Hperm.
        cbn in Hperm.
        eapply Permutation_in; [apply Permutation_sym, Hperm; lia|].
        apply in_seq. lia.
      * apply in_or_app. right.
        apply (IH (S ci) (base + length c)%nat) with (l2 := l2) (g := g) (k := k).
        -- intros j Hj. specialize (Hperm (S j)).
           rewrite Nat.add_succ_r in Hperm. cbn in Hperm. apply Hperm.
           cbn. lia.
        -- exact H2.
        -- apply in_app_iff in Hin as [Hin|Hin]; [|exact Hin].
           exfalso. apply in_app_iff in Hin as [H|H].
           ++ apply in_map_iff in H as (x & Hx & Hs). apply in_seq in Hs.
              inversion Hx. lia.
           ++ apply in_map_iff in H as (x & Hx & _). discriminate Hx.
        -- exact Hlater.
        -- lia.
        -- lia.
Qed.

End BatchFacts.

(** C6.  For every account list and every concurrency bound P of at
    least 1, the batch cuts the list into ordered chunks of size P (the
    last one may be shorter); and whatever the order in which the
    validations of each chunk complete, the results of a batch that
    returns are the validations of the accounts in input order, and no
    validation of a chunk starts before every validation of the chunks
    before it has finished.  The batch returns whenever no child's
    stdin reports an error. *)
Theorem batch_chunks_in_order :
  forall (worlds : nat -> SpawnRequest -> nat -> Behaviour)
         (fuel : nat) (accounts : list Account) (options : Options) (P : Z),
    parallel options = Num P ->
    (1 <= P)%Z ->
    (length accounts < fuel)%nat ->
    exists chunks,
      chunkLoop fuel accounts (parallel options) (Num 0) [] = Some chunks /\
      concat chunks = accounts /\
      fullButLast (Z.to_nat P) chunks /\
      forall completion : nat -> list nat,
        (forall ci, (ci < length chunks)%nat ->
                    Permutation (completion ci)
                                (seq 0 (length (nth ci chunks [])))) ->
        (forall results trace,
            batchTest worlds completion fuel accounts options
              = Some (results, trace) ->
            map Some results = validations worlds options 0 accounts /\
            length results = length accounts /\
            (forall l1 l2 g g' k,
                trace = l1 ++ l2 ->
                In (Started g) l1 ->
                (g' < length (concat (firstn k chunks)) <= g)%nat ->
                In (Finished g') l1)) /\
        ((forall g req n, stdinQuiet (worlds g req n) = true) ->
         exists results trace,
           batchTest worlds completion fuel accounts options
             = Some (results, trace)).
Proof.
  intros worlds fuel accounts options P HP Hpos Hfuel.
  destruct (chunkLoop_from accounts (Z.to_nat P) ltac:(lia) fuel 0 [])
    as (chunks & Hloop & Hcat & Hfull); [lia|].
  rewrite Z2Nat.id in Hloop by lia. cbn in Hloop, Hcat.
  exists chunks. rewrite HP.
  split; [exact Hloop|]. split; [exact Hcat|]. split; [exact Hfull|].
  intros completion Hperm. unfold batchTest. rewrite HP, Hloop. split.
  - intros results trace Hrun.
    apply runChunks_returned in Hrun as (rs & -> & -> & Hrs).
    cbn in Hrs |- *. rewrite Hcat in Hrs.
    split; [exact Hrs|]. split.
    + apply (f_equal (@length _)) in Hrs.
      rewrite length_map, validations_length in Hrs. exact Hrs.
    + intros l1 l2 g g' k Heq Hin [Hlo Hhi].
      apply (traceOf_ordered completion chunks 0 0 Hperm l1 l2 g g' k Heq Hin);
        cbn; lia.
  - intros Hq.
    apply (runChunks_returns worlds completion options Hq chunks 0 [] []).
    exact Hperm.
Qed.

Lemma batch_chunks_in_order_witness :
  parallel twoAtATime = Num 2 /\ (1 <= 2)%Z /\
  (length threeAccounts < 4)%nat /\
  exists results trace,
    batchTest sameWorld secondFirst 4 threeAccounts twoAtATime
      = Some (results, trace) /\
    map Some results = validations sameWorld twoAtATime 0 threeAccounts.
Proof.
  split; [reflexivity|]. split; [lia|]. split; [cbn; lia|].
  destruct (batch_chunks_in_order sameWorld 4 threeAccounts twoAtATime 2
              eq_refl ltac:(lia) ltac:(cbn; lia))
    as (chunks & Hloop & _ & _ & Hbatch).
  vm_compute in Hloop. injection Hloop as <-.
  destruct (Hbatch secondFirst) as (Hreturned & Hreturns).
  - intros ci Hci. destruct ci as [|[|ci]]; cbn.
    + apply perm_swap.
    + apply Permutation_refl.
    + cbn in Hci. lia.
  - destruct (Hreturns (fun _ _ _ => eq_refl)) as (results & trace & Hrun).
    exists results, trace. split; [exact Hrun|].
    now apply (Hreturned results trace).
Defined.

(** ** The credential in the report *)

Lemma startsWith_app : forall k rest, startsWith (k ++ rest) k = true.
Proof.
  induction k as [|c k IH]; intros rest; [destruct rest; reflexivity|].
  cbn. now rewrite N.eqb_refl, IH.
Qed.

Lemma startsWith_includes :
  forall s k, startsWith s k = true -> includes s k = true.
Proof. intros s k H. destruct s; cbn in *; rewrite H; reflexivity. Qed.

Lemma includes_app_l :
  forall a s k, includes s k = true -> includes (a ++ s) k = true.
Proof.
  induction a as [|c a IH]; intros s k H; [exact H|].
  cbn. rewrite (IH s k H). apply orb_true_r.
Qed.

Lemma startsWith_app_r :
  forall s k b, startsWith s k = true -> startsWith (s ++ b) k = true.
Proof.
  induction s as [|c s IH]; intros k b H.
  - destruct k; [destruct b; reflexivity | discriminate H].
  - destruct k as [|d k]; [reflexivity|]. cbn in *.
    apply andb_prop in H as (H1 & H2). rewrite H1. cbn. now apply IH.
Qed.

Lemma includes_app_r :
  forall s b k, includes s k = true -> includes (s ++ b) k = true.
Proof.
  induction s as [|c s IH]; intros b k H.
  - cbn in H. rewrite orb_false_r in H.
    apply startsWith_includes. change b with ([] ++ b).
    now apply startsWith_app_r.
  - cbn in H. apply orb_prop in H as [H|H].
    + apply startsWith_includes. now apply startsWith_app_r.
    + cbn [app includes]. rewrite (IH b k H). apply orb_true_r.
Qed.

Lemma includes_middle :
  forall a s b k, includes s k = true -> includes (a ++ s ++ b) k = true.
Proof. intros. apply includes_app_l. now apply includes_app_r. Qed.

Lemma includes_self : forall k, includes k k = true.
Proof.
  intros k. apply startsWith_includes.
  rewrite <- (app_nil_r k) at 1. apply startsWith_app.
Qed.

Lemma csvField_includes : forall k, includes (csvField k) k = true.
Proof.
  intros k. unfold csvField. destruct (includes k comma).
  - apply includes_middle, includes_self.
  - apply includes_self.
Qed.

Lemma csvRow_includes_fullKey :
  forall r, includes (csvRow r) (fullKey r) = true.
Proof.
  intros r. unfold csvRow.
  rewrite (app_assoc (csvField (r_name r))), (app_assoc _ (csvField (r_url r))),
    (app_assoc _ comma (csvField (fullKey r) ++ _)).
  apply includes_middle, csvField_includes.
Qed.

Lemma join_middle :
  forall sep before x after,
  exists a b, join sep (before ++ x :: after) = a ++ x ++ b.
Proof.
  intros sep. induction before as [|y before IH]; intros x after.
  - exists []. destruct after as [|z after].
    + exists []. cbn. now rewrite app_nil_r.
    + eexists. cbn [app join]. reflexivity.
  - destruct (IH x after) as (a & b & H).
    exists (y ++ sep ++ a), b. cbn [app join].
    destruct (before ++ x :: after) eqn:E.
    + destruct before; discriminate E.
    + rewrite H. now rewrite <- !app_assoc.
Qed.

(** ** The webhook address *)

Lemma setters_keep_webhook :
  forall a o, dingTalkWebhook (loneArg a o) = dingTalkWebhook o.
Proof.
  intros a o. unfold loneArg.
  repeat match goal with
         | |- context [if ?c then _ else _] => destruct c
         end; reflexivity.
Qed.

Lemma argLoop_two :
  forall (parseInt : jsstring -> jsnum) a v rest o,
    argLoop parseInt (a :: v :: rest) o
    = if streq a (lit "--timeout") && truthy v
      then argLoop parseInt rest (setTimeout (parseInt v) o)
      else if streq a (lit "--parallel") && truthy v
      then argLoop parseInt rest (setParallel (parseInt v) o)
      else if streq a (lit "--verbose")
      then argLoop parseInt (v :: rest) (setVerbose o)
      else if streq a (lit "--dingtalk-webhook") && truthy v
      then argLoop parseInt rest (setWebhook v o)
      else if streq a (lit "--dingtalk-secret") && truthy v
      then argLoop parseInt rest (setSecret v o)
      else argLoop parseInt (v :: rest) (loneArg a o).
Proof. reflexivity. Qed.

(** The loop never leaves the webhook address empty. *)
Lemma argLoop_webhook_truthy :
  forall (parseInt : jsstring -> jsnum) (n : nat) (args : list jsstring)
         (o : Options),
    (length args <= n)%nat ->
    truthy (dingTalkWebhook o) = true ->
    truthy (dingTalkWebhook (argLoop parseInt args o)) = true.
Proof.
  intros parseInt. induction n as [|n IH]; intros args o Hlen Ho.
  - destruct args; [exact Ho | cbn in Hlen; lia].
  - destruct args as [|a [|v rest]]; [exact Ho | |].
    + cbn [argLoop]. now rewrite setters_keep_webhook.
    + rewrite argLoop_two. cbn [length] in Hlen.
      destruct (streq a (lit "--timeout") && truthy v);
        [apply IH; [lia|exact Ho]|].
      destruct (streq a (lit "--parallel") && truthy v);
        [apply IH; [lia|exact Ho]|].
      destruct (streq a (lit "--verbose"));
        [apply IH; [cbn [length]; lia|exact Ho]|].
      destruct (streq a (lit "--dingtalk-webhook") && truthy v) eqn:Hw;
        [apply IH; [lia|]; apply andb_prop in Hw as (_ & Hv); exact Hv|].
      destruct (streq a (lit "--dingtalk-secret") && truthy v);
        [apply IH; [lia|exact Ho]|].
      apply IH; [cbn [length]; lia|].
      now rewrite setters_keep_webhook.
Qed.

(** What [parseArgs] does with the environment. *)
Lemma parseArgs_webhook :
  forall (parseInt : jsstring -> jsnum) (env : jsstring -> option jsstring)
         (args : list jsstring),
    option_map dingTalkWebhook (parseArgs parseInt env args)
    = if truthyOpt (configFile (argLoop parseInt args defaultOptions))
      then Some (dingTalkWebhook (argLoop parseInt args defaultOptions))
      else None.
Proof.
  intros parseInt env args. unfold parseArgs.
  destruct (truthyOpt (configFile (argLoop parseInt args defaultOptions)));
    [|reflexivity].
  cbn [negb option_map].
  rewrite (argLoop_webhook_truthy parseInt (length args) args defaultOptions
             (Nat.le_refl _) eq_refl).
  cbn [negb andb].
  destruct (negb (truthyOpt (dingTalkSecret (argLoop parseInt args defaultOptions)))
            && truthyOpt (env (lit "DINGTALK_SECRET"))); [|reflexivity].
  destruct (env (lit "DINGTALK_SECRET")); reflexivity.
Qed.

(** C8.  What the code does where the claim asks for the environment
    variable: with no [--dingtalk-webhook] argument and
    [DINGTALK_WEBHOOK] set, [parseArgs] keeps the address written in
    the source; in every run the webhook it returns is the one it
    returns under an empty environment.  The secret, whose default is
    [null], is taken from [DINGTALK_SECRET] as the comment in the code
    announces for both. *)
Theorem webhook_environment_variable_is_never_read :
  (forall (parseInt : jsstring -> jsnum),
      option_map dingTalkWebhook
        (parseArgs parseInt dingTalkEnv [lit "accounts.csv"])
        = Some defaultWebhook /\
      option_map dingTalkSecret
        (parseArgs parseInt dingTalkEnv [lit "accounts.csv"])
        = Some (Some (lit "SECfromenv"))) /\
  (forall (parseInt : jsstring -> jsnum) (env : jsstring -> option jsstring)
          (args : list jsstring),
      option_map dingTalkWebhook (parseArgs parseInt env args)
      = option_map dingTalkWebhook (parseArgs parseInt (fun _ => None) args)).
Proof.
  split.
  - intros parseInt. split; vm_compute; reflexivity.
  - intros parseInt env args. now rewrite !parseArgs_webhook.
Qed.

(** ** The notification text *)

Lemma slice_first_ten :
  forall (A : Type) (l : list A), slice (Num 0) (Num 10) l = firstn 10 l.
Proof. intros A l. exact (slice_window A l 0 10 (Nat.le_0_l _)). Qed.

Lemma fold_failedLine_extends :
  forall l m, exists t, fold_left failedLine l m = m ++ t.
Proof.
  induction l as [|acc l IH]; intros m.
  - exists []. cbn. now rewrite app_nil_r.
  - cbn [fold_left]. destruct (IH (failedLine m acc)) as (t & Ht).
    rewrite Ht. unfold failedLine. rewrite <- !app_assoc. eexists. reflexivity.
Qed.

Lemma fold_partialLine_extends :
  forall l m, exists t, fold_left partialLine l m = m ++ t.
Proof.
  induction l as [|acc l IH]; intros m.
  - exists []. cbn. now rewrite app_nil_r.
  - cbn [fold_left]. destruct (IH (partialLine m acc)) as (t & Ht).
    rewrite Ht. unfold partialLine. rewrite <- !app_assoc. eexists. reflexivity.
Qed.

Lemma includes_here :
  forall a k b, includes (a ++ k ++ b) k = true.
Proof. intros. apply includes_middle, includes_self. Qed.

(** With more than ten fully failed accounts the text has the line that
    counts the others. *)
Lemma failed_remainder_line :
  forall timestamp results stats,
    (10 < length (withStatus both_failed results))%nat ->
    includes (text (buildNotificationMessage timestamp results stats))
      (moreHead
         ++ nat_toString (length (withStatus both_failed results) - 10)
         ++ moreFailedTail) = true.
Proof.
  intros timestamp results stats Hlen. unfold buildNotificationMessage.
  set (bf := withStatus both_failed results) in *.
  set (so := withStatus sonnet_only results).
  replace (length bf =? 0)%nat with false by (symmetry; apply Nat.eqb_neq; lia).
  replace (0 <? length bf)%nat with true by (symmetry; apply Nat.ltb_lt; lia).
  replace (10 <? length bf)%nat with true by (symmetry; apply Nat.ltb_lt; lia).
  cbn [andb text].
  set (line := moreHead ++ nat_toString (length bf - 10) ++ moreFailedTail).
  match goal with
  | |- context [fold_left failedLine ?l ?m] => set (body := fold_left failedLine l m)
  end.
  replace (body ++ moreHead ++ nat_toString (length bf - 10) ++ moreFailedTail)
    with (body ++ line) by reflexivity.
  destruct (0 <? length so)%nat.
  - match goal with
    | |- context [fold_left partialLine ?l ?m] =>
        destruct (fold_partialLine_extends l m) as (t & ->)
    end.
    destruct (10 <? length so)%nat; rewrite <- !app_assoc; apply includes_here.
  - rewrite <- !app_assoc. apply includes_here.
Qed.

(** The same for the partially failed accounts. *)
Lemma partial_remainder_line :
  forall timestamp results stats,
    (10 < length (withStatus sonnet_only results))%nat ->
    includes (text (buildNotificationMessage timestamp results stats))
      (moreHead
         ++ nat_toString (length (withStatus sonnet_only results) - 10)
         ++ morePartialTail) = true.
Proof.
  intros timestamp results stats Hlen. unfold buildNotificationMessage.
  set (bf := withStatus both_failed results).
  set (so := withStatus sonnet_only results) in *.
  replace (length so =? 0)%nat with false by (symmetry; apply Nat.eqb_neq; lia).
  replace (0 <? length so)%nat with true by (symmetry; apply Nat.ltb_lt; lia).
  replace (10 <? length so)%nat with true by (symmetry; apply Nat.ltb_lt; lia).
  rewrite andb_false_r. cbn [text].
  set (line := moreHead ++ nat_toString (length so - 10) ++ morePartialTail).
  match goal with
  | |- context [fold_left partialLine ?l ?m] => set (body := fold_left partialLine l m)
  end.
  replace (body ++ moreHead ++ nat_toString (length so - 10) ++ morePartialTail)
    with (body ++ line) by reflexivity.
  rewrite <- app_assoc. apply includes_here.
Qed.

(** C10.  The two loops of [buildNotificationMessage] run over at most
    ten accounts each, the first ten fully failed and the first ten
    partially failed results in input order; the message is the same
    for two result lists that agree on those first ten and on the
    number of results in each category, so an account beyond the tenth
    reaches the text through the count only, never by its name; and
    when a category has more than ten accounts the text has the line
    that counts the others. *)
Theorem notification_names_first_ten_only :
  forall (timestamp : jsstring) (stats : Stats)
         (results results' : list AccountResult),
    firstn 10 (withStatus both_failed results)
      = firstn 10 (withStatus both_failed results') ->
    length (withStatus both_failed results)
      = length (withStatus both_failed results') ->
    firstn 10 (withStatus sonnet_only results)
      = firstn 10 (withStatus sonnet_only results') ->
    length (withStatus sonnet_only results)
      = length (withStatus sonnet_only results') ->
    buildNotificationMessage timestamp results stats
      = buildNotificationMessage timestamp results' stats /\
    slice (Num 0) (Num 10) (withStatus both_failed results)
      = firstn 10 (withStatus both_failed results) /\
    slice (Num 0) (Num 10) (withStatus sonnet_only results)
      = firstn 10 (withStatus sonnet_only results) /\
    (length (slice (Num 0) (Num 10) (withStatus both_failed results)) <= 10)%nat /\
    (length (slice (Num 0) (Num 10) (withStatus sonnet_only results)) <= 10)%nat /\
    ((10 < length (withStatus both_failed results))%nat ->
     includes (text (buildNotificationMessage timestamp results stats))
       (moreHead
          ++ nat_toString (length (withStatus both_failed results) - 10)
          ++ moreFailedTail) = true) /\
    ((10 < length (withStatus sonnet_only results))%nat ->
     includes (text (buildNotificationMessage timestamp results stats))
       (moreHead
          ++ nat_toString (length (withStatus sonnet_only results) - 10)
          ++ morePartialTail) = true).
Proof.
  intros timestamp stats results results' Hf Hfl Hp Hpl.
  split; [|split; [|split; [|split; [|split; [|split]]]]].
  - unfold buildNotificationMessage.
    rewrite !slice_first_ten, Hf, Hfl, Hp, Hpl. reflexivity.
  - apply slice_first_ten.
  - apply slice_first_ten.
  - rewrite slice_first_ten. apply firstn_le_length.
  - rewrite slice_first_ten. apply firstn_le_length.
  - apply failed_remainder_line.
  - apply partial_remainder_line.
Qed.

Lemma notification_names_first_ten_only_witness :
  firstn 10 (withStatus both_failed
               (repeat (timedOut (lit "early")) 10 ++ [timedOut (lit "eleventh")]))
    = firstn 10 (withStatus both_failed
               (repeat (timedOut (lit "early")) 10 ++ [timedOut (lit "another")])) /\
  buildNotificationMessage (lit "2025/9/1 08:00:00")
    (repeat (timedOut (lit "early")) 10 ++ [timedOut (lit "eleventh")])
    (mkStats 11 0 0 11)
  = buildNotificationMessage (lit "2025/9/1 08:00:00")
      (repeat (timedOut (lit "early")) 10 ++ [timedOut (lit "another")])
      (mkStats 11 0 0 11).
Proof.
  split; [reflexivity|].
  exact (proj1 (notification_names_first_ten_only
                  (lit "2025/9/1 08:00:00") (mkStats 11 0 0 11)
                  (repeat (timedOut (lit "early")) 10 ++ [timedOut (lit "eleventh")])
                  (repeat (timedOut (lit "early")) 10 ++ [timedOut (lit "another")])
                  eq_refl eq_refl eq_refl eq_refl)).
Defined.

(** ** The scenarios of section 8 of the specification, run on the model *)

(** A tool that exits with 0 after printing one line: success, the
    preview is the line, the speed follows the elapsed time. *)
Example mock_answer_is_a_success :
  option_map (fun r => (status r, response r, speed r, responseTime r))
    (promiseValue
       (probe (lit "model-x") (setTimeout (Num 5000) defaultOptions)
          (mkBehaviour 100
             [(1300%Z, Stdout (lit "I am Model X, fast and accurate"));
              (1400%Z, CloseEv (Some 0%Z))] false false false)))
  = Some (success, Some (lit "I am Model X, fast and accurate"),
          Some VeryFast, 1300%Z).
Proof. vm_compute. reflexivity. Qed.

(** A tool that exits with 1 and "401 unauthorized" on stderr. *)
Example mock_unauthorized_is_auth_failed :
  option_map (fun r => (status r, errorType r, error r))
    (promiseValue
       (probe (lit "model-x") defaultOptions
          (mkBehaviour 0
             [(300%Z, Stderr (lit "401 unauthorized"));
              (350%Z, CloseEv (Some 1%Z))] false false false)))
  = Some (failed, Some AuthFailed, Some msgAuth).
Proof. vm_compute. reflexivity. Qed.

(** A tool that never exits and never writes, with a timeout of 200 ms:
    the probe kills it and fails with Timeout. *)
Example mock_hang_times_out :
  option_map (fun r => (status r, errorType r, responseTime r))
    (promiseValue
       (probe (lit "model-x") (setTimeout (Num 200) defaultOptions)
          (mkBehaviour 0 [] false false false)))
  = Some (failed, Some Timeout, 200%Z) /\
  killed (probe (lit "model-x") (setTimeout (Num 200) defaultOptions)
            (mkBehaviour 0 [] false false false)) = true.
Proof. split; vm_compute; reflexivity. Qed.

(** A tool that exits at the very instant of the timeout: one result,
    the timeout if the timer runs first and the exit otherwise. *)
Example mock_exit_at_the_timeout_instant :
  map errorType
    (resolved
       (probe (lit "model-x") (setTimeout (Num 200) defaultOptions)
          (mkBehaviour 0 [(200%Z, CloseEv (Some 1%Z))] true false false)))
  = [Some Timeout] /\
  map errorType
    (resolved
       (probe (lit "model-x") (setTimeout (Num 200) defaultOptions)
          (mkBehaviour 0 [(200%Z, CloseEv (Some 1%Z))] false false false)))
  = [Some ProcessError].
Proof. split; vm_compute; reflexivity. Qed.

(** [--parallel 2] on three accounts gives a chunk of two and a chunk
    of one; a bound that [parseInt] could not read (NaN) gives one
    empty chunk, and so an empty batch. *)
Example chunks_of_three_accounts :
  chunkLoop 4 threeAccounts (Num 2) (Num 0) []
  = Some [firstn 2 threeAccounts; skipn 2 threeAccounts] /\
  chunkLoop 4 threeAccounts NaN (Num 0) [] = Some [[]].
Proof. split; vm_compute; reflexivity. Qed.

(* ================================================================== *)
(** * Further properties of the probes *)

Lemma substring_length :
  forall a b s, (length (substring a b s) <= b - a)%nat.
Proof. intros. unfold substring. rewrite length_firstn. lia. Qed.

Lemma onClose_wellFormed :
  forall m now code p,
    fresh m p ->
    exists r, resolved (onClose now code p) = [r] /\ wellFormed m r /\
              hasResponded (onClose now code p) = true.
Proof.
  intros m now code p (H1 & H2 & H3 & H4). unfold onClose.
  rewrite H1, H4. cbn [result initProc model error response speed
                        actualModel errorType].
  destruct (closeIsSuccess code (output p)).
  - eexists. cbn. rewrite H2. split; [reflexivity|]. split; [|reflexivity].
    split; [reflexivity|]. left. repeat split; try discriminate.
    eexists. split; [reflexivity|]. apply (substring_length 0 200).
  - eexists. cbn. rewrite H2. split; [reflexivity|]. split; [|reflexivity].
    split; [reflexivity|]. right. repeat split; discriminate.
Qed.

Lemma step_fresh :
  forall m te p,
    fresh m p ->
    fresh m (step te p) \/
    (hasResponded (step te p) = true /\
     exists r, resolved (step te p) = [r] /\ wellFormed m r).
Proof.
  intros m [t ev] p Hf. pose proof Hf as (H1 & H2 & H3 & H4).
  unfold step; cbn [fst snd].
  destruct (uncaught p); [now left|].
  destruct ev as [[d|d|code|msg|msg']| |th].
  - left. repeat split; assumption.
  - left. repeat split; assumption.
  - right. destruct (onClose_wellFormed m t code p Hf) as (r & Hr & Hw & Hh).
    split; [exact Hh|]. exists r. auto.
  - right. unfold onError. rewrite H1, H4. cbn. rewrite H2.
    split; [reflexivity|]. eexists. split; [reflexivity|].
    split; [reflexivity|]. right. repeat split; discriminate.
  - left. destruct (onStdinError_cases p) as [->| ->];
      repeat split; assumption.
  - right. rewrite H3. unfold onTimeout. rewrite H1, H4. cbn. rewrite H2.
    split; [reflexivity|]. eexists. split; [reflexivity|].
    split; [reflexivity|]. right. repeat split; discriminate.
  - left. unfold onPromptTimer. rewrite H1. cbn.
    destruct th; repeat split; assumption.
Qed.

Lemma run_keeps_responded :
  forall l p, hasResponded p = true -> hasResponded (run p l) = true.
Proof.
  induction l as [|te l IH]; intros p Hp; [exact Hp|].
  rewrite run_cons. apply IH.
  destruct (step_keeps_stdin te p (or_intror Hp)) as (_ & _ & Hk).
  now apply Hk.
Qed.

Lemma run_fresh :
  forall m l p,
    fresh m p ->
    fresh m (run p l) \/
    (hasResponded (run p l) = true /\
     exists r, resolved (run p l) = [r] /\ wellFormed m r).
Proof.
  intros m. induction l as [|te l IH]; intros p Hf; [left; exact Hf|].
  rewrite run_cons. destruct (step_fresh m te p Hf) as [Hf'|(Hh & r & Hr & Hw)].
  - now apply IH.
  - right. assert (Hlen : length (resolved (step te p)) = 1%nat)
      by now rewrite Hr.
    pose proof (run_done l (step te p) Hh Hlen) as Hsame.
    split; [now apply run_keeps_responded|].
    exists r. rewrite Hsame. auto.
Qed.

(** X1.  Every result a probe of the batch checker resolves with is a
    result for the model it was asked about that is either a success
    with a preview of at most 200 code units, a speed and no error, or
    a failure with an error kind and an error text and neither preview
    nor speed. *)
Theorem probe_result_is_well_formed :
  forall (modelName : jsstring) (options : Options) (b : Behaviour)
         (r : Result),
    promiseValue (probe modelName options b) = Some r ->
    wellFormed modelName r.
Proof.
  intros m options b r H. unfold probe, promiseValue in H.
  assert (Hf : fresh m (initProc m (spawnTime b))) by (repeat split).
  destruct (run_fresh m (eventLoop (timeout options) b) _ Hf)
    as [(_ & Hnil & _)|(_ & r' & Hr & Hw)].
  - rewrite Hnil in H. discriminate H.
  - rewrite Hr in H. cbn in H. injection H as <-. exact Hw.
Qed.

Lemma probe_result_is_well_formed_witness :
  exists r,
    promiseValue (probe sonnetModel defaultOptions warningChild) = Some r /\
    wellFormed sonnetModel r.
Proof.
  eexists. split; [reflexivity|].
  exact (probe_result_is_well_formed sonnetModel defaultOptions warningChild
           _ eq_refl).
Defined.

Lemma step_keeps_killed :
  forall te p,
    (killed p = true -> killed (step te p) = true) /\
    (hasResponded p = true -> killed (step te p) = killed p).
Proof.
  intros [t ev] p. unfold step; cbn [fst snd].
  destruct (uncaught p); [auto|].
  destruct ev as [[d|d|code|msg|msg']| |th]; cbn.
  - auto.
  - auto.
  - unfold onClose. destruct (hasResponded p); [auto|].
    destruct (closeIsSuccess code (output p)); cbn; split; auto; discriminate.
  - unfold onError. destruct (hasResponded p); cbn; split; auto; discriminate.
  - destruct (onStdinError_cases p) as [->| ->]; cbn; auto.
  - destruct (timerCleared p); [auto|]. unfold onTimeout.
    destruct (hasResponded p); cbn; split; auto; discriminate.
  - unfold onPromptTimer. destruct (hasResponded p); cbn; [auto|].
    destruct th; cbn; split; auto; discriminate.
Qed.

Lemma run_keeps_killed_true :
  forall l p, killed p = true -> killed (run p l) = true.
Proof.
  induction l as [|te l IH]; intros p H; [exact H|].
  rewrite run_cons. apply IH. now apply (proj1 (step_keeps_killed te p)).
Qed.

Lemma run_responded_keeps_killed :
  forall l p, hasResponded p = true -> killed (run p l) = killed p.
Proof.
  induction l as [|te l IH]; intros p H; [reflexivity|].
  rewrite run_cons. rewrite IH.
  - now apply (proj2 (step_keeps_killed te p)).
  - destruct (step_keeps_stdin te p (or_intror H)) as (_ & _ & Hk).
    now apply Hk.
Qed.

Lemma run_data_keeps_killed :
  forall pre p, forallb (isData true) pre = true -> killed (run p pre) = killed p.
Proof.
  induction pre as [|[t ev] pre IH]; intros p Hd; [reflexivity|].
  cbn [forallb] in Hd. apply andb_prop in Hd as (Hd1 & Hd2).
  rewrite run_cons, (IH _ Hd2). unfold step; cbn [fst snd].
  destruct (uncaught p); [reflexivity|].
  unfold isData in Hd1; cbn [snd] in Hd1.
  destruct ev as [[d|d|code|msg|msg']| |th]; try discriminate; cbn; try reflexivity.
  unfold onPromptTimer. destruct (hasResponded p); cbn; [reflexivity|].
  destruct th; reflexivity.
Qed.

(** X2.  When the timeout timer of a probe of the batch checker runs
    before the child has closed or reported an error, the probe kills
    the child and resolves with a failure of kind Timeout whose elapsed
    time is the clock reading of the timer's callback less the one of
    the spawn. *)
Theorem timeout_kills_and_fails :
  forall (modelName : jsstring) (options : Options) (b : Behaviour)
         (pre rest : list (Z * Event)) (t : Z),
    eventLoop (timeout options) b = pre ++ (t, TimeoutFired) :: rest ->
    forallb (isData true) pre = true ->
    killed (probe modelName options b) = true /\
    exists r,
      promiseValue (probe modelName options b) = Some r /\
      status r = failed /\ errorType r = Some Timeout /\
      error r = Some msgTimeout /\
      responseTime r = (t - spawnTime b)%Z.
Proof.
  intros m options b pre rest t Hloop Hd.
  pose proof (run_data pre (initProc m (spawnTime b)) eq_refl eq_refl Hd)
    as (H1 & H2 & H3 & H4 & H5 & H6 & H7 & H8).
  cbn in H1, H2, H3, H4, H5, H6.
  unfold probe. rewrite Hloop, run_app, run_cons.
  set (q := run (initProc m (spawnTime b)) pre) in *.
  assert (Hstep : step (t, TimeoutFired) q = onTimeout t q)
    by (unfold step; rewrite H6; cbn [fst snd]; now rewrite H3).
  rewrite Hstep. unfold onTimeout. rewrite H1, H4, H5. split.
  - apply run_keeps_killed_true. reflexivity.
  - eexists. split.
    + unfold promiseValue. rewrite run_done.
      * cbn. rewrite H2. reflexivity.
      * reflexivity.
      * cbn. rewrite H2. reflexivity.
    + cbn. repeat split.
Qed.

Lemma timeout_kills_and_fails_witness :
  eventLoop (timeout defaultOptions) hangingChild
    = [(1000%Z, PromptTimerFired false)] ++ (45000%Z, TimeoutFired) :: [] /\
  killed (probe sonnetModel defaultOptions hangingChild) = true /\
  exists r,
    promiseValue (probe sonnetModel defaultOptions hangingChild) = Some r /\
    status r = failed /\ errorType r = Some Timeout /\
    error r = Some msgTimeout /\
    responseTime r = (45000 - spawnTime hangingChild)%Z.
Proof.
  split; [reflexivity|].
  exact (timeout_kills_and_fails sonnetModel defaultOptions hangingChild
           [(1000%Z, PromptTimerFired false)] [] 45000%Z eq_refl eq_refl).
Defined.

(** X3.  When the child reports that it could not be launched before
    anything else has ended the probe, the probe of the batch checker
    resolves with a failure of kind LaunchFailed that carries the
    system's message, and it never kills the child: the timeout is
    cleared. *)
Theorem launch_error_is_reported :
  forall (modelName : jsstring) (options : Options) (b : Behaviour)
         (pre rest : list (Z * Event)) (t : Z) (message : jsstring),
    eventLoop (timeout options) b
      = pre ++ (t, FromChild (ErrorEv message)) :: rest ->
    forallb (isData true) pre = true ->
    killed (probe modelName options b) = false /\
    exists r,
      promiseValue (probe modelName options b) = Some r /\
      status r = failed /\ errorType r = Some LaunchFailed /\
      error r = Some (msgLaunch ++ message) /\
      responseTime r = (t - spawnTime b)%Z.
Proof.
  intros m options b pre rest t msg Hloop Hd.
  pose proof (run_data pre (initProc m (spawnTime b)) eq_refl eq_refl Hd)
    as (H1 & H2 & H3 & H4 & H5 & H6 & H7 & H8).
  cbn in H1, H2, H3, H4, H5, H6.
  pose proof (run_data_keeps_killed pre (initProc m (spawnTime b)) Hd) as Hk.
  cbn in Hk.
  unfold probe. rewrite Hloop, run_app, run_cons.
  set (q := run (initProc m (spawnTime b)) pre) in *.
  unfold step; rewrite H6; cbn [fst snd]. unfold onError. rewrite H1, H4, H5. split.
  - rewrite run_responded_keeps_killed by reflexivity. cbn. exact Hk.
  - eexists. split.
    + unfold promiseValue. rewrite run_done.
      * cbn. rewrite H2. reflexivity.
      * reflexivity.
      * cbn. rewrite H2. reflexivity.
    + cbn. repeat split.
Qed.

Lemma launch_error_is_reported_witness :
  eventLoop (timeout defaultOptions) missingBinary
    = [] ++ (1%Z, FromChild (ErrorEv (lit "spawn claude ENOENT")))
         :: [(1000%Z, PromptTimerFired false); (45000%Z, TimeoutFired)] /\
  killed (probe sonnetModel defaultOptions missingBinary) = false /\
  exists r,
    promiseValue (probe sonnetModel defaultOptions missingBinary) = Some r /\
    status r = failed /\ errorType r = Some LaunchFailed /\
    error r = Some (msgLaunch ++ lit "spawn claude ENOENT") /\
    responseTime r = (1 - spawnTime missingBinary)%Z.
Proof.
  split; [reflexivity|].
  exact (launch_error_is_reported sonnetModel defaultOptions missingBinary
           [] [(1000%Z, PromptTimerFired false); (45000%Z, TimeoutFired)]
           1%Z (lit "spawn claude ENOENT") eq_refl eq_refl).
Defined.

(** X4.  Once a probe of the batch checker has resolved, nothing that
    is delivered later (late output, the close that follows a kill, a
    timer) resolves it again or changes the result object it resolved
    with. *)
Theorem resolved_result_is_final :
  forall (modelName : jsstring) (t0 : Z) (earlier later : list (Z * Event))
         (r : Result),
    promiseValue (run (initProc modelName t0) earlier) = Some r ->
    resolved (run (initProc modelName t0) (earlier ++ later)) = [r] /\
    result (run (initProc modelName t0) (earlier ++ later)) = r.
Proof.
  intros m t0 l1 l2 r Hr.
  destruct (run_pending l1 _ (pending_init m t0)) as [(_ & Hnil & _)|Hs].
  - unfold promiseValue in Hr. rewrite Hnil in Hr. discriminate.
  - rewrite run_app.
    destruct (run_settled l2 _ Hs) as ((_ & r2 & Hres2 & Hobj2 & _) & Hsame).
    destruct Hs as (_ & r1 & Hres1 & _).
    unfold promiseValue in Hr. rewrite Hres1 in Hr. cbn in Hr.
    injection Hr as ->. rewrite Hsame, Hres1. split; [reflexivity|].
    rewrite Hsame, Hres1 in Hres2. injection Hres2 as <-. exact Hobj2.
Qed.

Lemma resolved_result_is_final_witness :
  exists r,
    promiseValue (run (initProc sonnetModel 0) [(5%Z, TimeoutFired)]) = Some r /\
    resolved (run (initProc sonnetModel 0)
                ([(5%Z, TimeoutFired)]
                   ++ [(6%Z, FromChild (Stdout (lit "late")));
                       (7%Z, FromChild (CloseEv None))])) = [r] /\
    result (run (initProc sonnetModel 0)
              ([(5%Z, TimeoutFired)]
                 ++ [(6%Z, FromChild (Stdout (lit "late")));
                     (7%Z, FromChild (CloseEv None))])) = r.
Proof.
  eexists. split; [reflexivity|].
  exact (resolved_result_is_final sonnetModel 0 [(5%Z, TimeoutFired)]
           [(6%Z, FromChild (Stdout (lit "late")));
            (7%Z, FromChild (CloseEv None))] _ eq_refl).
Defined.

(* ================================================================== *)
(** * Further properties of the web server's probe *)

Lemma web_run_uncaught :
  forall l p, uncaught p = true -> WebServer.run p l = p.
Proof.
  induction l as [|te l IH]; intros p Hp; [reflexivity|].
  rewrite web_run_cons.
  assert (Hs : WebServer.step te p = p)
    by (unfold WebServer.step; now rewrite Hp).
  rewrite Hs. now apply IH.
Qed.

(** X5.  In the web server, a child that reports that it could not be
    launched before the probe has resolved ends the run with an
    uncaught exception (the child has no 'error' listener there): the
    probe never resolves, so the request is never answered. *)
Theorem web_launch_error_is_uncaught :
  forall (modelName : jsstring) (timeoutMs : jsnum) (b : Behaviour)
         (pre rest : list (Z * Event)) (t : Z) (message : jsstring),
    eventLoop timeoutMs b
      = pre ++ (t, FromChild (ErrorEv message)) :: rest ->
    forallb (isData false) pre = true ->
    uncaught (WebServer.testSingleModel modelName timeoutMs b) = true /\
    resolved (WebServer.testSingleModel modelName timeoutMs b) = [] /\
    promiseValue (WebServer.testSingleModel modelName timeoutMs b) = None.
Proof.
  intros m tm b pre rest t msg Hloop Hd.
  pose proof (web_run_data pre (initProc m (spawnTime b)) eq_refl eq_refl Hd)
    as (H1 & H2 & H3 & H4 & H5 & H6 & H7 & H8).
  cbn in H2, H6.
  unfold WebServer.testSingleModel. rewrite Hloop, web_run_app, web_run_cons.
  set (q := WebServer.run (initProc m (spawnTime b)) pre) in *.
  assert (Hs : WebServer.step (t, FromChild (ErrorEv msg)) q = throwUncaught q)
    by (unfold WebServer.step; cbn [fst snd]; now rewrite H6).
  rewrite Hs, web_run_uncaught by reflexivity.
  unfold promiseValue. cbn. rewrite H2. repeat split.
Qed.

Lemma web_launch_error_is_uncaught_witness :
  eventLoop (Num 60000) missingBinary
    = [] ++ (1%Z, FromChild (ErrorEv (lit "spawn claude ENOENT")))
         :: [(1000%Z, PromptTimerFired false); (60000%Z, TimeoutFired)] /\
  uncaught (WebServer.testSingleModel sonnetModel (Num 60000) missingBinary)
    = true /\
  resolved (WebServer.testSingleModel sonnetModel (Num 60000) missingBinary)
    = [] /\
  promiseValue (WebServer.testSingleModel sonnetModel (Num 60000) missingBinary)
    = None.
Proof.
  split; [reflexivity|].
  exact (web_launch_error_is_uncaught sonnetModel (Num 60000) missingBinary
           [] [(1000%Z, PromptTimerFired false); (60000%Z, TimeoutFired)]
           1%Z (lit "spawn claude ENOENT") eq_refl eq_refl).
Defined.

Lemma web_step_safe :
  forall te p,
    webSafe te = true -> uncaught p = false ->
    uncaught (WebServer.step te p) = false /\
    ((pending p -> pending (WebServer.step te p) \/
                   (hasResponded (WebServer.step te p) = true /\
                    length (resolved (WebServer.step te p)) = 1%nat)) /\
     (hasResponded p = true ->
      hasResponded (WebServer.step te p) = true /\
      resolved (WebServer.step te p) = resolved p)).
Proof.
  intros [t ev] p Hsafe Hu. unfold webSafe in Hsafe; cbn [snd] in Hsafe.
  unfold WebServer.step; cbn [fst snd]. rewrite Hu.
  destruct ev as [[d|d|code|msg|msg']| |th]; try discriminate Hsafe.
  - cbn. split; [exact Hu|]. split; [|auto].
    intros (A & B & C). left. repeat split; assumption.
  - cbn. split; [exact Hu|]. split; [|auto].
    intros (A & B & C). left. repeat split; assumption.
  - unfold WebServer.onClose. split; [|split].
    + destruct (hasResponded p); [exact Hu|].
      destruct (closeIsSuccess code (output p)); exact Hu.
    + intros (A & B & C). right. rewrite A.
      destruct (closeIsSuccess code (output p)); cbn; rewrite B; auto.
    + intros A. rewrite A. auto.
  - split; [|split].
    + destruct (timerCleared p); [exact Hu|]. unfold onTimeout.
      destruct (hasResponded p); exact Hu.
    + intros (A & B & C). right. rewrite C. unfold onTimeout. rewrite A.
      cbn. rewrite B. auto.
    + intros A. unfold onTimeout. rewrite A. destruct (timerCleared p); auto.
  - destruct th; [discriminate Hsafe|]. unfold WebServer.onPromptTimer. cbn.
    split; [exact Hu|]. split; [|auto].
    intros (A & B & C). left. repeat split; assumption.
Qed.

Lemma web_run_safe_responded :
  forall l p,
    forallb webSafe l = true -> uncaught p = false ->
    hasResponded p = true ->
    uncaught (WebServer.run p l) = false /\
    resolved (WebServer.run p l) = resolved p.
Proof.
  induction l as [|te l IH]; intros p Hl Hu Hr; [auto|].
  cbn [forallb] in Hl. apply andb_prop in Hl as (Hs & Hl).
  rewrite web_run_cons.
  destruct (web_step_safe te p Hs Hu) as (Hu' & _ & Hkeep).
  destruct (Hkeep Hr) as (Hr' & Hsame).
  destruct (IH _ Hl Hu' Hr') as (A & B). split; [exact A|congruence].
Qed.

Lemma web_run_safe_pending :
  forall l p t,
    forallb webSafe l = true -> uncaught p = false -> pending p ->
    In (t, TimeoutFired) l ->
    uncaught (WebServer.run p l) = false /\
    length (resolved (WebServer.run p l)) = 1%nat.
Proof.
  induction l as [|te l IH]; intros p t Hl Hu Hp Hin; [contradiction|].
  cbn [forallb] in Hl. apply andb_prop in Hl as (Hs & Hl).
  rewrite web_run_cons.
  destruct (web_step_safe te p Hs Hu) as (Hu' & Hpend & _).
  destruct (Hpend Hp) as [Hp'|(Hr' & Hlen)].
  - destruct Hin as [->|Hin].
    + exfalso. destruct Hp as (A & B & C). destruct Hp' as (A' & _).
      unfold WebServer.step in A'. cbn [fst snd] in A'. rewrite Hu, C in A'.
      unfold onTimeout in A'. rewrite A in A'. discriminate A'.
    + now apply (IH _ t).
  - destruct (web_run_safe_responded l _ Hl Hu' Hr') as (A & B).
    split; [exact A|congruence].
Qed.

Lemma eventLoop_webSafe :
  forall tm b,
    launches b = true -> stdinQuiet b = true ->
    promptWriteThrows b = false ->
    forallb webSafe (eventLoop tm b) = true.
Proof.
  intros tm b Hl Hq Hw. apply forallb_forall. intros x Hx.
  unfold eventLoop in Hx.
  apply insertTimer_In_inv in Hx as [->|Hx]; [reflexivity|].
  apply insertTimer_In_inv in Hx as [->|Hx].
  - unfold webSafe; cbn. now rewrite Hw.
  - apply in_map_iff in Hx as ([t e] & <- & Hin).
    unfold launches in Hl. rewrite forallb_forall in Hl.
    unfold stdinQuiet in Hq. rewrite forallb_forall in Hq.
    specialize (Hl _ Hin). specialize (Hq _ Hin). cbn in Hl, Hq.
    unfold webSafe; cbn.
    destruct e; try reflexivity; [discriminate Hl|discriminate Hq].
Qed.

(** X6.  When the child never reports a launch error, its stdin
    never reports an error and writing the prompt does not throw, the
    probe of the web server too resolves exactly once, and no exception
    leaves a callback. *)
Theorem web_probe_resolves_once_when_child_launches :
  forall (modelName : jsstring) (timeoutMs : jsnum) (b : Behaviour),
    launches b = true ->
    stdinQuiet b = true ->
    promptWriteThrows b = false ->
    length (resolved (WebServer.testSingleModel modelName timeoutMs b)) = 1%nat /\
    uncaught (WebServer.testSingleModel modelName timeoutMs b) = false.
Proof.
  intros m tm b Hl Hq Hw. unfold WebServer.testSingleModel.
  destruct (web_run_safe_pending (eventLoop tm b) (initProc m (spawnTime b))
              (spawnTime b + timerDelay tm)%Z
              (eventLoop_webSafe tm b Hl Hq Hw) eq_refl (pending_init _ _)
              (eventLoop_timeout tm b)) as (A & B).
  split; assumption.
Qed.

Lemma web_probe_resolves_once_when_child_launches_witness :
  launches warningChild = true /\
  stdinQuiet warningChild = true /\
  promptWriteThrows warningChild = false /\
  length (resolved (WebServer.testSingleModel sonnetModel (Num 60000)
                      warningChild)) = 1%nat /\
  uncaught (WebServer.testSingleModel sonnetModel (Num 60000) warningChild)
    = false.
Proof.
  split; [reflexivity|]. split; [reflexivity|]. split; [reflexivity|].
  exact (web_probe_resolves_once_when_child_launches sonnetModel (Num 60000)
           warningChild eq_refl eq_refl eq_refl).
Defined.

(* ================================================================== *)
(** * The report, the exit status and the notification *)

Lemma testAccountDirect_validated :
  forall world account options log r log',
    testAccountDirect world account options log = Some (r, log') ->
    validated r.
Proof.
  intros world account options log r log' H.
  destruct (testAccountDirect_cases world account options log r log' H)
    as (_ & _ & _ & _ & Hc).
  unfold validated.
  destruct Hc as [(A & B & C & _)|[(A & B & C & _)|(A & B & C & _)]]; auto.
  right. right. rewrite B. auto.
Qed.

Lemma validations_validated :
  forall worlds options l base vals,
    validations worlds options base l = map Some vals ->
    Forall validated vals.
Proof.
  intros worlds options. induction l as [|a l IH]; intros base vals H.
  - destruct vals; [constructor|discriminate].
  - destruct vals as [|v vals]; [discriminate|]. cbn in H.
    injection H as Hv Hrest. constructor; [|now apply (IH (S base))].
    unfold validation in Hv.
    destruct (testAccountDirect (worlds base) a options []) as [[r l']|] eqn:E;
      [|discriminate].
    cbn in Hv. injection Hv as ->.
    eapply testAccountDirect_validated. exact E.
Qed.

Lemma runChunks_validated :
  forall worlds completion options chunks ci results0 trace0 results trace,
    Forall validated results0 ->
    runChunks worlds completion options chunks ci results0 trace0
      = Some (results, trace) ->
    Forall validated results.
Proof.
  intros worlds completion options.
  induction chunks as [|c rest IH];
    intros ci results0 trace0 results trace H0 Hrun.
  - cbn in Hrun. injection Hrun as <- <-. exact H0.
  - cbn [runChunks] in Hrun. rewrite validations_combine in Hrun.
    destruct (Promise_all (validations worlds options (length results0) c)
                (completion ci)) as [vals|] eqn:E; [|discriminate].
    apply Promise_all_values in E.
    apply (IH _ _ _ _ _) in Hrun; [exact Hrun|].
    apply Forall_app. split; [exact H0|].
    eapply validations_validated. exact E.
Qed.

(** Every result a batch returns has one of the three shapes. *)
Lemma batchTest_validated :
  forall worlds completion fuel accounts options results trace,
    batchTest worlds completion fuel accounts options = Some (results, trace) ->
    Forall validated results.
Proof.
  intros worlds completion fuel accounts options results trace H.
  unfold batchTest in H.
  destruct (chunkLoop fuel accounts (parallel options) (Num 0) []);
    [|discriminate].
  eapply runChunks_validated; [constructor|exact H].
Qed.

Lemma counts_of_validated :
  forall results,
    Forall validated results ->
    length results
      = (length (withStatus both_success results)
         + length (withStatus sonnet_only results)
         + length (withStatus both_failed results))%nat /\
    sonnet4Success results
      = (length (withStatus both_success results)
         + length (withStatus sonnet_only results))%nat /\
    opus41Success results = length (withStatus both_success results).
Proof.
  unfold sonnet4Success, opus41Success, withStatus.
  induction 1 as [|r results Hr _ IH]; [repeat split|].
  destruct IH as (I1 & I2 & I3). cbn [filter length].
  destruct Hr as [(A & B & C)|[(A & B & C)|(A & B & C)]];
    rewrite A, B, C; cbn; lia.
Qed.

(** X7.  For the results of every batch that returns, the statistics of
    the report add up: every account is counted in exactly one of the
    three categories, the accounts on which Sonnet passed are those of
    the first two categories, and the accounts on which Opus passed are
    those of the first. *)
Theorem report_statistics_add_up :
  forall (worlds : nat -> SpawnRequest -> nat -> Behaviour)
         (completion : nat -> list nat) (fuel : nat)
         (accounts : list Account) (options : Options)
         (results : list AccountResult) (trace : list BatchEvent),
    batchTest worlds completion fuel accounts options = Some (results, trace) ->
    total (generateReport results)
      = (stat_both_success (generateReport results)
         + stat_sonnet_only (generateReport results)
         + stat_both_failed (generateReport results))%nat /\
    sonnet4Success results
      = (stat_both_success (generateReport results)
         + stat_sonnet_only (generateReport results))%nat /\
    opus41Success results = stat_both_success (generateReport results).
Proof.
  intros worlds completion fuel accounts options results trace H.
  apply batchTest_validated in H. exact (counts_of_validated results H).
Qed.

Lemma report_statistics_add_up_witness :
  batchTest mixedWorld secondFirst 4 threeAccounts twoAtATime
    = Some (demoResults, demoObserved) /\
  total (generateReport demoResults)
    = (stat_both_success (generateReport demoResults)
       + stat_sonnet_only (generateReport demoResults)
       + stat_both_failed (generateReport demoResults))%nat /\
  sonnet4Success demoResults
    = (stat_both_success (generateReport demoResults)
       + stat_sonnet_only (generateReport demoResults))%nat /\
  opus41Success demoResults = stat_both_success (generateReport demoResults).
Proof.
  assert (H : batchTest mixedWorld secondFirst 4 threeAccounts twoAtATime
              = Some (demoResults, demoObserved))
    by (vm_compute; reflexivity).
  split; [exact H|].
  exact (report_statistics_add_up mixedWorld secondFirst 4 threeAccounts
           twoAtATime demoResults demoObserved H).
Defined.




(** The run of the example: one account passes both models, one fails
    on Sonnet, one passes Sonnet only; the exit status is 1. *)
Example demo_run_outcome :
  map overallStatus demoResults = [both_success; both_failed; sonnet_only] /\
  map (fun r => name r) (AccountsFile.parseCSV threeAccountsCsv)
    = map (fun r => name r) threeAccounts /\
  Main.exitStatus demoOutcome = 1%Z.
Proof. repeat split; vm_compute; reflexivity. Qed.

Import Notification.

Lemma title_of_message :
  forall timestamp results stats,
    title (buildNotificationMessage timestamp results stats)
    = if (length (withStatus both_failed results) =? 0)%nat
         && (length (withStatus sonnet_only results) =? 0)%nat
      then okTitle else alertTitle.
Proof.
  intros. unfold buildNotificationMessage.
  destruct ((length (withStatus both_failed results) =? 0)%nat
            && (length (withStatus sonnet_only results) =? 0)%nat);
    reflexivity.
Qed.

Lemma length_zero_iff_nil :
  forall (A : Type) (l : list A), (length l =? 0)%nat = true <-> l = [].
Proof.
  intros A l. rewrite Nat.eqb_eq. destruct l; cbn; split; congruence.
Qed.

(** X9.  With the statistics of the report, the decision to notify
    and the text agree.  Nothing is sent exactly when the webhook is
    empty, or when no account failed fully or partly and
    [--dingtalk-always] is off.  What is sent is the alert when some
    account failed fully or partly and the all-passed text otherwise;
    and everyone is mentioned exactly when [--dingtalk-at-all] is on
    and some account failed fully. *)
Theorem notification_matches_results :
  forall (timestamp : jsstring) (results : list AccountResult)
         (options : Options),
    (sendDingTalkNotification timestamp results (generateReport results) options
       = None <->
     truthy (dingTalkWebhook options) = false \/
     (dingTalkAlways options = false /\
      withStatus both_failed results = [] /\
      withStatus sonnet_only results = [])) /\
    (forall d,
        sendDingTalkNotification timestamp results (generateReport results)
          options = Some d ->
        toWebhook d = dingTalkWebhook options /\
        (title (message d) = okTitle <->
         withStatus both_failed results = [] /\
         withStatus sonnet_only results = []) /\
        (title (message d) = alertTitle <->
         withStatus both_failed results <> [] \/
         withStatus sonnet_only results <> []) /\
        (atAll d = true <->
         dingTalkAtAll options = true /\
         withStatus both_failed results <> [])).
Proof.
  intros timestamp results options.
  unfold sendDingTalkNotification, shouldAlertForSonnetOnly.
  cbn [generateReport stat_both_failed stat_sonnet_only].
  set (bf := withStatus both_failed results).
  set (so := withStatus sonnet_only results).
  assert (Hso : (if (length so =? 0)%nat then false
                 else if (0 <? length bf)%nat then true else true)
                = negb (length so =? 0)%nat)
    by (destruct (length so =? 0)%nat; [reflexivity|];
        destruct (0 <? length bf)%nat; reflexivity).
  assert (Hbf : (0 <? length bf)%nat = negb (length bf =? 0)%nat)
    by (destruct (length bf); reflexivity).
  rewrite Hso, Hbf.
  pose proof (length_zero_iff_nil _ bf) as Zbf.
  pose proof (length_zero_iff_nil _ so) as Zso.
  assert (Hne : okTitle <> alertTitle) by (vm_compute; discriminate).
  split.
  - destruct (truthy (dingTalkWebhook options)); cbn [negb].
    + destruct (dingTalkAlways options); cbn [orb negb].
      * split; [discriminate|]. intros [H|(H & _)]; discriminate H.
      * destruct (length bf =? 0)%nat eqn:Eb; destruct (length so =? 0)%nat eqn:Es;
          cbn; split; try discriminate; try reflexivity.
        -- intros _. right. split; [reflexivity|]. split; [now apply Zbf|now apply Zso].
        -- intros [H|(_ & _ & H)]; [discriminate H|].
           apply Zso in H. discriminate H.
        -- intros [H|(_ & H & _)]; [discriminate H|].
           apply Zbf in H. discriminate H.
        -- intros [H|(_ & H & _)]; [discriminate H|].
           apply Zbf in H. discriminate H.
    + split; [intros _; now left | reflexivity].
  - intros d Hd.
    destruct (truthy (dingTalkWebhook options)); cbn [negb] in Hd; [|discriminate].
    destruct (negb (dingTalkAlways options
                    || (negb (length bf =? 0)%nat || negb (length so =? 0)%nat)));
      [discriminate|].
    injection Hd as <-. cbn [toWebhook message atAll].
    rewrite title_of_message. fold bf so.
    split; [reflexivity|].
    destruct (length bf =? 0)%nat eqn:Eb; destruct (length so =? 0)%nat eqn:Es;
      cbn [andb negb].
    + split; [|split].
      * split; [intros _; split; [now apply Zbf|now apply Zso]|reflexivity].
      * split; [intros H; now elim Hne|].
        intros [H|H]; elim H; [now apply Zbf|now apply Zso].
      * rewrite andb_false_r. split; [discriminate|].
        intros (_ & H). elim H. now apply Zbf.
    + split; [|split].
      * split; [intros H; now elim Hne|]. intros (_ & H). apply Zso in H.
        discriminate H.
      * split; [|reflexivity]. intros _. right. intros H. apply Zso in H.
        discriminate H.
      * rewrite andb_false_r. split; [discriminate|].
        intros (_ & H). elim H. now apply Zbf.
    + split; [|split].
      * split; [intros H; now elim Hne|]. intros (H & _). apply Zbf in H.
        discriminate H.
      * split; [|reflexivity]. intros _. left. intros H. apply Zbf in H.
        discriminate H.
      * rewrite andb_true_r. split.
        -- intros H. split; [exact H|]. intros H'. apply Zbf in H'.
           discriminate H'.
        -- intros (H & _). exact H.
    + split; [|split].
      * split; [intros H; now elim Hne|]. intros (H & _). apply Zbf in H.
        discriminate H.
      * split; [|reflexivity]. intros _. left. intros H. apply Zbf in H.
        discriminate H.
      * rewrite andb_true_r. split.
        -- intros H. split; [exact H|]. intros H'. apply Zbf in H'.
           discriminate H'.
        -- intros (H & _). exact H.
Qed.

Lemma notification_matches_results_witness :
  exists d,
    sendDingTalkNotification (lit "2025/9/1 08:00:01") demoResults
      (generateReport demoResults) defaultOptions = Some d /\
    title (message d) = alertTitle /\ atAll d = false.
Proof.
  pose proof (proj2 (notification_matches_results (lit "2025/9/1 08:00:01")
                       demoResults defaultOptions)) as H.
  destruct (sendDingTalkNotification (lit "2025/9/1 08:00:01") demoResults
              (generateReport demoResults) defaultOptions) as [d|] eqn:E.
  - exists d. split; [reflexivity|].
    destruct (H d eq_refl) as (_ & _ & Halert & Hat). split.
    + apply Halert. left. vm_compute. discriminate.
    + destruct (atAll d); [|reflexivity].
      destruct (proj1 Hat eq_refl) as (Hx & _). discriminate Hx.
  - exfalso. vm_compute in E. discriminate E.
Defined.

(** With a webhook, a batch in which some account failed fully or
    partly always ends in a call of [sendDingTalkMessage] with the
    alert. *)
Lemma failures_are_notified :
  forall (timestamp : jsstring) (results : list AccountResult)
         (options : Options),
    truthy (dingTalkWebhook options) = true ->
    withStatus both_failed results <> [] \/
    withStatus sonnet_only results <> [] ->
    exists d,
      sendDingTalkNotification timestamp results (generateReport results)
        options = Some d /\
      toWebhook d = dingTalkWebhook options /\
      title (message d) = alertTitle.
Proof.
  intros timestamp results options Hweb Hfail.
  unfold sendDingTalkNotification, shouldAlertForSonnetOnly.
  cbn [generateReport stat_both_failed stat_sonnet_only].
  rewrite Hweb. cbn [negb].
  set (bf := withStatus both_failed results) in *.
  set (so := withStatus sonnet_only results) in *.
  assert (Hsend : ((0 <? length bf)%nat
                   || (if (length so =? 0)%nat then false
                       else if (0 <? length bf)%nat then true else true))
                  = true).
  { destruct bf as [|x bf]; [|reflexivity].
    destruct so as [|y so]; [|reflexivity].
    destruct Hfail as [H|H]; now elim H. }
  rewrite Hsend, orb_true_r. cbn [negb].
  eexists. split; [reflexivity|]. split; [reflexivity|]. cbn [message].
  rewrite title_of_message. fold bf so.
  destruct bf as [|x bf]; [|reflexivity].
  destruct so as [|y so]; [|reflexivity].
  destruct Hfail as [H|H]; now elim H.
Qed.

(** X10.  The options [parseArgs] returns never have an empty webhook,
    whatever the arguments and the environment; so with them
    [sendDingTalkNotification] never returns for want of a webhook: for
    every batch in which some account failed fully or partly it builds
    the alert and calls [sendDingTalkMessage] with it and with the
    webhook of the options.  What that call does with the message is
    not part of the statement. *)
Theorem failed_batch_always_reaches_sendDingTalkMessage :
  forall (parseInt : jsstring -> jsnum) (env : jsstring -> option jsstring)
         (args : list jsstring) (options : Options),
    parseArgs parseInt env args = Some options ->
    truthy (dingTalkWebhook options) = true /\
    forall (timestamp : jsstring) (results : list AccountResult),
      withStatus both_failed results <> [] \/
      withStatus sonnet_only results <> [] ->
      exists d,
        sendDingTalkNotification timestamp results (generateReport results)
          options = Some d /\
        toWebhook d = dingTalkWebhook options /\
        title (message d) = alertTitle.
Proof.
  intros parseInt env args options Hparse.
  assert (Hweb : truthy (dingTalkWebhook options) = true).
  { pose proof (parseArgs_webhook parseInt env args) as H.
    rewrite Hparse in H. cbn in H.
    destruct (truthyOpt (configFile (argLoop parseInt args defaultOptions)));
      [|discriminate H].
    injection H as ->.
    apply (argLoop_webhook_truthy parseInt (length args)); [lia|reflexivity]. }
  split; [exact Hweb|].
  intros timestamp results Hfail.
  now apply failures_are_notified.
Qed.

Lemma failed_batch_always_reaches_sendDingTalkMessage_witness :
  parseArgs (fun _ => NaN) (fun _ => None)
    [lit "accounts.csv"; lit "--dingtalk-webhook"; lit "x"]
    = Some (setWebhook (lit "x")
              (setConfigFile (lit "accounts.csv") defaultOptions)) /\
  exists d,
    sendDingTalkNotification (lit "2025/9/1 08:00:01") demoResults
      (generateReport demoResults)
      (setWebhook (lit "x")
         (setConfigFile (lit "accounts.csv") defaultOptions)) = Some d /\
    toWebhook d = lit "x" /\
    title (message d) = alertTitle.
Proof.
  split; [reflexivity|].
  apply (proj2 (failed_batch_always_reaches_sendDingTalkMessage
                  (fun _ => NaN) (fun _ => None)
                  [lit "accounts.csv"; lit "--dingtalk-webhook"; lit "x"]
                  _ eq_refl)).
  left. vm_compute. discriminate.
Defined.

(* ================================================================== *)
(** * The command line *)

Lemma loneArg_fields :
  forall a o,
    dingTalkSecret (loneArg a o) = dingTalkSecret o /\
    timeout (loneArg a o) = timeout o /\
    parallel (loneArg a o) = parallel o /\
    (configFile (loneArg a o) = configFile o \/
     (configFile (loneArg a o) = Some a /\ startsWith a (lit "--") = false)).
Proof.
  intros a o. unfold loneArg.
  destruct (streq a (lit "--verbose")); [cbn; repeat split; now left|].
  destruct (streq a (lit "--dingtalk-at-all")); [cbn; repeat split; now left|].
  destruct (streq a (lit "--dingtalk-always")); [cbn; repeat split; now left|].
  destruct (startsWith a (lit "--")) eqn:E; cbn [negb].
  - repeat split; now left.
  - cbn. repeat split. right. split; reflexivity.
Qed.

(** The file the loop settles on is the one it started with or a
    positional argument. *)
Lemma argLoop_configFile :
  forall (parseInt : jsstring -> jsnum) (n : nat) (args : list jsstring)
         (o : Options),
    (length args <= n)%nat ->
    configFile (argLoop parseInt args o) = configFile o \/
    exists f, configFile (argLoop parseInt args o) = Some f /\
              In f args /\ startsWith f (lit "--") = false.
Proof.
  intros parseInt. induction n as [|n IH]; intros args o Hlen.
  - destruct args; [now left | cbn in Hlen; lia].
  - destruct args as [|a [|v rest]]; [now left | |].
    + cbn [argLoop]. destruct (loneArg_fields a o) as (_ & _ & _ & [H|(H & Hs)]).
      * now left.
      * right. exists a. split; [exact H|]. split; [now left|exact Hs].
    + rewrite argLoop_two. cbn [length] in Hlen.
      assert (Hskip : forall o', configFile o' = configFile o ->
                configFile (argLoop parseInt rest o') = configFile o \/
                exists f, configFile (argLoop parseInt rest o') = Some f /\
                          In f (a :: v :: rest) /\ startsWith f (lit "--") = false).
      { intros o' Ho'. destruct (IH rest o' ltac:(lia)) as [H|(f & H & Hin & Hs)].
        - left. congruence.
        - right. exists f. split; [exact H|]. split; [right; now right|exact Hs]. }
      assert (Hnext : forall o',
                (configFile o' = configFile o \/
                 (configFile o' = Some a /\ startsWith a (lit "--") = false)) ->
                configFile (argLoop parseInt (v :: rest) o') = configFile o \/
                exists f, configFile (argLoop parseInt (v :: rest) o') = Some f /\
                          In f (a :: v :: rest) /\ startsWith f (lit "--") = false).
      { intros o' Ho'.
        destruct (IH (v :: rest) o' ltac:(cbn [length]; lia))
          as [H|(f & H & Hin & Hs)].
        - destruct Ho' as [Ho'|(Ho' & Hs)].
          + left. congruence.
          + right. exists a. split; [congruence|]. split; [now left|exact Hs].
        - right. exists f. split; [exact H|]. split; [now right|exact Hs]. }
      destruct (streq a (lit "--timeout") && truthy v); [now apply Hskip|].
      destruct (streq a (lit "--parallel") && truthy v); [now apply Hskip|].
      destruct (streq a (lit "--verbose")); [apply Hnext; now left|].
      destruct (streq a (lit "--dingtalk-webhook") && truthy v);
        [now apply Hskip|].
      destruct (streq a (lit "--dingtalk-secret") && truthy v);
        [now apply Hskip|].
      apply Hnext. apply loneArg_fields.
Qed.

Lemma parseArgs_configFile :
  forall parseInt env args options,
    parseArgs parseInt env args = Some options ->
    configFile options = configFile (argLoop parseInt args defaultOptions) /\
    truthyOpt (configFile options) = true.
Proof.
  intros parseInt env args options H. unfold parseArgs in H.
  destruct (truthyOpt (configFile (argLoop parseInt args defaultOptions))) eqn:E;
    [|discriminate H].
  cbn [negb] in H. injection H as <-.
  repeat match goal with
         | |- context [if ?c then _ else _] => destruct c
         end;
    repeat match goal with
           | |- context [match ?x with Some _ => _ | None => _ end] => destruct x
           end; cbn; auto.
Qed.

(** X11.  When [parseArgs] returns options, their configuration file is
    a non-empty argument of the command line that does not start with
    "--"; so a command line on which every argument starts with "--"
    ends the run. *)
Theorem config_file_is_a_positional_argument :
  forall (parseInt : jsstring -> jsnum) (env : jsstring -> option jsstring)
         (args : list jsstring),
    (forall options,
        parseArgs parseInt env args = Some options ->
        exists f, configFile options = Some f /\ truthy f = true /\
                  In f args /\ startsWith f (lit "--") = false) /\
    ((forall a, In a args -> startsWith a (lit "--") = true) ->
     parseArgs parseInt env args = None).
Proof.
  intros parseInt env args.
  assert (H1 : forall options,
             parseArgs parseInt env args = Some options ->
             exists f, configFile options = Some f /\ truthy f = true /\
                       In f args /\ startsWith f (lit "--") = false).
  { intros options H.
    destruct (parseArgs_configFile parseInt env args options H) as (Hc & Ht).
    destruct (argLoop_configFile parseInt (length args) args defaultOptions
                (Nat.le_refl _)) as [Hd|(f & Hf & Hin & Hs)].
    - rewrite Hc, Hd in Ht. discriminate Ht.
    - exists f. rewrite Hc, Hf in *. cbn in Ht. auto. }
  split; [exact H1|].
  intros Hall. destruct (parseArgs parseInt env args) as [options|] eqn:E;
    [|reflexivity].
  destruct (H1 options eq_refl) as (f & _ & _ & Hin & Hs).
  rewrite (Hall f Hin) in Hs. discriminate Hs.
Qed.

Lemma config_file_is_a_positional_argument_witness :
  parseArgs (fun _ => NaN) (fun _ => None)
    [lit "--verbose"; lit "--dingtalk-always"] = None.
Proof.
  apply (proj2 (config_file_is_a_positional_argument (fun _ => NaN)
                  (fun _ => None) [lit "--verbose"; lit "--dingtalk-always"])).
  intros a [<-|[<-|[]]]; reflexivity.
Defined.

Lemma argLoop_without_secret :
  forall (parseInt : jsstring -> jsnum) (n : nat) (args : list jsstring)
         (o : Options),
    (length args <= n)%nat ->
    (forall a, In a args -> streq a (lit "--dingtalk-secret") = false) ->
    dingTalkSecret (argLoop parseInt args o) = dingTalkSecret o.
Proof.
  intros parseInt. induction n as [|n IH]; intros args o Hlen Hno.
  - destruct args; [reflexivity | cbn in Hlen; lia].
  - destruct args as [|a [|v rest]]; [reflexivity | |].
    + cbn [argLoop]. apply loneArg_fields.
    + rewrite argLoop_two. cbn [length] in Hlen.
      assert (Hrest : forall x, In x rest ->
                streq x (lit "--dingtalk-secret") = false)
        by (intros x Hx; apply Hno; right; now right).
      assert (Hvrest : forall x, In x (v :: rest) ->
                streq x (lit "--dingtalk-secret") = false)
        by (intros x Hx; apply Hno; now right).
      rewrite (Hno a (or_introl eq_refl)). cbn [andb].
      destruct (streq a (lit "--timeout") && truthy v);
        [now rewrite (IH rest _ ltac:(lia) Hrest)|].
      destruct (streq a (lit "--parallel") && truthy v);
        [now rewrite (IH rest _ ltac:(lia) Hrest)|].
      destruct (streq a (lit "--verbose"));
        [now rewrite (IH (v :: rest) _ ltac:(cbn [length]; lia) Hvrest)|].
      destruct (streq a (lit "--dingtalk-webhook") && truthy v);
        [now rewrite (IH rest _ ltac:(lia) Hrest)|].
      rewrite (IH (v :: rest) _ ltac:(cbn [length]; lia) Hvrest).
      apply loneArg_fields.
Qed.

(** X12.  When no argument is [--dingtalk-secret], the secret of the
    options [parseArgs] returns is the value of [DINGTALK_SECRET] if
    that is set and not empty, and [null] otherwise. *)
Theorem secret_falls_back_to_environment :
  forall (parseInt : jsstring -> jsnum) (env : jsstring -> option jsstring)
         (args : list jsstring) (options : Options),
    (forall a, In a args -> streq a (lit "--dingtalk-secret") = false) ->
    parseArgs parseInt env args = Some options ->
    dingTalkSecret options
    = if truthyOpt (env (lit "DINGTALK_SECRET"))
      then env (lit "DINGTALK_SECRET")
      else None.
Proof.
  intros parseInt env args options Hno H. unfold parseArgs in H.
  destruct (truthyOpt (configFile (argLoop parseInt args defaultOptions)));
    [|discriminate H].
  cbn [negb] in H.
  rewrite (argLoop_webhook_truthy parseInt (length args) args defaultOptions
             (Nat.le_refl _) eq_refl) in H.
  cbn [negb andb] in H.
  rewrite (argLoop_without_secret parseInt (length args) args defaultOptions
             (Nat.le_refl _) Hno) in H.
  cbn [defaultOptions dingTalkSecret truthyOpt negb andb] in H.
  injection H as <-.
  destruct (env (lit "DINGTALK_SECRET")) as [s|]; cbn [truthyOpt].
  - destruct (truthy s); [reflexivity|].
    apply (argLoop_without_secret parseInt (length args) args defaultOptions
             (Nat.le_refl _) Hno).
  - apply (argLoop_without_secret parseInt (length args) args defaultOptions
             (Nat.le_refl _) Hno).
Qed.

Lemma secret_falls_back_to_environment_witness :
  (forall a, In a [lit "accounts.csv"; lit "--verbose"] ->
             streq a (lit "--dingtalk-secret") = false) /\
  parseArgs (fun _ => NaN) dingTalkEnv [lit "accounts.csv"; lit "--verbose"]
    = Some (setSecret (lit "SECfromenv")
              (setVerbose (setConfigFile (lit "accounts.csv") defaultOptions))) /\
  dingTalkSecret
    (setSecret (lit "SECfromenv")
       (setVerbose (setConfigFile (lit "accounts.csv") defaultOptions)))
  = if truthyOpt (dingTalkEnv (lit "DINGTALK_SECRET"))
    then dingTalkEnv (lit "DINGTALK_SECRET")
    else None.
Proof.
  assert (Hno : forall a, In a [lit "accounts.csv"; lit "--verbose"] ->
                          streq a (lit "--dingtalk-secret") = false)
    by (intros a [<-|[<-|[]]]; reflexivity).
  split; [exact Hno|]. split; [reflexivity|].
  exact (secret_falls_back_to_environment (fun _ => NaN) dingTalkEnv
           [lit "accounts.csv"; lit "--verbose"] _ Hno eq_refl).
Defined.

(* ================================================================== *)
(** * The accounts file *)

Import AccountsFile.

Lemma trimStart_headOk : forall s, headOk s -> trimStart s = s.
Proof. intros [|c s] H; [reflexivity|]. cbn in *. now rewrite H. Qed.

Lemma trimStart_length : forall s, (length (trimStart s) <= length s)%nat.
Proof.
  induction s as [|c s IH]; [cbn; lia|]. cbn [trimStart].
  destruct (isWhiteSpace c); cbn [length]; lia.
Qed.

Lemma trimEnd_length : forall s, (length (trimEnd s) <= length s)%nat.
Proof.
  intros s. unfold trimEnd. rewrite length_rev.
  etransitivity; [apply trimStart_length|]. now rewrite length_rev.
Qed.

Lemma trimStart_fixed : forall s, trimStart s = s -> headOk s.
Proof.
  intros [|c s] H; [exact I|]. cbn in *.
  destruct (isWhiteSpace c); [|reflexivity].
  pose proof (trimStart_length s) as Hl. rewrite H in Hl. cbn in Hl. lia.
Qed.

Lemma trimEnd_headOk : forall s, headOk (rev s) -> trimEnd s = s.
Proof.
  intros s H. unfold trimEnd. rewrite (trimStart_headOk _ H).
  apply rev_involutive.
Qed.

Lemma trim_headOk : forall s, headOk s -> headOk (rev s) -> trim s = s.
Proof.
  intros s H1 H2. unfold trim. rewrite (trimStart_headOk _ H1).
  now apply trimEnd_headOk.
Qed.

Lemma trim_fixed : forall s, trim s = s -> headOk s /\ headOk (rev s).
Proof.
  intros s H. assert (H1 : headOk s).
  { destruct s as [|c s]; [exact I|]. cbn. destruct (isWhiteSpace c) eqn:E;
      [|reflexivity].
    exfalso. unfold trim in H. cbn [trimStart] in H. rewrite E in H.
    pose proof (trimEnd_length (trimStart s)) as Ha.
    pose proof (trimStart_length s) as Hb. rewrite H in Ha. cbn in Ha. lia. }
  split; [exact H1|].
  unfold trim in H. rewrite (trimStart_headOk _ H1) in H.
  unfold trimEnd in H. apply trimStart_fixed.
  rewrite <- H at 2. now rewrite rev_involutive.
Qed.

Lemma headOk_app : forall a b, a <> [] -> headOk a -> headOk (a ++ b).
Proof. intros [|c a] b Hne H; [contradiction|exact H]. Qed.

Lemma In_trimStart : forall c s, In c (trimStart s) -> In c s.
Proof.
  induction s as [|x s IH]; [auto|]. cbn [trimStart].
  destruct (isWhiteSpace x); [intros H; right; now apply IH|auto].
Qed.

Lemma In_trim : forall c s, In c (trim s) -> In c s.
Proof.
  intros c s H. unfold trim, trimEnd in H. apply in_rev in H.
  apply In_trimStart in H. apply in_rev in H. now apply In_trimStart.
Qed.

Lemma split_no_sep : forall sep s, ~ In sep s -> split sep s = [s].
Proof.
  induction s as [|c s IH]; intros H; [reflexivity|]. cbn [split].
  destruct (N.eqb_spec c sep) as [->|Hne]; [elim H; now left|].
  rewrite IH by (intros Hin; apply H; now right). reflexivity.
Qed.

Lemma split_app :
  forall sep a b, ~ In sep a -> split sep (a ++ sep :: b) = a :: split sep b.
Proof.
  induction a as [|c a IH]; intros b H.
  - cbn. now rewrite N.eqb_refl.
  - cbn [app split].
    destruct (N.eqb_spec c sep) as [->|Hne]; [elim H; now left|].
    rewrite IH by (intros Hin; apply H; now right). reflexivity.
Qed.

Lemma join_two :
  forall sep x y l, join sep (x :: y :: l) = x ++ sep ++ join sep (y :: l).
Proof. reflexivity. Qed.

Lemma split_join :
  forall sep l,
    l <> [] -> Forall (fun x => ~ In sep x) l ->
    split sep (join [sep] l) = l.
Proof.
  intros sep. induction l as [|x l IH]; intros Hne Hall; [contradiction|].
  inversion Hall as [|? ? Hx Hl]; subst.
  destruct l as [|y l]; [cbn; now apply split_no_sep|].
  rewrite join_two. cbn [app]. rewrite split_app by exact Hx.
  f_equal. apply IH; [discriminate|exact Hl].
Qed.

Lemma join_snoc :
  forall sep l y, l <> [] -> join sep (l ++ [y]) = join sep l ++ sep ++ y.
Proof.
  intros sep. induction l as [|x l IH]; intros y Hne; [contradiction|].
  destruct l as [|z l]; [reflexivity|].
  change ((x :: z :: l) ++ [y]) with (x :: (z :: l) ++ [y]).
  cbn [app]. rewrite !join_two. change (z :: l ++ [y]) with ((z :: l) ++ [y]).
  rewrite IH by discriminate. now rewrite <- !app_assoc.
Qed.

Lemma In_join :
  forall c sep l,
    In c (join [sep] l) -> c = sep \/ exists x, In x l /\ In c x.
Proof.
  intros c sep. induction l as [|x l IH]; intros H; [contradiction|].
  destruct l as [|y l].
  - right. exists x. split; [now left|exact H].
  - rewrite join_two in H. apply in_app_iff in H as [H|H].
    + right. exists x. split; [now left|exact H].
    + cbn [app] in H. destruct H as [H|H]; [now left|].
      destruct (IH H) as [->|(z & Hz & Hc)]; [now left|].
      right. exists z. split; [now right|exact Hc].
Qed.

(** A joined list of at least two pieces starts as its first piece and
    ends as its last, or with the separator next to an empty piece. *)
Lemma join_edges :
  forall sep x l y,
    (x = [] -> isWhiteSpace sep = false) ->
    (y = [] -> isWhiteSpace sep = false) ->
    headOk x -> headOk (rev y) ->
    headOk (join [sep] (x :: l ++ [y])) /\
    headOk (rev (join [sep] (x :: l ++ [y]))) /\
    join [sep] (x :: l ++ [y]) <> [].
Proof.
  intros sep x l y Hsx Hsy Hx Hy. split; [|split].
  - destruct (l ++ [y]) as [|z r] eqn:E; [destruct l; discriminate E|].
    rewrite join_two. destruct x as [|c x]; [now apply Hsx|exact Hx].
  - change (x :: l ++ [y]) with ((x :: l) ++ [y]).
    rewrite join_snoc by discriminate. rewrite !rev_app_distr, <- app_assoc.
    destruct y as [|c y]; [now apply Hsy|].
    apply headOk_app; [|exact Hy].
    cbn. intros H. apply app_eq_nil in H as (_ & H). discriminate H.
  - destruct (l ++ [y]) as [|z r] eqn:E; [destruct l; discriminate E|].
    rewrite join_two. intros H. apply app_eq_nil in H as (_ & H).
    discriminate H.
Qed.

(** A line of at least three comma-separated pieces gives the account
    of its first three. *)
Lemma parseLine_fields :
  forall x l y,
    Forall (fun f => ~ In 44%N f) (x :: l ++ [y]) ->
    headOk x -> headOk (rev y) ->
    (3 <= length (x :: l ++ [y]))%nat ->
    parseLine (join [44%N] (x :: l ++ [y]))
    = [ {| name := trim (nth 0 (x :: l ++ [y]) []);
           url := trim (nth 1 (x :: l ++ [y]) []);
           key := trim (nth 2 (x :: l ++ [y]) []) |} ].
Proof.
  intros x l y Hall Hx Hy Hlen.
  destruct (join_edges 44%N x l y (fun _ => eq_refl) (fun _ => eq_refl) Hx Hy)
    as (E1 & E2 & E3).
  unfold parseLine. rewrite (trim_headOk _ E1 E2).
  destruct (join [44%N] (x :: l ++ [y])) as [|c rest] eqn:E; [contradiction|].
  cbn [truthy negb]. rewrite <- E.
  rewrite split_join by (discriminate || exact Hall).
  unfold jsstring in *.
  apply Nat.leb_le in Hlen. rewrite Hlen. reflexivity.
Qed.

(** The lines [parseCSV] goes through are those after the first. *)
Lemma parseCSV_lines :
  forall first lines,
    first <> [] -> headOk first -> ~ In 10%N first ->
    Forall (fun line => ~ In 10%N line) lines ->
    (forall init y, lines = init ++ [y] -> y <> [] /\ headOk (rev y)) ->
    parseCSV (join newline (first :: lines)) = flat_map parseLine lines.
Proof.
  intros first lines Hne Hhead Hnl Hlines Hlast. unfold parseCSV.
  destruct lines as [|z lines'] using rev_ind.
  - cbn [join flat_map].
    rewrite split_no_sep by (intros H; apply Hnl; now apply In_trim in H).
    reflexivity.
  - clear IHlines'. destruct (Hlast lines' z eq_refl) as (Hz & Hzr).
    destruct (join_edges 10%N first lines' z
                (fun H => False_ind _ (Hne H)) (fun H => False_ind _ (Hz H))
                Hhead Hzr) as (E1 & E2 & _).
    unfold newline. rewrite (trim_headOk _ E1 E2).
    rewrite split_join; [reflexivity|discriminate|].
    constructor; assumption.
Qed.

Lemma csvLine_is_join :
  forall a, csvLine a = join [44%N] (name a :: [url a] ++ [key a]).
Proof. reflexivity. Qed.

Lemma csvLine_facts :
  forall a,
    plainAccount a ->
    parseLine (csvLine a) = [a] /\ ~ In 10%N (csvLine a) /\
    csvLine a <> [] /\ headOk (rev (csvLine a)).
Proof.
  intros [n u k] ((Tn & Cn & Ln) & (Tu & Cu & Lu) & (Tk & Ck & Lk)).
  cbn [name url key] in *.
  destruct (trim_fixed _ Tn) as (Hn & _).
  destruct (trim_fixed _ Tk) as (_ & Hk).
  rewrite csvLine_is_join. cbn [name url key].
  split; [|split; [|split]].
  - rewrite parseLine_fields.
    + cbn [nth app]. now rewrite Tn, Tu, Tk.
    + repeat constructor; assumption.
    + exact Hn.
    + exact Hk.
    + cbn. lia.
  - intros H. apply In_join in H as [H|(x & Hx & Hc)]; [discriminate H|].
    cbn in Hx. destruct Hx as [<-|[<-|[<-|[]]]]; contradiction.
  - apply (join_edges 44%N n [u] k (fun _ => eq_refl) (fun _ => eq_refl) Hn Hk).
  - apply (join_edges 44%N n [u] k (fun _ => eq_refl) (fun _ => eq_refl) Hn Hk).
Qed.

Lemma csvLine_headOk :
  forall a, plainAccount a -> headOk (csvLine a).
Proof.
  intros a ((Tn & _) & _ & (Tk & _)).
  destruct (trim_fixed _ Tn) as (Hn & _).
  destruct (trim_fixed _ Tk) as (_ & Hk).
  rewrite csvLine_is_join.
  apply (join_edges 44%N (name a) [url a] (key a)
           (fun _ => eq_refl) (fun _ => eq_refl) Hn Hk).
Qed.

(** A first line that is not empty and does not start with white space
    is left out, and the lines after it are read. *)
Lemma parseCSV_after_first_line :
  forall (first : jsstring) (accounts : list Account),
    first <> [] ->
    headOk first ->
    ~ In 10%N first ->
    Forall plainAccount accounts ->
    parseCSV (join newline (first :: map csvLine accounts)) = accounts.
Proof.
  intros first accounts Hne Hts Hnl Hplain.
  rewrite parseCSV_lines.
  - induction Hplain as [|a l Ha _ IH]; [reflexivity|].
    cbn [map flat_map].
    destruct (csvLine_facts a Ha) as (-> & _). cbn [app]. now rewrite IH.
  - exact Hne.
  - exact Hts.
  - exact Hnl.
  - apply Forall_forall. intros line Hin.
    apply in_map_iff in Hin as (a & <- & Ha).
    rewrite Forall_forall in Hplain. apply (csvLine_facts a (Hplain a Ha)).
  - intros init y Heq.
    assert (Hin : In y (map csvLine accounts))
      by (rewrite Heq; apply in_or_app; right; now left).
    apply in_map_iff in Hin as (a & <- & Ha).
    rewrite Forall_forall in Hplain.
    destruct (csvLine_facts a (Hplain a Ha)) as (_ & _ & H1 & H2). auto.
Qed.

Lemma trimStart_app_space :
  forall ws s, forallb isWhiteSpace ws = true ->
    trimStart (ws ++ s) = trimStart s.
Proof.
  induction ws as [|c ws IH]; intros s H; [reflexivity|].
  cbn in H. apply andb_prop in H as (Hc & Hws).
  cbn. rewrite Hc. now apply IH.
Qed.

Lemma trimStart_split :
  forall s, exists ws,
    s = ws ++ trimStart s /\ forallb isWhiteSpace ws = true.
Proof.
  induction s as [|c s (ws & Hs & Hws)]; [exists []; split; reflexivity|].
  cbn [trimStart]. destruct (isWhiteSpace c) eqn:E.
  - exists (c :: ws). cbn. rewrite E, Hws. split; [now rewrite <- Hs|reflexivity].
  - exists []. split; reflexivity.
Qed.

(** White space in front of the content is trimmed away before the
    content is cut into lines. *)
Lemma parseCSV_leading_space :
  forall ws s, forallb isWhiteSpace ws = true ->
    parseCSV (ws ++ s) = parseCSV s.
Proof.
  intros ws s H. unfold parseCSV, trim.
  now rewrite trimStart_app_space.
Qed.

Lemma join_cons :
  forall sep x l,
    join sep (x :: l)
    = x ++ match l with [] => [] | _ :: _ => sep ++ join sep l end.
Proof.
  intros sep x [|y l]; [cbn; now rewrite app_nil_r|apply join_two].
Qed.

(** X13.  [parseCSV] reads accounts written one per line as
    name,url,key, in order, when no field has a comma, a line feed or
    white space at its ends, and it leaves out the first line that is
    left once the content is trimmed.  So a first line that holds
    anything but white space is left out, be it a title line or the
    first account of a file that has no title line; and when the first
    line is empty or holds only white space, it is trimmed away and the
    first account is left out in its place. *)
Theorem parseCSV_reads_lines_after_the_first :
  forall (first : jsstring) (accounts : list Account),
    ~ In 10%N first ->
    Forall plainAccount accounts ->
    (trimStart first <> [] ->
     parseCSV (join newline (first :: map csvLine accounts)) = accounts) /\
    (trimStart first = [] ->
     parseCSV (join newline (first :: map csvLine accounts)) = tl accounts).
Proof.
  intros first accounts Hnl Hplain.
  destruct (trimStart_split first) as (ws & Hfirst & Hws).
  assert (Hjoin : join newline (first :: map csvLine accounts)
                  = ws ++ join newline (trimStart first :: map csvLine accounts)).
  { rewrite !join_cons. rewrite Hfirst at 1. now rewrite <- app_assoc. }
  split.
  - intros Hne. rewrite Hjoin, parseCSV_leading_space by exact Hws.
    apply parseCSV_after_first_line; [exact Hne| | |exact Hplain].
    + destruct (trimStart first) as [|c rest] eqn:E; [exact I|].
      assert (Hfix : trimStart (c :: rest) = c :: rest).
      { rewrite <- E. clear. induction first as [|x s IH]; [reflexivity|].
        cbn [trimStart]. destruct (isWhiteSpace x) eqn:Ex; [exact IH|].
        cbn [trimStart]. now rewrite Ex. }
      now apply trimStart_fixed in Hfix.
    + intros Hin. apply Hnl. rewrite Hfirst. apply in_or_app. now right.
  - intros Hblank. rewrite Hblank, app_nil_r in Hfirst. subst ws.
    destruct Hplain as [|a rest Ha Hrest].
    + cbn [map join tl]. unfold parseCSV, trim. rewrite Hblank. reflexivity.
    + cbn [map tl]. rewrite join_two, app_assoc.
      rewrite parseCSV_leading_space.
      * destruct (csvLine_facts a Ha) as (_ & Hl & Hn & _).
        apply parseCSV_after_first_line;
          [exact Hn|now apply csvLine_headOk|exact Hl|exact Hrest].
      * rewrite forallb_app, Hws. reflexivity.
Qed.

Lemma threeAccounts_plain : Forall plainAccount threeAccounts.
Proof.
  repeat constructor; cbn;
    try (vm_compute; reflexivity);
    try (vm_compute; intros H;
         repeat (destruct H as [H|H]; [discriminate H|]); exact H).
Qed.

Lemma parseCSV_reads_lines_after_the_first_witness :
  parseCSV (join newline (lit "name,url,token" :: map csvLine threeAccounts))
    = threeAccounts /\
  parseCSV (join newline (lit " " :: map csvLine threeAccounts))
    = tl threeAccounts.
Proof.
  assert (H1 : ~ In 10%N (lit "name,url,token"))
    by (vm_compute; intros H;
        repeat (destruct H as [H|H]; [discriminate H|]); exact H).
  assert (H2 : ~ In 10%N (lit " "))
    by (vm_compute; intros H;
        repeat (destruct H as [H|H]; [discriminate H|]); exact H).
  split.
  - apply (proj1 (parseCSV_reads_lines_after_the_first (lit "name,url,token")
                    threeAccounts H1 threeAccounts_plain)).
    vm_compute. discriminate.
  - apply (proj2 (parseCSV_reads_lines_after_the_first (lit " ")
                    threeAccounts H2 threeAccounts_plain)).
    reflexivity.
Defined.

Lemma csvColumns_titles : csvColumns = newline ++ columnTitles ++ newline.
Proof. reflexivity. Qed.

Lemma includes_unit_In :
  forall c s, includes s [c] = true -> In c s.
Proof.
  induction s as [|x s IH]; intros H; [discriminate H|].
  cbn in H. apply orb_prop in H as [H|H].
  - apply andb_prop in H as (H & _). apply N.eqb_eq in H. now left.
  - right. now apply IH.
Qed.

Lemma csvField_plain : forall f, ~ In 44%N f -> csvField f = f.
Proof.
  intros f H. unfold csvField.
  destruct (includes f comma) eqn:E; [|reflexivity].
  apply includes_unit_In in E. contradiction.
Qed.

Lemma not_In_cons :
  forall (c x : N) (s : list N), c <> x -> ~ In c s -> ~ In c (x :: s).
Proof. intros c x s H1 H2 [H|H]; [now apply H1|now apply H2]. Qed.

Lemma csvRow_facts :
  forall r,
    plainResult r ->
    parseLine (csvRow r) = [accountOf r] /\ ~ In 10%N (csvRow r) /\
    csvRow r <> [] /\ headOk (rev (csvRow r)).
Proof.
  intros r ((Tn & Cn & Ln) & (Tu & Cu & Lu) & (Tk & Ck & Lk)).
  destruct (trim_fixed _ Tn) as (Hn & _).
  unfold csvRow.
  rewrite (csvField_plain _ Cn), (csvField_plain _ Cu), (csvField_plain _ Ck).
  set (s1 := if Status_eqb (status (sonnet4 r)) success then csvPass else csvFail).
  set (s2 := if Status_eqb (status (opus41 r)) success then csvPass
             else if Status_eqb (status (opus41 r)) skipped then csvSkip
             else csvFail).
  assert (F1 : ~ In 44%N s1 /\ ~ In 10%N s1).
  { subst s1. destruct (Status_eqb (status (sonnet4 r)) success);
      split; vm_compute; intros H;
      repeat (destruct H as [H|H]; [discriminate H|]); exact H. }
  assert (F2 : ~ In 44%N s2 /\ ~ In 10%N s2 /\ headOk (rev s2)).
  { subst s2. destruct (Status_eqb (status (opus41 r)) success);
      [|destruct (Status_eqb (status (opus41 r)) skipped)];
      (split; [|split]); try (vm_compute; reflexivity);
      vm_compute; intros H;
      repeat (destruct H as [H|H]; [discriminate H|]); exact H. }
  destruct F1 as (C1 & L1). destruct F2 as (C2 & L2 & H2).
  change (r_name r ++ comma ++ r_url r ++ comma ++ fullKey r ++ comma
            ++ s1 ++ comma ++ s2)
    with (join [44%N] (r_name r :: [r_url r; fullKey r; s1] ++ [s2])).
  split; [|split; [|split]].
  - rewrite parseLine_fields.
    + cbn [nth app]. unfold accountOf. now rewrite Tn, Tu, Tk.
    + repeat constructor; assumption.
    + exact Hn.
    + exact H2.
    + cbn. lia.
  - intros H. apply In_join in H as [H|(x & Hx & Hc)]; [discriminate H|].
    cbn in Hx. destruct Hx as [<-|[<-|[<-|[<-|[<-|[]]]]]]; contradiction.
  - apply (join_edges 44%N (r_name r) [r_url r; fullKey r; s1] s2
             (fun _ => eq_refl) (fun _ => eq_refl) Hn H2).
  - apply (join_edges 44%N (r_name r) [r_url r; fullKey r; s1] s2
             (fun _ => eq_refl) (fun _ => eq_refl) Hn H2).
Qed.

(* ================================================================== *)
(** * The credential in the saved report *)

(** C7, as amended.  For every account whose validation returns, the
    [key] field of the result is the first ten code units of the
    credential followed by "...", while the [fullKey] field holds the
    whole credential; the row that [saveResults] writes for the account
    has five columns, the name, the url, the credential taken from
    [fullKey] and the two verdicts, so that for an account without
    commas the third column of the row is exactly the full credential;
    the row, and the saved report with it, contains the full
    credential.  The validation returns whenever no child's stdin
    reports an error. *)
Theorem report_row_holds_full_credential :
  forall (world : SpawnRequest -> nat -> Behaviour) (account : Account)
         (options : Options) (log : list SpawnRequest),
    (forall r log',
        testAccountDirect world account options log = Some (r, log') ->
        r_key r = substring 0 10 (key account) ++ lit "..." /\
        fullKey r = key account /\
        (exists sonnetColumn opusColumn,
            csvRow r
            = join comma [csvField (name account); csvField (url account);
                          csvField (key account); sonnetColumn; opusColumn] /\
            In sonnetColumn [csvPass; csvFail] /\
            In opusColumn [csvPass; csvSkip; csvFail]) /\
        (~ In 44%N (name account) -> ~ In 44%N (url account) ->
         ~ In 44%N (key account) ->
         length (split 44 (csvRow r)) = 5%nat /\
         nth 2 (split 44 (csvRow r)) [] = key account) /\
        includes (csvRow r) (key account) = true /\
        forall (timestamp : jsstring) (before after : list AccountResult),
          includes (saveResults timestamp (before ++ r :: after)) (key account)
            = true) /\
    ((forall req n, stdinQuiet (world req n) = true) ->
     exists r log',
       testAccountDirect world account options log = Some (r, log')).
Proof.
  intros world account options log.
  split; [|apply testAccountDirect_returns].
  intros r log' Hrun.
  destruct (testAccountDirect_cases world account options log r log' Hrun)
    as (Hname & Hurl & Hkey & Hfull & _).
  split; [exact Hkey|]. split; [exact Hfull|].
  pose proof (csvRow_includes_fullKey r) as Hrow. rewrite Hfull in Hrow.
  set (s1 := if Status_eqb (status (sonnet4 r)) success then csvPass else csvFail).
  set (s2 := if Status_eqb (status (opus41 r)) success then csvPass
             else if Status_eqb (status (opus41 r)) skipped then csvSkip
             else csvFail).
  assert (Hshape : csvRow r
                   = join comma [csvField (name account);
                                 csvField (url account);
                                 csvField (key account); s1; s2])
    by (unfold csvRow; rewrite Hname, Hurl, Hfull; reflexivity).
  assert (H1 : In s1 [csvPass; csvFail])
    by (subst s1; destruct (Status_eqb (status (sonnet4 r)) success);
        cbn; auto).
  assert (H2 : In s2 [csvPass; csvSkip; csvFail])
    by (subst s2; destruct (Status_eqb (status (opus41 r)) success);
        [|destruct (Status_eqb (status (opus41 r)) skipped)]; cbn; auto).
  split; [exists s1, s2; auto|]. split; [|split; [exact Hrow|]].
  - intros Cn Cu Ck. rewrite Hshape.
    rewrite (csvField_plain _ Cn), (csvField_plain _ Cu), (csvField_plain _ Ck).
    change comma with [44%N]. rewrite split_join.
    + split; reflexivity.
    + discriminate.
    + assert (F1 : ~ In 44%N s1)
        by (destruct H1 as [<-|[<-|[]]]; vm_compute; intros H;
            repeat (destruct H as [H|H]; [discriminate H|]); exact H).
      assert (F2 : ~ In 44%N s2)
        by (destruct H2 as [<-|[<-|[<-|[]]]]; vm_compute; intros H;
            repeat (destruct H as [H|H]; [discriminate H|]); exact H).
      repeat constructor; assumption.
  - intros timestamp before after. unfold saveResults.
    rewrite map_app. cbn [map].
    destruct (join_middle newline (map csvRow before) (csvRow r)
                (map csvRow after)) as (a & b & ->).
    apply includes_app_l, includes_middle, Hrow.
Qed.

Lemma report_row_holds_full_credential_witness :
  exists r log',
    testAccountDirect (sameWorld 0) demoAccount defaultOptions []
      = Some (r, log') /\
    r_key r = lit "cr_0123456..." /\
    nth 2 (split 44 (csvRow r)) [] = lit "cr_0123456789abcdef".
Proof.
  destruct (proj2 (report_row_holds_full_credential (sameWorld 0) demoAccount
                     defaultOptions []) (fun _ _ => eq_refl))
    as (r & log' & Hrun).
  exists r, log'. split; [exact Hrun|].
  destruct (proj1 (report_row_holds_full_credential (sameWorld 0) demoAccount
                     defaultOptions []) r log' Hrun)
    as (Hkey & _ & _ & Hthird & _).
  split; [exact Hkey|].
  apply Hthird; vm_compute; intros H;
    repeat (destruct H as [H|H]; [discriminate H|]); exact H.
Defined.

(** C7 as the specification states it fails: the report saved for one
    account contains the whole of its credential, not a prefix. *)
Lemma report_credential_counterexample :
  exists r log',
    testAccountDirect (sameWorld 0)
      (mkAccount (lit "acct-1") (lit "https://relay.example/a")
         (lit "cr_0123456789abcdef")) defaultOptions []
      = Some (r, log') /\
    includes (saveResults (lit "2025/9/1 08:00:00") [r])
             (lit "cr_0123456789abcdef") = true /\
    r_key r = lit "cr_0123456..." /\
    r_key r <> lit "cr_0123456789abcdef".
Proof.
  eexists. eexists. split; [vm_compute; reflexivity|].
  split; [vm_compute; reflexivity|].
  split; [vm_compute; reflexivity|].
  vm_compute. discriminate.
Qed.


Lemma parseCSV_trailing_newline :
  forall s,
    s <> [] -> headOk s -> headOk (rev s) ->
    parseCSV (s ++ newline) = parseCSV s.
Proof.
  intros s Hne H1 H2. unfold parseCSV.
  assert (Ht : trim (s ++ newline) = s).
  { unfold trim. rewrite trimStart_headOk by (now apply headOk_app).
    unfold trimEnd, newline. rewrite rev_app_distr. cbn [rev app].
    change (trimStart (10%N :: rev s)) with (trimStart (rev s)).
    rewrite (trimStart_headOk _ H2). apply rev_involutive. }
  now rewrite Ht, (trim_headOk _ H1 H2).
Qed.

(** X14.  Reading a saved report back as an accounts file gives, for
    results whose name, url and credential have no comma, no line feed
    and no white space at their ends, the accounts of the results in
    order, each with its full credential, preceded by one account made
    of the column titles (named '用户名称', with url "url" and key
    "key"): the line with the time is the one left out, not the
    titles. *)
Theorem saved_report_read_back :
  forall (timestamp : jsstring) (results : list AccountResult),
    ~ In 10%N timestamp ->
    Forall plainResult results ->
    parseCSV (saveResults timestamp results)
    = headerAccount :: map accountOf results.
Proof.
  intros ts results Hts Hplain.
  set (first := csvStamp ++ ts).
  assert (Hfne : first <> []) by (subst first; discriminate).
  assert (Hfh : headOk first) by (subst first; vm_compute; reflexivity).
  assert (Hfl : ~ In 10%N first).
  { subst first. intros H. apply in_app_iff in H as [H|H]; [|contradiction].
    vm_compute in H. repeat (destruct H as [H|H]; [discriminate H|]). exact H. }
  assert (Htl : ~ In 10%N columnTitles).
  { vm_compute. intros H.
    repeat (destruct H as [H|H]; [discriminate H|]). exact H. }
  assert (Htitles : parseLine columnTitles = [headerAccount])
    by (vm_compute; reflexivity).
  assert (Hrows : flat_map parseLine (map csvRow results) = map accountOf results).
  { clear -Hplain. induction Hplain as [|r l Hr _ IH]; [reflexivity|].
    cbn [map flat_map]. destruct (csvRow_facts r Hr) as (-> & _).
    cbn [app]. now rewrite IH. }
  unfold saveResults. rewrite csvColumns_titles.
  destruct (map csvRow results) as [|row rows] eqn:E.
  - destruct results; [|discriminate E]. cbn [join map].
    rewrite app_nil_r.
    replace (csvStamp ++ ts ++ newline ++ columnTitles ++ newline)
      with (join newline (first :: [] ++ [columnTitles]) ++ newline)
      by (subst first; cbn [app join]; now rewrite <- !app_assoc).
    destruct (join_edges 10%N first [] columnTitles
                (fun H => False_ind _ (Hfne H))
                (fun H => ltac:(discriminate H)) Hfh ltac:(vm_compute; reflexivity))
      as (E1 & E2 & E3).
    rewrite parseCSV_trailing_newline by assumption.
    assert (HF : Forall (fun line => ~ In 10%N line) ([] ++ [columnTitles]))
      by (repeat constructor; exact Htl).
    assert (HL : forall init y, [] ++ [columnTitles] = init ++ [y] ->
                                y <> [] /\ headOk (rev y)).
    { intros init y Heq. cbn [app] in Heq.
      destruct init as [|z init]; [|destruct init; discriminate Heq].
      injection Heq as <-. split; [discriminate|vm_compute; reflexivity]. }
    rewrite (parseCSV_lines first _ Hfne Hfh Hfl HF HL).
    cbn [app flat_map map]. rewrite Htitles. reflexivity.
  - replace ((csvStamp ++ ts ++ newline ++ columnTitles ++ newline)
               ++ join newline (row :: rows))
      with (join newline (first :: columnTitles :: row :: rows))
      by (subst first; rewrite !join_two; now rewrite <- !app_assoc).
    assert (Hall : forall line, In line (row :: rows) ->
               ~ In 10%N line /\ line <> [] /\ headOk (rev line)).
    { intros line Hin. rewrite <- E in Hin.
      apply in_map_iff in Hin as (r & <- & Hr).
      rewrite Forall_forall in Hplain.
      destruct (csvRow_facts r (Hplain r Hr)) as (_ & A & B & C). auto. }
    assert (HF : Forall (fun line => ~ In 10%N line)
                   (columnTitles :: row :: rows)).
    { constructor; [exact Htl|]. apply Forall_forall. intros line Hin.
      now apply Hall. }
    assert (HL : forall init y, columnTitles :: row :: rows = init ++ [y] ->
                                y <> [] /\ headOk (rev y)).
    { intros init y Heq.
      assert (Hin : In y (row :: rows)).
      { destruct init as [|z init]; [discriminate Heq|].
        injection Heq as _ Heq. rewrite Heq. apply in_or_app. right. now left. }
      destruct (Hall y Hin) as (_ & A & B). auto. }
    rewrite (parseCSV_lines first _ Hfne Hfh Hfl HF HL).
    change (flat_map parseLine (columnTitles :: row :: rows))
      with (parseLine columnTitles ++ flat_map parseLine (row :: rows)).
    rewrite Htitles, Hrows. reflexivity.
Qed.

Lemma demoResults_plain : Forall plainResult demoResults.
Proof.
  repeat constructor; cbn;
    try (vm_compute; reflexivity);
    try (vm_compute; intros H;
         repeat (destruct H as [H|H]; [discriminate H|]); exact H).
Qed.

Lemma saved_report_read_back_witness :
  ~ In 10%N (lit "2025/9/1 08:00:00") /\
  parseCSV (saveResults (lit "2025/9/1 08:00:00") demoResults)
    = headerAccount :: map accountOf demoResults.
Proof.
  assert (H : ~ In 10%N (lit "2025/9/1 08:00:00"))
    by (vm_compute; intros H;
        repeat (destruct H as [H|H]; [discriminate H|]); exact H).
  split; [exact H|].
  exact (saved_report_read_back (lit "2025/9/1 08:00:00") demoResults H
           demoResults_plain).
Defined.

(* ================================================================== *)
(** * Further properties of the batch runner *)

Lemma startedCount_app :
  forall a b, startedCount (a ++ b) = (startedCount a + startedCount b)%nat.
Proof. intros. unfold startedCount. now rewrite filter_app, length_app. Qed.

Lemma finishedCount_app :
  forall a b, finishedCount (a ++ b) = (finishedCount a + finishedCount b)%nat.
Proof. intros. unfold finishedCount. now rewrite filter_app, length_app. Qed.

Lemma counts_of_started :
  forall l, startedCount (map Started l) = length l /\
            finishedCount (map Started l) = 0%nat.
Proof.
  induction l as [|x l (IH1 & IH2)]; [split; reflexivity|].
  unfold startedCount, finishedCount in *. cbn. rewrite IH1. auto.
Qed.

Lemma counts_of_finished :
  forall base l,
    startedCount (map (fun j => Finished (base + j)) l) = 0%nat /\
    finishedCount (map (fun j => Finished (base + j)) l) = length l.
Proof.
  intros base. induction l as [|x l (IH1 & IH2)]; [split; reflexivity|].
  unfold startedCount, finishedCount in *. cbn. rewrite IH2. auto.
Qed.

Lemma fullButLast_bound :
  forall (A : Type) (P : nat) (chunks : list (list A)),
    fullButLast P chunks -> Forall (fun c => (length c <= P)%nat) chunks.
Proof.
  intros A P. induction chunks as [|c rest IH]; intros H; [constructor|].
  cbn [fullButLast] in H. destruct rest as [|d rest].
  - constructor; [lia|constructor].
  - destruct H as (Hc & Hrest). constructor; [lia|]. now apply IH.
Qed.

(** At every moment the validations that have started and not finished
    fit in one chunk. *)
Lemma traceOf_running :
  forall completion chunks ci base P,
    (forall k, (k < length chunks)%nat ->
               Permutation (completion (ci + k))
                           (seq 0 (length (nth k chunks [])))) ->
    Forall (fun c => (length c <= P)%nat) chunks ->
    forall l1 l2,
      traceOf completion chunks ci base = l1 ++ l2 ->
      (startedCount l1 <= finishedCount l1 + P)%nat.
Proof.
  intros completion. induction chunks as [|c rest IH];
    intros ci base P Hperm Hsize l1 l2 Heq.
  - cbn in Heq. symmetry in Heq. apply app_eq_nil in Heq as (-> & _).
    cbn. lia.
  - inversion Hsize as [|? ? Hc Hrest]; subst.
    assert (Hlen : length (completion ci) = length c).
    { specialize (Hperm 0%nat). rewrite Nat.add_0_r in Hperm. cbn in Hperm.
      rewrite (Permutation_length (Hperm ltac:(lia))). apply length_seq. }
    destruct (counts_of_started (seq base (length c))) as (S1 & S2).
    destruct (counts_of_finished base (completion ci)) as (F1 & F2).
    rewrite length_seq in S1.
    cbn [traceOf] in Heq.
    apply app_eq_app in Heq as (l & [(H1 & H2)|(H1 & H2)]).
    + assert (Hs : (startedCount l1 + startedCount l = length c)%nat)
        by (rewrite <- startedCount_app, <- H1, startedCount_app, S1, F1; lia).
      lia.
    + subst l1. rewrite !startedCount_app, !finishedCount_app, S1, S2, F1, F2.
      assert (Hl : (startedCount l <= finishedCount l + P)%nat).
      { apply (IH (S ci) (base + length c)%nat P) with (l2 := l2);
          [|exact Hrest|exact H2].
        intros j Hj. specialize (Hperm (S j)).
        rewrite Nat.add_succ_r in Hperm. cbn in Hperm. apply Hperm.
        cbn. lia. }
      lia.
Qed.

(** X15.  With a bound of P validations, at every moment of a batch at
    most P validations have started and not yet finished. *)
Theorem batch_runs_at_most_P_at_once :
  forall (worlds : nat -> SpawnRequest -> nat -> Behaviour)
         (completion : nat -> list nat) (fuel : nat)
         (accounts : list Account) (options : Options) (P : Z)
         (chunks : list (list Account))
         (results : list AccountResult) (trace : list BatchEvent),
    parallel options = Num P ->
    (1 <= P)%Z ->
    (length accounts < fuel)%nat ->
    chunkLoop fuel accounts (parallel options) (Num 0) [] = Some chunks ->
    (forall ci, (ci < length chunks)%nat ->
                Permutation (completion ci)
                            (seq 0 (length (nth ci chunks [])))) ->
    batchTest worlds completion fuel accounts options = Some (results, trace) ->
    forall before after,
      trace = before ++ after ->
      (startedCount before <= finishedCount before + Z.to_nat P)%nat.
Proof.
  intros worlds completion fuel accounts options P chunks results trace
         HP Hpos Hfuel Hloop Hperm Hrun before after Heq.
  destruct (chunkLoop_from accounts (Z.to_nat P) ltac:(lia) fuel 0 [])
    as (cs & Hloop' & _ & Hfull); [lia|].
  rewrite Z2Nat.id in Hloop' by lia. cbn in Hloop'.
  rewrite HP in Hloop. rewrite Hloop in Hloop'. injection Hloop' as <-.
  unfold batchTest in Hrun. rewrite HP, Hloop in Hrun.
  apply runChunks_returned in Hrun as (rs & _ & -> & _). cbn in Heq.
  apply (traceOf_running completion chunks 0 0 (Z.to_nat P) Hperm
           (fullButLast_bound _ _ _ Hfull) before after Heq).
Qed.

Lemma batch_runs_at_most_P_at_once_witness :
  parallel twoAtATime = Num 2 /\ (1 <= 2)%Z /\
  (length threeAccounts < 4)%nat /\
  chunkLoop 4 threeAccounts (parallel twoAtATime) (Num 0) []
    = Some [firstn 2 threeAccounts; skipn 2 threeAccounts] /\
  batchTest mixedWorld secondFirst 4 threeAccounts twoAtATime
    = Some (demoResults, demoObserved) /\
  forall before after,
    demoObserved = before ++ after ->
    (startedCount before <= finishedCount before + Z.to_nat 2)%nat.
Proof.
  assert (H1 : chunkLoop 4 threeAccounts (parallel twoAtATime) (Num 0) []
               = Some [firstn 2 threeAccounts; skipn 2 threeAccounts])
    by (vm_compute; reflexivity).
  assert (H2 : batchTest mixedWorld secondFirst 4 threeAccounts twoAtATime
               = Some (demoResults, demoObserved))
    by (vm_compute; reflexivity).
  assert (H3 : forall ci,
             (ci < length [firstn 2 threeAccounts; skipn 2 threeAccounts])%nat ->
             Permutation (secondFirst ci)
               (seq 0 (length (nth ci [firstn 2 threeAccounts;
                                       skipn 2 threeAccounts] [])))).
  { intros ci Hci. destruct ci as [|[|ci]]; cbn.
    - apply perm_swap.
    - apply Permutation_refl.
    - cbn in Hci. lia. }
  split; [reflexivity|]. split; [lia|]. split; [cbn; lia|].
  split; [exact H1|]. split; [exact H2|].
  exact (batch_runs_at_most_P_at_once mixedWorld secondFirst 4 threeAccounts
           twoAtATime 2 _ demoResults demoObserved eq_refl ltac:(lia)
           ltac:(cbn; lia) H1 H3 H2).
Defined.

Lemma chunkLoop_nonpositive :
  forall (fuel : nat) (a : Account) (accounts : list Account) (P i : Z)
         (chunks : list (list Account)),
    (P <= 0)%Z -> (i <= 0)%Z ->
    chunkLoop fuel (a :: accounts) (Num P) (Num i) chunks = None.
Proof.
  induction fuel as [|fuel IH]; intros a accounts P i chunks HP Hi;
    [reflexivity|].
  cbn [chunkLoop]. unfold lt.
  destruct (Z.ltb_spec i (Z.of_nat (length (a :: accounts)))) as [H|H].
  - cbn [add]. apply IH; lia.
  - cbn [length] in H. lia.
Qed.

(** X16.  With a bound that is 0 or negative the batch of a list of
    accounts that is not empty never returns: the loop that cuts the
    list into chunks does not end, however many turns it is given. *)
Theorem batch_with_nonpositive_bound_never_returns :
  forall (worlds : nat -> SpawnRequest -> nat -> Behaviour)
         (completion : nat -> list nat) (fuel : nat)
         (accounts : list Account) (options : Options) (P : Z),
    parallel options = Num P ->
    (P <= 0)%Z ->
    accounts <> [] ->
    batchTest worlds completion fuel accounts options = None.
Proof.
  intros worlds completion fuel accounts options P HP Hneg Hne.
  destruct accounts as [|a accounts]; [contradiction|].
  unfold batchTest. rewrite HP.
  now rewrite chunkLoop_nonpositive by lia.
Qed.

Lemma batch_with_nonpositive_bound_never_returns_witness :
  parallel (setParallel (Num 0) defaultOptions) = Num 0 /\ (0 <= 0)%Z /\
  threeAccounts <> [] /\
  batchTest sameWorld secondFirst 1000 threeAccounts
    (setParallel (Num 0) defaultOptions) = None.
Proof.
  assert (H : threeAccounts <> []) by discriminate.
  split; [reflexivity|]. split; [lia|]. split; [exact H|].
  exact (batch_with_nonpositive_bound_never_returns sameWorld secondFirst 1000
           threeAccounts (setParallel (Num 0) defaultOptions) 0 eq_refl
           ltac:(lia) H).
Defined.

Lemma settle_nothing :
  forall (A : Type) (order : list nat),
    fold_left (settle (@nil (option A))) order [] = [].
Proof.
  intros A. induction order as [|i order IH]; [reflexivity|].
  cbn [fold_left]. unfold settle at 2. destruct i; cbn; exact IH.
Qed.

(** X17.  When the value given to [--parallel] is not a number, [main]
    probes no account at all: for accounts that are all well formed the
    batch returns no result, the report that is saved has no row, and
    the exit status is 0. *)
Theorem unreadable_parallel_tests_nothing :
  forall (parseInt : jsstring -> jsnum) (env : jsstring -> option jsstring)
         (readFile : jsstring -> option jsstring)
         (extname : jsstring -> jsstring)
         (JSON_parse : jsstring -> option (option (list Account)))
         (worlds : nat -> SpawnRequest -> nat -> Behaviour)
         (completion : nat -> list nat) (savedAt notifiedAt : jsstring)
         (fuel : nat) (args : list jsstring) (options : Options)
         (path : jsstring) (accounts : list Account),
    parseArgs parseInt env args = Some options ->
    parallel options = NaN ->
    configFile options = Some path ->
    Main.loadAccounts readFile extname JSON_parse path = Some accounts ->
    accounts <> [] ->
    forallb Main.accountOk accounts = true ->
    (2 <= fuel)%nat ->
    exists out observed,
      Main.main parseInt env readFile extname JSON_parse worlds completion
        savedAt notifiedAt fuel args = Some out /\
      Main.batch out = Some ([], observed) /\
      Main.exitStatus out = 0%Z /\
      Main.report out = Some (saveResults savedAt []).
Proof.
  intros parseInt env readFile extname JSON_parse worlds completion
         savedAt notifiedAt fuel args options path accounts
         Hparse Hnan Hpath Hload Hne Hok Hfuel.
  unfold Main.main. rewrite Hparse, Hpath, Hload, Hok.
  destruct accounts as [|a accounts]; [contradiction|].
  cbn [length Nat.eqb negb].
  destruct fuel as [|[|fuel]]; [lia|lia|].
  unfold batchTest. rewrite Hnan. cbn [chunkLoop]. unfold lt at 1.
  replace (0 <? Z.of_nat (length (a :: accounts)))%Z with true
    by (symmetry; apply Z.ltb_lt; cbn [length]; lia).
  cbn [add lt app].
  replace (slice (Num 0) NaN (a :: accounts)) with (@nil Account)
    by (unfold slice, relIndex; cbn; reflexivity).
  cbn [runChunks length seq combine map]. unfold Promise_all.
  cbn [length repeat]. rewrite settle_nothing. cbn [allFilled app].
  eexists. eexists. split; [reflexivity|]. cbn. auto.
Qed.

Lemma unreadable_parallel_tests_nothing_witness :
  exists out observed,
    unreadableParallelRun = Some out /\
    Main.batch out = Some ([], observed) /\
    Main.exitStatus out = 0%Z /\
    Main.report out = Some (saveResults (lit "2025/9/1 08:00:00") []).
Proof.
  assert (Hne : threeAccounts <> []) by discriminate.
  exact (unreadable_parallel_tests_nothing (fun _ => NaN) (fun _ => None)
           (fun _ => Some threeAccountsCsv) (fun _ => lit ".csv")
           (fun _ => None) mixedWorld secondFirst
           (lit "2025/9/1 08:00:00") (lit "2025/9/1 08:00:01") 4
           [lit "accounts.csv"; lit "--parallel"; lit "two"]
           (setParallel NaN (setConfigFile (lit "accounts.csv") defaultOptions))
           (lit "accounts.csv") threeAccounts
           ltac:(vm_compute; reflexivity) eq_refl eq_refl
           ltac:(vm_compute; reflexivity) Hne ltac:(vm_compute; reflexivity)
           ltac:(lia)).
Defined.

(* ================================================================== *)
(** * The two probes side by side *)

Lemma failureKind_agree :
  forall code s,
    WebServer.failureKind s = failureKind code s \/
    (fst (WebServer.failureKind s) = Unknown /\
     (fst (failureKind code s) = ModelUnavailable \/
      fst (failureKind code s) = ProcessError \/
      fst (failureKind code s) = Unknown)).
Proof.
  intros code s. unfold WebServer.failureKind, failureKind.
  repeat match goal with
         | |- context [if ?c then _ else _] => destruct c
         end; cbn [fst]; auto.
Qed.

Lemma step_keeps_first_result :
  forall te c rc,
    promiseValue c = Some rc -> promiseValue (step te c) = Some rc.
Proof.
  intros [t ev] c rc H. unfold promiseValue in *.
  destruct (resolved c) as [|r0 l] eqn:E; [discriminate H|].
  cbn in H. injection H as ->.
  unfold step; cbn [fst snd].
  destruct (uncaught c); [now rewrite E|].
  destruct ev as [[d|d|code|msg|msg']| |th].
  - cbn. now rewrite E.
  - cbn. now rewrite E.
  - unfold onClose. destruct (hasResponded c); [now rewrite E|].
    destruct (closeIsSuccess code (output c)); cbn; now rewrite E.
  - unfold onError. destruct (hasResponded c); [now rewrite E|].
    cbn; now rewrite E.
  - destruct (onStdinError_cases c) as [->| ->]; cbn; now rewrite E.
  - destruct (timerCleared c); [now rewrite E|]. unfold onTimeout.
    destruct (hasResponded c); [now rewrite E|]. cbn; now rewrite E.
  - unfold onPromptTimer. destruct (hasResponded c); cbn; [now rewrite E|].
    destruct th; cbn; now rewrite E.
Qed.

Ltac first_results_agree Ew Ec :=
  let rw := fresh "rw" in
  let Hrw := fresh "Hrw" in
  intros rw Hrw; unfold promiseValue in *; cbn in Hrw |- *;
  rewrite Ew in Hrw; rewrite Ec; cbn in Hrw |- *;
  injection Hrw as <-; eexists; split; [reflexivity|].

Ltac in_step H6 H7 :=
  unfold inStep; cbn; repeat split; intros;
  first [ congruence | discriminate
        | apply H6; first [assumption | reflexivity | congruence]
        | apply H7; first [assumption | congruence]
        | match goal with
          | H : _ ++ _ :: _ = [] |- _ =>
              apply app_eq_nil in H; destruct H; discriminate
          end ].

Lemma follows_step :
  forall te w c, follows w c -> follows (WebServer.step te w) (step te c).
Proof.
  intros [t ev] w c (Hin & Hres).
  assert (Hkeep : forall rw, promiseValue w = Some rw ->
            exists rc, promiseValue (step (t, ev) c) = Some rc /\ agree rw rc).
  { intros rw Hrw. destruct (Hres rw Hrw) as (rc & Hrc & Hag).
    exists rc. split; [now apply step_keeps_first_result|exact Hag]. }
  destruct (uncaught w) eqn:Hu.
  - assert (Hs : WebServer.step (t, ev) w = w)
      by (unfold WebServer.step; now rewrite Hu).
    rewrite Hs. split; [intros H; rewrite Hu in H; discriminate H|exact Hkeep].
  - destruct (Hin eq_refl) as (H1 & H2 & H3 & H4 & H5 & Hc & H7 & H6).
    unfold WebServer.step. rewrite Hu. cbn [fst snd].
    destruct ev as [[d|d|code|msg|msg']| |th].
    + split; [|exact Hkeep]. intros _. unfold step; rewrite Hc.
      in_step H6 H7.
    + split; [|exact Hkeep]. intros _. unfold step; rewrite Hc.
      in_step H6 H7.
    + unfold WebServer.onClose. destruct (hasResponded w) eqn:Hr.
      * split; [|exact Hkeep]. intros _. unfold step; rewrite Hc.
        cbn [fst snd]. unfold onClose. rewrite <- H4. in_step H6 H7.
      * clear Hkeep. destruct (H6 eq_refl) as (R & Ew & Ec).
        unfold step; rewrite Hc; cbn [fst snd]. unfold onClose.
        rewrite <- H4, <- H2, <- H3, <- H1, <- R.
        destruct (closeIsSuccess code (output w)).
        -- split.
           ++ intros _. in_step H6 H7.
           ++ first_results_agree Ew Ec.
              cbn. repeat split. left. split; reflexivity.
        -- split.
           ++ intros _. in_step H6 H7.
           ++ first_results_agree Ew Ec.
              cbn. repeat split.
              destruct (failureKind_agree code (errorOutput w ++ output w))
                as [E|(E1 & E2)].
              ** left. rewrite E. split; reflexivity.
              ** right. rewrite E1. split; [reflexivity|].
                 destruct E2 as [E2|[E2|E2]]; rewrite E2; auto.
    + split; [intros H; discriminate H|exact Hkeep].
    + unfold onStdinError at 1. destruct (stdinWrites w) eqn:Ews.
      * split; [|exact Hkeep]. intros _. unfold step; rewrite Hc.
        cbn [fst snd]. unfold onStdinError. rewrite (H7 eq_refl).
        exact (Hin eq_refl).
      * split; [intros H; discriminate H|exact Hkeep].
    + destruct (timerCleared w) eqn:Ht.
      * split; [|exact Hkeep]. intros _. unfold step; rewrite Hc.
        cbn [fst snd]. rewrite <- H5. in_step H6 H7.
      * unfold onTimeout at 1. destruct (hasResponded w) eqn:Hr.
        -- split; [|exact Hkeep]. intros _. unfold step; rewrite Hc.
           cbn [fst snd]. rewrite <- H5. unfold onTimeout. rewrite <- H4.
           in_step H6 H7.
        -- clear Hkeep. destruct (H6 eq_refl) as (R & Ew & Ec).
           unfold step; rewrite Hc; cbn [fst snd]. rewrite <- H5.
           unfold onTimeout. rewrite <- H4, <- H1, <- R. split.
           ++ intros _. in_step H6 H7.
           ++ first_results_agree Ew Ec.
              cbn. repeat split. left. split; reflexivity.
    + unfold WebServer.onPromptTimer. destruct th.
      * split; [intros H; discriminate H|exact Hkeep].
      * split; [|exact Hkeep]. intros _. unfold step; rewrite Hc.
        cbn [fst snd]. unfold onPromptTimer. rewrite <- H4.
        destruct (hasResponded w) eqn:Hr; in_step H6 H7.
Qed.

Lemma follows_run :
  forall l w c, follows w c -> follows (WebServer.run w l) (run c l).
Proof.
  induction l as [|te l IH]; intros w c H; [exact H|].
  rewrite web_run_cons, run_cons. apply IH. now apply follows_step.
Qed.

(** X18.  Whenever the probe of the web server resolves, the probe of
    the batch checker, run with the same timeout against the same
    child, resolves with the same status, response time, preview and
    speed; the error kind and text are the same too, unless the web
    server says "unknown" where the batch checker tells a missing model,
    a failed process or an empty answer. *)
Theorem web_result_agrees_with_batch_checker :
  forall (modelName : jsstring) (options : Options) (b : Behaviour)
         (web : Result),
    promiseValue (WebServer.testSingleModel modelName (timeout options) b)
      = Some web ->
    exists cli,
      promiseValue (probe modelName options b) = Some cli /\
      agree web cli.
Proof.
  intros m options b web H.
  assert (H0 : follows (initProc m (spawnTime b)) (initProc m (spawnTime b))).
  { split; [intros _; unfold inStep; cbn; repeat split; auto|].
    intros rw Hrw. discriminate Hrw. }
  destruct (follows_run (eventLoop (timeout options) b) _ _ H0) as (_ & Hres).
  exact (Hres web H).
Qed.

Lemma web_result_agrees_with_batch_checker_witness :
  exists web cli,
    promiseValue (WebServer.testSingleModel sonnetModel
                    (timeout defaultOptions) unknownModelChild) = Some web /\
    promiseValue (probe sonnetModel defaultOptions unknownModelChild)
      = Some cli /\
    errorType web = Some Unknown /\ errorType cli = Some ModelUnavailable /\
    agree web cli.
Proof.
  eexists. 
  destruct (web_result_agrees_with_batch_checker sonnetModel defaultOptions
              unknownModelChild _ eq_refl) as (cli & Hcli & Hag).
  exists cli. split; [reflexivity|]. split; [exact Hcli|].
  split; [reflexivity|]. split; [|exact Hag].
  vm_compute in Hcli. injection Hcli as <-. reflexivity.
Defined.

(* ================================================================== *)
(** * What the probes do to the child *)

Lemma failureKind_not_timeout :
  forall code s, fst (failureKind code s) <> Timeout.
Proof.
  intros code s. unfold failureKind.
  repeat match goal with
         | |- context [if ?c then _ else _] => destruct c
         end; cbn [fst]; discriminate.
Qed.

Lemma step_killsOnTimeoutOnly :
  forall te p, killsOnTimeoutOnly p -> killsOnTimeoutOnly (step te p).
Proof.
  intros te p H.
  destruct (uncaught p) eqn:Hu; [rewrite step_dead by exact Hu; exact H|].
  destruct H as [(H1 & H2 & H3 & H4 & H5)|(H1 & r & Hr & Hk)].
  - destruct te as [t ev]. unfold step; rewrite Hu; cbn [fst snd].
    destruct ev as [[d|d|code|msg|msg']| |th].
    + left. repeat split; assumption.
    + left. repeat split; assumption.
    + right. unfold onClose. rewrite H1.
      destruct (closeIsSuccess code (output p)); cbn; rewrite H2, H4.
      * split; [reflexivity|]. eexists. split; [reflexivity|]. cbn.
        rewrite H5. split; discriminate.
      * split; [reflexivity|]. eexists. split; [reflexivity|]. cbn.
        split; [discriminate|]. intros H. exfalso.
        injection H as H.
        exact (failureKind_not_timeout code (errorOutput p ++ output p) H).
    + right. unfold onError. rewrite H1. cbn. rewrite H2, H4.
      split; [reflexivity|]. eexists. split; [reflexivity|]. cbn.
      split; discriminate.
    + left. destruct (onStdinError_cases p) as [->| ->];
        repeat split; assumption.
    + right. rewrite H3. unfold onTimeout. rewrite H1. cbn. rewrite H2.
      split; [reflexivity|]. eexists. split; [reflexivity|]. cbn.
      split; reflexivity.
    + left. unfold onPromptTimer. rewrite H1. cbn.
      destruct th; repeat split; assumption.
  - right.
    assert (Hlen : length (resolved p) = 1%nat) by now rewrite Hr.
    pose proof (run_done [te] p H1 Hlen) as Hsame.
    pose proof (run_responded_keeps_killed [te] p H1) as Hkill.
    pose proof (run_keeps_responded [te] p H1) as Hresp.
    change (run p [te]) with (step te p) in Hsame, Hkill, Hresp.
    split; [exact Hresp|]. exists r. rewrite Hsame, Hkill. auto.
Qed.

Lemma run_killsOnTimeoutOnly :
  forall l p, killsOnTimeoutOnly p -> killsOnTimeoutOnly (run p l).
Proof.
  induction l as [|te l IH]; intros p H; [exact H|].
  rewrite run_cons. apply IH. now apply step_killsOnTimeoutOnly.
Qed.

(** X19.  The probe of the batch checker has killed the child exactly
    when it has resolved with a timeout: a child that closed, or that
    could not be launched, is never killed, and neither is the child of
    a probe that never resolves. *)
Theorem child_is_killed_exactly_on_timeout :
  forall (modelName : jsstring) (options : Options) (b : Behaviour),
    killed (probe modelName options b) = true <->
    exists r,
      promiseValue (probe modelName options b) = Some r /\
      errorType r = Some Timeout.
Proof.
  intros m options b.
  assert (H0 : killsOnTimeoutOnly (initProc m (spawnTime b)))
    by (left; repeat split).
  unfold probe, promiseValue.
  destruct (run_killsOnTimeoutOnly (eventLoop (timeout options) b) _ H0)
    as [(_ & Hnil & _ & Hk & _)|(_ & r & Hr & Hk)].
  - rewrite Hnil, Hk. split; [discriminate|].
    intros (r & Hr & _). discriminate Hr.
  - rewrite Hr. cbn. split.
    + intros H. exists r. split; [reflexivity|]. now apply Hk.
    + intros (r' & Hr' & Ht). injection Hr' as <-. now apply Hk.
Qed.

Lemma insertTimer_split :
  forall first due ev l,
  exists l1 l2, l = l1 ++ l2 /\ insertTimer first due ev l = l1 ++ (due, ev) :: l2.
Proof.
  intros first due ev. induction l as [|[t e] l (l1 & l2 & IH1 & IH2)].
  - exists [], []. split; reflexivity.
  - cbn [insertTimer].
    destruct (if first then (due <=? t)%Z else (due <? t)%Z).
    + exists [], ((t, e) :: l). split; reflexivity.
    + exists ((t, e) :: l1), l2. cbn. rewrite <- IH1, IH2. split; reflexivity.
Qed.

Lemma promptTimers_insertTimer :
  forall first due ev l,
    promptTimers (insertTimer first due ev l)
    = ((if notPrompt (due, ev) then 0 else 1) + promptTimers l)%nat.
Proof.
  intros first due ev l.
  destruct (insertTimer_split first due ev l) as (l1 & l2 & -> & ->).
  unfold promptTimers. rewrite !filter_app. cbn [filter].
  destruct (notPrompt (due, ev)); cbn [negb]; rewrite !length_app; cbn; lia.
Qed.

Lemma eventLoop_one_prompt :
  forall tm b, promptTimers (eventLoop tm b) = 1%nat.
Proof.
  intros tm b. unfold eventLoop. rewrite !promptTimers_insertTimer. cbn.
  unfold promptTimers.
  induction (childEvents b) as [|[t e] l IH]; [reflexivity|exact IH].
Qed.

(** Each callback run leaves stdin as it is, or, when it is a prompt
    timer, may write the prompt and end the stream. *)
Lemma step_prompts :
  forall te p,
  exists k,
    (k <= promptTimers [te])%nat /\
    stdinWrites (step te p) = stdinWrites p ++ repeat promptText k /\
    stdinEnded (step te p) = stdinEnded p || (0 <? k)%nat.
Proof.
  intros [t ev] p. destruct (notPrompt (t, ev)) eqn:Enp.
  - destruct (step_keeps_stdin (t, ev) p (or_introl Enp)) as (A & B & _).
    exists 0%nat. rewrite A, B. cbn [repeat Nat.ltb Nat.leb].
    rewrite app_nil_r, orb_false_r. split; [lia|auto].
  - destruct ev as [e| |th]; try discriminate Enp.
    unfold promptTimers. cbn [filter notPrompt snd negb length].
    unfold step; cbn [fst snd].
    assert (Hnone : forall q : Proc,
               (0 <= 1)%nat /\
               stdinWrites q = stdinWrites q ++ repeat promptText 0 /\
               stdinEnded q = stdinEnded q || (0 <? 0)%nat)
      by (intros q; cbn; rewrite app_nil_r, orb_false_r; auto).
    destruct (uncaught p); [exists 0%nat; apply Hnone|].
    unfold onPromptTimer.
    destruct (negb (hasResponded p)); [|exists 0%nat; apply Hnone].
    destruct th; [exists 0%nat; apply Hnone|].
    exists 1%nat. cbn. rewrite orb_true_r. auto.
Qed.

Lemma web_step_prompts :
  forall te p,
  exists k,
    (k <= promptTimers [te])%nat /\
    stdinWrites (WebServer.step te p) = stdinWrites p ++ repeat promptText k /\
    stdinEnded (WebServer.step te p) = stdinEnded p || (0 <? k)%nat.
Proof.
  intros [t ev] p.
  assert (Hnone : forall q : Proc,
             stdinWrites q = stdinWrites q ++ repeat promptText 0 /\
             stdinEnded q = stdinEnded q || (0 <? 0)%nat)
    by (intros q; cbn; rewrite app_nil_r, orb_false_r; auto).
  unfold WebServer.step; cbn [fst snd].
  destruct (uncaught p); [exists 0%nat; split; [lia|apply Hnone]|].
  destruct ev as [[d|d|code|msg|msg']| |th].
  - exists 0%nat. split; [lia|apply (Hnone p)].
  - exists 0%nat. split; [lia|apply (Hnone p)].
  - exists 0%nat. split; [lia|]. unfold WebServer.onClose.
    destruct (hasResponded p); [apply Hnone|].
    destruct (closeIsSuccess code (output p)); apply (Hnone p).
  - exists 0%nat. split; [lia|apply (Hnone p)].
  - exists 0%nat. split; [lia|].
    destruct (onStdinError_cases p) as [->| ->]; apply (Hnone p).
  - exists 0%nat. split; [lia|]. destruct (timerCleared p); [apply Hnone|].
    unfold onTimeout. destruct (hasResponded p); apply (Hnone p).
  - unfold WebServer.onPromptTimer. destruct th.
    + exists 0%nat. split; [lia|apply (Hnone p)].
    + exists 1%nat. unfold promptTimers. cbn. rewrite orb_true_r. auto.
Qed.

Lemma promptTimers_cons :
  forall te l, promptTimers (te :: l) = (promptTimers [te] + promptTimers l)%nat.
Proof.
  intros te l. unfold promptTimers. cbn [filter].
  destruct (negb (notPrompt te)); reflexivity.
Qed.

Lemma prompts_add :
  forall (w w' : list jsstring) (e e' : bool) (k n : nat) (w0 : list jsstring)
         (e0 : bool),
    w = w0 ++ repeat promptText k -> e = e0 || (0 <? k)%nat ->
    w' = w ++ repeat promptText n -> e' = e || (0 <? n)%nat ->
    w' = w0 ++ repeat promptText (k + n) /\ e' = e0 || (0 <? k + n)%nat.
Proof.
  intros w w' e e' k n w0 e0 -> -> -> ->.
  rewrite <- app_assoc, <- repeat_app. split; [reflexivity|].
  rewrite <- orb_assoc. f_equal.
  destruct k, n; reflexivity.
Qed.

Lemma run_prompts :
  forall l p,
  exists n,
    (n <= promptTimers l)%nat /\
    stdinWrites (run p l) = stdinWrites p ++ repeat promptText n /\
    stdinEnded (run p l) = stdinEnded p || (0 <? n)%nat.
Proof.
  induction l as [|te l IH]; intros p.
  - exists 0%nat. cbn. rewrite app_nil_r, orb_false_r. auto.
  - rewrite run_cons, promptTimers_cons.
    destruct (step_prompts te p) as (k & Hk & Hw & He).
    destruct (IH (step te p)) as (n & Hn & Hw' & He').
    exists (k + n)%nat. split; [lia|].
    exact (prompts_add _ _ _ _ k n _ _ Hw He Hw' He').
Qed.

Lemma web_run_prompts :
  forall l p,
  exists n,
    (n <= promptTimers l)%nat /\
    stdinWrites (WebServer.run p l) = stdinWrites p ++ repeat promptText n /\
    stdinEnded (WebServer.run p l) = stdinEnded p || (0 <? n)%nat.
Proof.
  induction l as [|te l IH]; intros p.
  - exists 0%nat. cbn. rewrite app_nil_r, orb_false_r. auto.
  - rewrite web_run_cons, promptTimers_cons.
    destruct (web_step_prompts te p) as (k & Hk & Hw & He).
    destruct (IH (WebServer.step te p)) as (n & Hn & Hw' & He').
    exists (k + n)%nat. split; [lia|].
    exact (prompts_add _ _ _ _ k n _ _ Hw He Hw' He').
Qed.

(** X20.  In both programs a probe writes to the child's stdin at most
    once, the prompt, and ends the stream exactly when it has written. *)
Theorem prompt_is_written_at_most_once :
  forall (modelName : jsstring) (options : Options) (timeoutMs : jsnum)
         (b : Behaviour),
    promptedAtMostOnce (probe modelName options b) /\
    promptedAtMostOnce (WebServer.testSingleModel modelName timeoutMs b).
Proof.
  intros m options tm b.
  assert (Hcases : forall n ws en,
            (n <= 1)%nat -> ws = [] ++ repeat promptText n ->
            en = false || (0 <? n)%nat ->
            (ws = [] /\ en = false) \/ (ws = [promptText] /\ en = true)).
  { intros n ws en Hn -> ->. destruct n as [|[|n]]; [now left|now right|lia]. }
  split.
  - unfold probe.
    destruct (run_prompts (eventLoop (timeout options) b)
                (initProc m (spawnTime b))) as (n & Hn & Hw & He).
    rewrite eventLoop_one_prompt in Hn. exact (Hcases n _ _ Hn Hw He).
  - unfold WebServer.testSingleModel.
    destruct (web_run_prompts (eventLoop tm b) (initProc m (spawnTime b)))
      as (n & Hn & Hw & He).
    rewrite eventLoop_one_prompt in Hn. exact (Hcases n _ _ Hn Hw He).
Qed.

(* ================================================================== *)
(** * The web server and an error on the child's stdin *)

Lemma web_run_safe_writes :
  forall l p t',
    forallb webSafe l = true -> uncaught p = false ->
    In (t', PromptTimerFired false) l \/ stdinWrites p <> [] ->
    stdinWrites (WebServer.run p l) <> [] /\
    uncaught (WebServer.run p l) = false.
Proof.
  induction l as [|te l IH]; intros p t' Hl Hu Hin.
  - destruct Hin as [[]|Hw]. auto.
  - cbn [forallb] in Hl. apply andb_prop in Hl as (Hs & Hl).
    rewrite web_run_cons.
    destruct (web_step_safe te p Hs Hu) as (Hu' & _).
    apply (IH _ t' Hl Hu').
    destruct Hin as [[->|Hin]|Hw].
    + right. unfold WebServer.step; cbn [fst snd]. rewrite Hu. cbn.
      destruct (stdinWrites p); discriminate.
    + now left.
    + right. destruct (web_step_prompts te p) as (k & _ & -> & _).
      destruct (stdinWrites p); [now elim Hw|discriminate].
Qed.

(** X21.  In the web server the prompt is written whether or not the
    probe has resolved, and the child's stdin has no 'error' listener:
    once the prompt was written, an error the stream reports is thrown
    and ends the server process, and the probe resolves after it no
    more than it had before. *)
Theorem web_stdin_error_is_uncaught :
  forall (modelName : jsstring) (timeoutMs : jsnum) (b : Behaviour)
         (pre rest : list (Z * Event)) (t t' : Z) (message : jsstring),
    eventLoop timeoutMs b
      = pre ++ (t, FromChild (StdinErrorEv message)) :: rest ->
    forallb webSafe pre = true ->
    In (t', PromptTimerFired false) pre ->
    uncaught (WebServer.testSingleModel modelName timeoutMs b) = true /\
    resolved (WebServer.testSingleModel modelName timeoutMs b)
      = resolved (WebServer.run (initProc modelName (spawnTime b)) pre).
Proof.
  intros m tm b pre rest t t' msg Hloop Hsafe Hin.
  destruct (web_run_safe_writes pre (initProc m (spawnTime b)) t'
              Hsafe eq_refl (or_introl Hin)) as (Hw & Hu).
  unfold WebServer.testSingleModel. rewrite Hloop, web_run_app, web_run_cons.
  set (q := WebServer.run (initProc m (spawnTime b)) pre) in *.
  assert (Hs : WebServer.step (t, FromChild (StdinErrorEv msg)) q
               = throwUncaught q).
  { unfold WebServer.step; cbn [fst snd]. rewrite Hu. unfold onStdinError.
    destruct (stdinWrites q); [now elim Hw|reflexivity]. }
  rewrite Hs, web_run_uncaught by reflexivity. split; reflexivity.
Qed.

Lemma web_stdin_error_is_uncaught_witness :
  eventLoop (Num 60000) brokenPipeChild
    = [(1000%Z, PromptTimerFired false)]
      ++ (1001%Z, FromChild (StdinErrorEv (lit "write EPIPE")))
      :: [(2000%Z, FromChild (Stdout (lit "I am Sonnet")));
          (2100%Z, FromChild (CloseEv (Some 0%Z)));
          (60000%Z, TimeoutFired)] /\
  uncaught (WebServer.testSingleModel sonnetModel (Num 60000) brokenPipeChild)
    = true /\
  resolved (WebServer.testSingleModel sonnetModel (Num 60000) brokenPipeChild)
    = [].
Proof.
  split; [reflexivity|].
  exact (web_stdin_error_is_uncaught sonnetModel (Num 60000) brokenPipeChild
           [(1000%Z, PromptTimerFired false)]
           [(2000%Z, FromChild (Stdout (lit "I am Sonnet")));
            (2100%Z, FromChild (CloseEv (Some 0%Z)));
            (60000%Z, TimeoutFired)]
           1001%Z 1000%Z (lit "write EPIPE") eq_refl eq_refl
           (or_introl eq_refl)).
Defined.
